(** * Sonic Siphon: job execution, cancellation, tempo chaining and file moves

    A shallow embedding of the Go sources: the downloader (the task
    executor [downloadTask] and the post-processor [adjustAudioSpeed]) and
    [handlers.go] ([downloadHandler], [cancelJobHandler], [moveFilesHandler],
    [copyFile]).  Around them: the preview ([previewHandler], [getVideoInfo],
    [getPlaylistVideoIDs]), [downloadSingleVideo], [getMP3Files], the
    status, job-list, file-list and delete handlers and [getFilesInDir].

    Numbers.  [speed] is a Go [float64].  The tempo code only compares it
    with the constants 0.5, 1.0 and 2.0 and divides it by 2.0 or by 0.5; on
    finite binary64 values these operations are exact (halving a value
    above 2 and doubling a value below 0.5 neither round nor overflow), so
    the loop is modelled on exact rationals [Q], of which every finite
    binary64 value is one.  The only rounding in the code is the ["%.4f"]
    and ["%.1f"] formatting, which is modelled explicitly (correct
    rounding, ties to even, as Go's [strconv] does).

    Concurrency.  Every access to the shared [downloads] map happens inside
    a [mu.Lock()] / [mu.Unlock()] section, so the executor is modelled as a
    machine whose steps are those critical sections and the blocking
    external calls between them; a cancellation request is one more atomic
    step that can be scheduled between any two of them.

    Environment.  What yt-dlp, ffmpeg and the operating system do is not
    in the sources: the result of every external call is an input of the
    model (an [answer] of the environment, a [faults] table for the file
    operations), and the statements quantify over it. *)

From Stdlib Require Import ZArith QArith Lqa Lia.
From stdpp Require Import base list sorting strings pretty gmap.

Local Open Scope Q_scope.

(** ** Formatting of numbers *)

Module Fmt.

(** Nearest integer to [q], ties to the even neighbour. *)
Definition round_half_even (q : Q) : Z :=
  let n := Qnum q in
  let d := Z.pos (Qden q) in
  let fl := (n / d)%Z in
  let r := (n mod d)%Z in
  match (2 * r ?= d)%Z with
  | Lt => fl
  | Gt => (fl + 1)%Z
  | Eq => if Z.even fl then fl else (fl + 1)%Z
  end.

(** [q] rounded to [prec] decimals, as the integer [q * 10^prec]. *)
Definition scaled (prec : nat) (q : Q) : Z :=
  round_half_even (q * inject_Z (10 ^ Z.of_nat prec)).

(** The number that a ["%.<prec>f"] rendering of [q] denotes. *)
Definition rounded (prec : nat) (q : Q) : Q :=
  Qred (scaled prec q # Z.to_pos (10 ^ Z.of_nat prec)).

(** [s] left-padded with zeros to [width] characters. *)
Fixpoint zeros (n : nat) : string :=
  match n with
  | O => ""
  | S k => "0" +:+ zeros k
  end.

Definition pad_left (width : nat) (s : string) : string :=
  zeros (width - String.length s) +:+ s.

(** [fmt.Sprintf("%.<prec>f", q)] for [prec >= 1]. *)
Definition sprintf_f (prec : nat) (q : Q) : string :=
  let n := Z.abs (scaled prec q) in
  let p := (10 ^ Z.of_nat prec)%Z in
  (if decide (Qnum q < 0)%Z then "-" else "") +:+
  pretty (Z.to_N (n / p)) +:+ "." +:+
  pad_left prec (pretty (Z.to_N (n mod p))).

(** [fmt.Sprintf("%d", n)] for a length or a counter. *)
Definition sprintf_d (n : nat) : string := pretty n.

End Fmt.

(** ** Tempo planner: the filter chain of [adjustAudioSpeed] *)

Definition Qltb (a b : Q) : bool := negb (Qle_bool b a).

(** One element of the Go slice [filters]. *)
Inductive stage : Type :=
  | Lit2                   (* the literal "atempo=2.0" *)
  | LitHalf                (* the literal "atempo=0.5" *)
  | Fmt4 (remaining : Q).  (* fmt.Sprintf("atempo=%.4f", remaining) *)

(** The text of a stage. *)
Definition render (s : stage) : string :=
  match s with
  | Lit2 => "atempo=2.0"
  | LitHalf => "atempo=0.5"
  | Fmt4 r => "atempo=" +:+ Fmt.sprintf_f 4 r
  end.

(** The float handed to the stage before it is printed. *)
Definition stage_arg (s : stage) : Q :=
  match s with
  | Lit2 => 2
  | LitHalf => 1 # 2
  | Fmt4 r => r
  end.

(** The multiplier that the printed stage denotes, which is what the
    external filter receives. *)
Definition stage_value (s : stage) : Q :=
  match s with
  | Lit2 => 2
  | LitHalf => 1 # 2
  | Fmt4 r => Fmt.rounded 4 r
  end.

(** [for remaining > 2.0 { filters = append(filters, "atempo=2.0");
    remaining /= 2.0 }].  [None]: the loop did not end within [fuel]
    iterations. *)
Fixpoint loopUp (fuel : nat) (remaining : Q) (filters : list stage)
  : option (Q * list stage) :=
  if Qltb 2 remaining then
    match fuel with
    | O => None
    | S fuel' => loopUp fuel' (remaining / 2) (filters ++ [Lit2])
    end
  else Some (remaining, filters).

(** [for remaining < 0.5 { filters = append(filters, "atempo=0.5");
    remaining /= 0.5 }]. *)
Fixpoint loopDown (fuel : nat) (remaining : Q) (filters : list stage)
  : option (Q * list stage) :=
  if Qltb remaining (1 # 2) then
    match fuel with
    | O => None
    | S fuel' => loopDown fuel' (remaining / (1 # 2)) (filters ++ [LitHalf])
    end
  else Some (remaining, filters).

(** The three branches of [adjustAudioSpeed] that build the chain. *)
Definition atempoFilters (fuel : nat) (speed : Q) : option (list stage) :=
  if Qle_bool (1 # 2) speed && Qle_bool speed 2 then
    Some [Fmt4 speed]
  else if Qltb 2 speed then
    match loopUp fuel speed [] with
    | None => None
    | Some (remaining, filters) =>
        Some (if Qltb 1 remaining then filters ++ [Fmt4 remaining] else filters)
    end
  else
    match loopDown fuel speed [] with
    | None => None
    | Some (remaining, filters) =>
        Some (if Qltb remaining 1 then filters ++ [Fmt4 remaining] else filters)
    end.

(** A number of iterations that suffices for a positive [speed]: the
    numerator bounds the halvings, the denominator the doublings. *)
Definition enough_fuel (speed : Q) : nat :=
  (Z.to_nat (Qnum speed) + Pos.to_nat (Qden speed))%nat.

(** [strings.Join(filters, ",")]. *)
Fixpoint join (sep : string) (l : list string) : string :=
  match l with
  | [] => ""
  | [x] => x
  | x :: rest => x +:+ sep +:+ join sep rest
  end.

Definition filterChain (filters : list stage) : string :=
  join "," (render <$> filters).

(** Product of the stages under a reading [v] of a stage. *)
Definition product_by (v : stage -> Q) (filters : list stage) : Q :=
  foldr (fun s acc => v s * acc) 1 filters.

(** Product of the multipliers the filter chain applies. *)
Definition chain_product (filters : list stage) : Q := product_by stage_value filters.

(** Product of the floats the chain was built from. *)
Definition arg_product (filters : list stage) : Q := product_by stage_arg filters.

(** *** The planner as the specification words it *)

(** "If m > 2.0: repeatedly emit stage 2.0 and divide the remaining
    multiplier by 2.0 until the remaining value is <= 2.0; if the final
    remainder exceeds 1.0, append it as the last stage; a remainder of
    exactly 1.0 emits no trailing stage." *)
Inductive spec_up : Q -> list Q -> Prop :=
  | spec_up_emit r l : 2 < r -> spec_up (r / 2) l -> spec_up r (2 :: l)
  | spec_up_trail r : r <= 2 -> 1 < r -> spec_up r [r]
  | spec_up_none r : r <= 2 -> ~ 1 < r -> spec_up r [].

(** "If m < 0.5: symmetric construction using stage 0.5, dividing the
    remaining multiplier by 0.5 until the remainder is >= 0.5; append the
    remainder as a trailing stage if it is below 1.0." *)
Inductive spec_down : Q -> list Q -> Prop :=
  | spec_down_emit r l :
      r < 1 # 2 -> spec_down (r / (1 # 2)) l -> spec_down r ((1 # 2) :: l)
  | spec_down_trail r : 1 # 2 <= r -> r < 1 -> spec_down r [r]
  | spec_down_none r : 1 # 2 <= r -> ~ r < 1 -> spec_down r [].

(** "If 0.5 <= m <= 2.0: single stage [m]", and the two cases above. *)
Inductive spec_plan (m : Q) : list Q -> Prop :=
  | spec_plan_single : 1 # 2 <= m -> m <= 2 -> spec_plan m [m]
  | spec_plan_up l : 2 < m -> spec_up m l -> spec_plan m l
  | spec_plan_down l : m < 1 # 2 -> spec_down m l -> spec_plan m l.

(** ** Errors and the file system *)

(** [syscall.Errno] values that the file operations can return. *)
Inductive errno : Type := ENOENT | EXDEV | EACCES | EIO | ENOSPC.

#[global] Instance errno_eq_dec : EqDecision errno.
Proof. solve_decision. Defined.

Definition errno_text (e : errno) : string :=
  match e with
  | ENOENT => "no such file or directory"
  | EXDEV => "invalid cross-device link"
  | EACCES => "permission denied"
  | EIO => "input/output error"
  | ENOSPC => "no space left on device"
  end.

(** Go [error] values, by dynamic type. *)
Inductive goerror : Type :=
  | LinkError (op old new : string) (e : errno)   (* *os.LinkError *)
  | PathError (op path : string) (e : errno)      (* *os.PathError *)
  | ErrorString (msg : string).                   (* fmt.Errorf, exec errors *)

(** [err.Error()], which is what ["%v"] prints. *)
Definition error_text (err : goerror) : string :=
  match err with
  | LinkError op old new e => op +:+ " " +:+ old +:+ " " +:+ new +:+ ": " +:+ errno_text e
  | PathError op path e => op +:+ " " +:+ path +:+ ": " +:+ errno_text e
  | ErrorString msg => msg
  end.

(** Files by path, and the paths whose data has been flushed to disk. *)
Record FS : Type := mkFS {
  files : gmap string string;
  synced : gset string
}.

(** What the operating system refuses, by operation and path.  The model
    of each file operation consults it first and otherwise acts on [FS]. *)
Record faults : Type := mkFaults {
  f_stat : string -> option errno;
  f_rename : string -> string -> option errno;
  f_remove : string -> option errno;
  f_open : string -> option errno;
  f_create : string -> option errno;
  f_write : string -> option errno;
  f_sync : string -> option errno
}.

Definition no_faults : faults :=
  mkFaults (fun _ => None) (fun _ _ => None) (fun _ => None) (fun _ => None)
           (fun _ => None) (fun _ => None) (fun _ => None).

(** [os.Stat(path)], keeping only the error. *)
Definition os_Stat (flt : faults) (fs : FS) (path : string) : option goerror :=
  match f_stat flt path with
  | Some e => Some (PathError "stat" path e)
  | None =>
      match files fs !! path with
      | None => Some (PathError "stat" path ENOENT)
      | Some _ => None
      end
  end.

(** [os.IsNotExist(err)]. *)
Definition os_IsNotExist (err : option goerror) : bool :=
  match err with
  | Some (PathError _ _ ENOENT) | Some (LinkError _ _ _ ENOENT) => true
  | _ => false
  end.

(** [os.Rename(old, new)]: its error is always a [*os.LinkError]. *)
Definition os_Rename (flt : faults) (fs : FS) (old new : string)
  : FS * option goerror :=
  match f_rename flt old new with
  | Some e => (fs, Some (LinkError "rename" old new e))
  | None =>
      match files fs !! old with
      | None => (fs, Some (LinkError "rename" old new ENOENT))
      | Some data =>
          (mkFS (<[new := data]> (delete old (files fs)))
                (if decide (old ∈ synced fs)
                 then {[new]} ∪ synced fs ∖ {[old]}
                 else synced fs ∖ {[old]} ∖ {[new]}),
           None)
      end
  end.

(** [os.Remove(path)], on files: the file model holds no directories. *)
Definition os_Remove (flt : faults) (fs : FS) (path : string)
  : FS * option goerror :=
  match f_remove flt path with
  | Some e => (fs, Some (PathError "remove" path e))
  | None =>
      match files fs !! path with
      | None => (fs, Some (PathError "remove" path ENOENT))
      | Some _ => (mkFS (delete path (files fs)) (synced fs ∖ {[path]}), None)
      end
  end.

(** [copyFile(src, dst)]: open, create (truncating), copy, sync; the two
    deferred [Close] calls change nothing that is modelled. *)
Definition copyFile (flt : faults) (fs : FS) (src dst : string)
  : FS * option goerror :=
  match f_open flt src, files fs !! src with
  | Some e, _ => (fs, Some (PathError "open" src e))
  | None, None => (fs, Some (PathError "open" src ENOENT))
  | None, Some data =>
      match f_create flt dst with
      | Some e => (fs, Some (PathError "open" dst e))
      | None =>
          let created := mkFS (<[dst := ""]> (files fs)) (synced fs ∖ {[dst]}) in
          match f_write flt dst with
          | Some e => (created, Some (PathError "write" dst e))
          | None =>
              let copied := mkFS (<[dst := data]> (files fs)) (synced fs ∖ {[dst]}) in
              match f_sync flt dst with
              | Some e => (copied, Some (PathError "sync" dst e))
              | None => (mkFS (files copied) ({[dst]} ∪ synced copied), None)
              end
          end
      end
  end.

(** ** The audio post-processor *)

(** How a run of ffmpeg ends, which the environment decides: exit status
    zero with the output file written, or a failure (non-zero exit, or
    killed) that leaves the output path absent or untouched ([None]) or
    holding what had been written so far. *)
Inductive ffmpeg_result : Type :=
  | FfmpegOk (out : string)
  | FfmpegFail (err output : string) (partial : option string).

Record adjust_out : Type := mkAdjustOut {
  fs_after : FS;
  err_out : option goerror;
  spawned : option string    (* the filter expression ffmpeg was started with *)
}.

Definition write_file (fs : FS) (path data : string) : FS :=
  mkFS (<[path := data]> (files fs)) (synced fs ∖ {[path]}).

(** [adjustAudioSpeed(ctx, inputFile, speed)].  [ctx_done]: the context is
    already cancelled, in which case [exec.CommandContext] refuses to
    start the process.  [None]: the filter loop does not end. *)
Definition adjustAudioSpeed (ctx_done : bool) (flt : faults) (ff : ffmpeg_result)
    (fs : FS) (inputFile : string) (speed : Q) : option adjust_out :=
  let tempFile := inputFile +:+ ".tmp.mp3" in
  match atempoFilters (enough_fuel speed) speed with
  | None => None
  | Some filters =>
      let chain := filterChain filters in
      if ctx_done then
        Some (mkAdjustOut fs
                (Some (ErrorString "ffmpeg failed: context canceled, output: "))
                None)
      else
        match ff with
        | FfmpegFail err output partial =>
            Some (mkAdjustOut
                    (match partial with
                     | Some data => write_file fs tempFile data
                     | None => fs
                     end)
                    (Some (ErrorString
                       ("ffmpeg failed: " +:+ err +:+ ", output: " +:+ output)))
                    (Some chain))
        | FfmpegOk out =>
            let fs1 := write_file fs tempFile out in
            match os_Remove flt fs1 inputFile with
            | (fs2, Some e) =>
                Some (mkAdjustOut fs2
                        (Some (ErrorString
                           ("failed to remove original file: " +:+ error_text e)))
                        (Some chain))
            | (fs2, None) =>
                match os_Rename flt fs2 tempFile inputFile with
                | (fs3, Some e) =>
                    Some (mkAdjustOut fs3
                            (Some (ErrorString
                               ("failed to rename temp file: " +:+ error_text e)))
                            (Some chain))
                | (fs3, None) => Some (mkAdjustOut fs3 None (Some chain))
                end
            end
        end
  end.

(** ** Jobs and the registry *)

(** The values the code stores in [DownloadStatus.Status]. *)
Inductive status : Type :=
  | queued | downloading | processing | completed | error | cancelled.

#[global] Instance status_eq_dec : EqDecision status.
Proof. solve_decision. Defined.

Definition status_text (s : status) : string :=
  match s with
  | queued => "queued"
  | downloading => "downloading"
  | processing => "processing"
  | completed => "completed"
  | error => "error"
  | cancelled => "cancelled"
  end.

(** State of the process behind a [*exec.Cmd]: [cmd.Process] is nil until
    [Start] succeeds and stays set afterwards. *)
Inductive process : Type :=
  | NotStarted     (* cmd.Process == nil *)
  | Running
  | Killed         (* signalled, not yet reaped by Wait *)
  | Exited.

#[global] Instance process_eq_dec : EqDecision process.
Proof. solve_decision. Defined.

(** [type DownloadStatus struct].  [ctxDone] is the state of the context
    made by [context.WithCancel] in [downloadHandler]: the [cancel] field
    closes it and the task reads it through [ctx.Done()] and [ctx.Err()]. *)
Record DownloadStatus : Type := mkJob {
  ID : string;
  Status : status;
  Message : string;
  Progress : string;
  URL : string;
  Speed : Q;
  CreatedAt : Z;
  cancel : bool;             (* job.cancel != nil *)
  ctxDone : bool;
  cmd : option process       (* job.cmd, nil or a command *)
}.

Definition set_status (s : status) (msg : string) (job : DownloadStatus)
  : DownloadStatus :=
  mkJob (ID job) s msg (Progress job) (URL job) (Speed job) (CreatedAt job)
        (cancel job) (ctxDone job) (cmd job).

Definition set_message (msg : string) (job : DownloadStatus) : DownloadStatus :=
  set_status (Status job) msg job.

Definition set_cmd (c : option process) (job : DownloadStatus) : DownloadStatus :=
  mkJob (ID job) (Status job) (Message job) (Progress job) (URL job) (Speed job)
        (CreatedAt job) (cancel job) (ctxDone job) c.

Definition set_ctxDone (b : bool) (job : DownloadStatus) : DownloadStatus :=
  mkJob (ID job) (Status job) (Message job) (Progress job) (URL job) (Speed job)
        (CreatedAt job) (cancel job) b (cmd job).

(** What the handlers and the task do outside the registry. *)
Inductive event : Type :=
  | EvCancelCtx                          (* job.cancel() *)
  | EvKill (live : bool)                 (* job.cmd.Process.Kill(); [live]: it was running *)
  | EvSpawn (tool : string)              (* an external process was started *)
  | EvAdjust (file : string) (speed : Q) (ok : bool)
                                         (* adjustAudioSpeed returned; [ok]: nil *)
  | EvPrint (line : string).             (* fmt.Printf *)

Inductive response : Type :=
  | OK (body : string)
  | BadRequest (msg : string)
  | NotFound (msg : string).

(** [cancelJobHandler] once the job has been found: the guard on the
    status, then [cancel()], [Kill()] and the update, all under the lock. *)
Definition cancelJob (job : DownloadStatus)
  : DownloadStatus * list event * response :=
  if negb (bool_decide (Status job = queued))
     && negb (bool_decide (Status job = downloading))
     && negb (bool_decide (Status job = processing))
  then (job, [], BadRequest "Job cannot be cancelled")
  else
    let '(job1, ev1) :=
      if cancel job then (set_ctxDone true job, [EvCancelCtx]) else (job, []) in
    let '(job2, ev2) :=
      match cmd job1 with
      | Some Running => (set_cmd (Some Killed) job1, [EvKill true])
      | Some Killed => (job1, [EvKill false])
      | Some Exited => (job1, [EvKill false])
      | Some NotStarted => (job1, [])
      | None => (job1, [])
      end in
    (set_status cancelled "Job cancelled by user" job2, ev1 ++ ev2,
     OK "Job cancelled").

(** [cancelJobHandler], with [jobID := c.Param("id")]. *)
Definition cancelJobHandler (downloads : gmap string DownloadStatus) (jobID : string)
  : gmap string DownloadStatus * list event * response :=
  match downloads !! jobID with
  | None => (downloads, [], NotFound "Job not found")
  | Some job =>
      let '(job', evs, resp) := cancelJob job in
      (<[jobID := job']> downloads, evs, resp)
  end.

(** The job as [downloadHandler] stores it. *)
Definition new_job (downloadID url : string) (speed : Q) (now : Z) : DownloadStatus :=
  mkJob downloadID queued "Starting download..." "0%" url speed now true false None.

(** The JSON body of a download request: unparsable, or an object in
    which either field may be missing. *)
Inductive download_body : Type :=
  | Malformed
  | Json (url : option string) (speed : option Q).

(** [c.ShouldBindJSON(&req)]: a missing field keeps its zero value. *)
Definition bind_download (b : download_body) : option (string * Q) :=
  match b with
  | Malformed => None
  | Json url speed => Some (default "" url, default 0 speed)
  end.

(** [downloadHandler], up to the [go downloadTask(...)] statement, whose
    arguments are returned as the third component.  [uuid] and [now] are
    the results of [uuid.New().String()] and [time.Now()]. *)
Definition downloadHandler (downloads : gmap string DownloadStatus)
    (b : download_body) (uuid : string) (now : Z)
  : gmap string DownloadStatus * option (string * Q * string) * response :=
  match bind_download b with
  | None => (downloads, None, BadRequest "Invalid request")
  | Some (url, speed) =>
      if bool_decide (url = "") then (downloads, None, BadRequest "No URL provided")
      else
        let speed := if Qeq_bool speed 0 then 1 else speed in
        let downloadID := uuid in
        (<[downloadID := new_job downloadID url speed now]> downloads,
         Some (url, speed, downloadID),
         OK downloadID)
  end.

(** ** Strings *)

Definition nl : string := String (Ascii.ascii_of_nat 10) "".

(** [strings.HasPrefix(s, p)]. *)
Fixpoint HasPrefix (s p : string) : bool :=
  match p, s with
  | EmptyString, _ => true
  | String a p', String b s' => Ascii.eqb a b && HasPrefix s' p'
  | String _ _, EmptyString => false
  end.

(** [strings.Contains(s, sub)]. *)
Fixpoint Contains (s sub : string) : bool :=
  HasPrefix s sub ||
  match s with
  | EmptyString => false
  | String _ rest => Contains rest sub
  end.

Definition is_space (c : Ascii.ascii) : bool :=
  let n := Ascii.nat_of_ascii c in
  bool_decide (n = 32 \/ (9 <= n /\ n <= 13))%nat.

Fixpoint trim_left (s : string) : string :=
  match s with
  | String c rest => if is_space c then trim_left rest else s
  | EmptyString => s
  end.

Fixpoint trim_right (s : string) : string :=
  match s with
  | String c rest =>
      match trim_right rest with
      | EmptyString => if is_space c then EmptyString else String c EmptyString
      | t => String c t
      end
  | EmptyString => s
  end.

(** [strings.TrimSpace], on ASCII white space. *)
Definition TrimSpace (s : string) : string := trim_right (trim_left s).

(** ** The task executor *)

Definition TEMP_DIR : string := "/temp".
Definition OUTPUT_DIR : string := "/output".

(** The URL test that [downloadTask] and [getVideoInfo] both make. *)
Definition isPlaylist (url : string) : bool :=
  Contains url "list=" ||
  Contains url "/playlist" ||
  Contains url "playlist?list=" ||
  HasPrefix url "https://www.youtube.com/playlist" ||
  HasPrefix url "http://www.youtube.com/playlist" ||
  HasPrefix url "https://youtube.com/playlist" ||
  HasPrefix url "http://youtube.com/playlist".

(** Result of [cmd.Run()]: nil, or an error together with what the
    process wrote to standard error. *)
Inductive run_result : Type :=
  | RunOk
  | RunErr (err stderr : string).

(** The executor as a tree of its atomic steps.  Each node is one
    [mu.Lock() ... mu.Unlock()] section, one poll of the context, or one
    blocking call; the continuation receives what the step observed.
    [Wait] is the second half of [Run]: the process has been started and
    the task is blocked in [cmd.Wait].  Of the [fmt.Printf] calls only the
    two of the playlist transform loop are kept; the others write progress
    lines to the process log and touch nothing else. *)
Inductive task : Type :=
  | Return
  | Select (k : bool -> task)
  | Locked (body : DownloadStatus -> DownloadStatus) (k : task)
  | GetMP3Files (dir : string) (k : list string -> task)
  | Run (k : run_result -> task)
  | Wait (k : run_result -> task)
  | DownloadSingleVideo (videoID tempDir : string) (k : string + string -> task)
  | Newest (names : list string) (k : string -> task)
  | AdjustAudioSpeed (inputFile : string) (speed : Q) (k : option goerror -> task)
  | Printf (line : string) (k : task).

Section Executor.

(** [filepath.Join] applied to a directory and a name. *)
Variable Join : string -> string -> string.

Definition speed_x (speed : Q) : string := Fmt.sprintf_f 1 speed +:+ "x".

(** The critical section that ends a failed download: [cancelled] if the
    context was cancelled, [error] with [errMsg] otherwise. *)
Definition fail_download (errMsg : string) (job : DownloadStatus) : DownloadStatus :=
  if ctxDone job then set_status cancelled "Download cancelled" job
  else set_status error errMsg job.

(** "Mark as completed" of the playlist branch. *)
Definition complete_playlist (speed : Q) (newFiles : list string) : task :=
  Locked (fun job =>
    set_status completed
      (if negb (Qeq_bool speed 1) then
         "Downloaded " +:+ Fmt.sprintf_d (length newFiles) +:+ " files with "
           +:+ speed_x speed +:+ " speed"
       else "Downloaded " +:+ Fmt.sprintf_d (length newFiles) +:+ " files")
      job)
    Return.

(** [for i, filename := range newFiles { ... }], entered at index [i] with
    [rest] still to do, followed by the log line and the completion. *)
Fixpoint process_files (speed : Q) (newFiles : list string)
    (i successCount : nat) (rest : list string) : task :=
  match rest with
  | [] =>
      Printf ("[INFO] Applied speed adjustment to " +:+ Fmt.sprintf_d successCount
                +:+ "/" +:+ Fmt.sprintf_d (length newFiles) +:+ " files" +:+ nl)
        (complete_playlist speed newFiles)
  | filename :: rest' =>
      Select (fun done =>
        if done then
          Locked (set_status cancelled
                    ("Cancelled after processing " +:+ Fmt.sprintf_d i +:+ "/"
                       +:+ Fmt.sprintf_d (length newFiles) +:+ " files"))
            Return
        else
          Locked (set_message
                    ("Processing " +:+ Fmt.sprintf_d (i + 1) +:+ "/"
                       +:+ Fmt.sprintf_d (length newFiles) +:+ ": " +:+ filename))
            (AdjustAudioSpeed (Join TEMP_DIR filename) speed (fun err =>
               match err with
               | Some e =>
                   Printf ("[WARN] Failed to adjust speed for " +:+ filename +:+ ": "
                             +:+ error_text e +:+ nl)
                     (process_files speed newFiles (i + 1) successCount rest')
               | None =>
                   process_files speed newFiles (i + 1) (successCount + 1) rest'
               end)))
  end.

(** The playlist branch of [downloadTask]. *)
Definition playlist_task (speed : Q) : task :=
  Locked (set_message "Downloading playlist...")
   (Locked (set_cmd (Some NotStarted))
     (GetMP3Files TEMP_DIR (fun filesBefore =>
       Run (fun r =>
         match r with
         | RunErr err stderr =>
             Locked (fail_download
                       ("Playlist download error: " +:+ err +:+
                        (if decide (0 < String.length stderr)%nat then
                           nl +:+ String.substring 0
                                    (Nat.min 500 (String.length stderr)) stderr
                         else "")))
               Return
         | RunOk =>
             GetMP3Files TEMP_DIR (fun filesAfter =>
               let newFiles :=
                 filter (fun f => f ∉ filesBefore) filesAfter in
               if negb (Qeq_bool speed 1)
                  && bool_decide (0 < length newFiles)%nat then
                 Locked (set_status processing
                           ("Applying " +:+ speed_x speed +:+ " speed to "
                              +:+ Fmt.sprintf_d (length newFiles) +:+ " files..."))
                   (process_files speed newFiles 0 0 newFiles)
               else complete_playlist speed newFiles)
         end)))).

(** "Mark as completed" of the single-video branch. *)
Definition complete_single (speed : Q) : task :=
  Locked (fun job =>
    set_status completed
      (if negb (Qeq_bool speed 1) then
         "Download completed with " +:+ speed_x speed +:+ " speed"
       else "Download completed")
      job)
    Return.

(** "Apply speed adjustment if needed" of the single-video branch. *)
Definition finish_single (speed : Q) (filePath : string) : task :=
  if negb (Qeq_bool speed 1) then
    Locked (set_status processing
              ("Applying " +:+ speed_x speed +:+ " speed adjustment..."))
      (AdjustAudioSpeed filePath speed (fun err =>
         match err with
         | Some e =>
             Locked (set_status error ("Failed to adjust speed: " +:+ error_text e))
               Return
         | None => complete_single speed
         end))
  else complete_single speed.

(** The single-video branch of [downloadTask]. *)
Definition single_task (speed : Q) : task :=
  Locked (set_message "Downloading video...")
   (DownloadSingleVideo "" TEMP_DIR (fun r =>
      match r with
      | inl filePath => finish_single speed filePath
      | inr _ =>
          Locked (set_cmd (Some NotStarted))
           (Run (fun r =>
              match r with
              | RunErr err stderr =>
                  Locked (fail_download
                            ("Error: " +:+ err +:+
                             (if decide (0 < String.length stderr)%nat then
                                nl +:+ TrimSpace stderr
                              else "")))
                    Return
              | RunOk =>
                  GetMP3Files TEMP_DIR (fun files =>
                    if decide (length files = 0)%nat then
                      Locked (set_status error "No MP3 file was created") Return
                    else
                      Newest files (fun newestFile =>
                        finish_single speed newestFile))
              end))
      end)).

(** [downloadTask(ctx, url, speed, downloadID)]. *)
Definition downloadTask (url : string) (speed : Q) : task :=
  Select (fun done =>
    if done then
      Locked (set_status cancelled "Job cancelled before starting") Return
    else
      Locked (set_status downloading "Starting download...")
        (if isPlaylist url then playlist_task speed else single_task speed)).

End Executor.

(** ** Running a task next to cancellation requests *)

(** What the environment answers to a step that waits for it. *)
Inductive answer : Type :=
  | Tick                                  (* the step needs no answer *)
  | Listing (names : list string)         (* getMP3Files: names, in iteration order *)
  | ProcExit (r : run_result)             (* the stored command ends *)
  | Fetched (r : string + string)         (* downloadSingleVideo: path, or error text *)
  | NewestIs (path : string)              (* the most recently modified file *)
  | FfmpegEnds (r : ffmpeg_result).

(** One job, its task, the files and what has happened outside. *)
Record sys : Type := mkSys {
  job : DownloadStatus;
  fs : FS;
  events : list event;
  todo : task
}.

(** The next atomic step of the task.  A step that waits for an answer of
    another kind does not move.  A call made on a cancelled context fails
    without starting a process; a command that was killed fails in
    [Wait].  An [adjustAudioSpeed] whose filter loop does not end keeps
    the task where it is.  The calls of [adjustAudioSpeed] and
    [downloadSingleVideo] are one step each and read the context when
    they are made: a request is scheduled before or after such a call,
    not while it is in flight.  The kill that [exec.CommandContext] does
    by itself once the context is cancelled has no event of its own;
    [EvKill] is the [Process.Kill()] of the handler. *)
Definition step (flt : faults) (a : answer) (s : sys) : sys :=
  match todo s with
  | Return => s
  | Select k => mkSys (job s) (fs s) (events s) (k (ctxDone (job s)))
  | Locked body k => mkSys (body (job s)) (fs s) (events s) k
  | GetMP3Files _ k =>
      match a with
      | Listing names => mkSys (job s) (fs s) (events s) (k names)
      | _ => s
      end
  | Run k =>
      if ctxDone (job s) then
        mkSys (job s) (fs s) (events s) (k (RunErr "context canceled" ""))
      else
        mkSys (set_cmd (Some Running) (job s)) (fs s)
              (events s ++ [EvSpawn "yt-dlp"]) (Wait k)
  | Wait k =>
      match a with
      | ProcExit r =>
          mkSys (set_cmd (Some Exited) (job s)) (fs s) (events s)
                (k (if decide (cmd (job s) = Some Killed)
                    then RunErr "signal: killed" "" else r))
      | _ => s
      end
  | DownloadSingleVideo _ _ k =>
      if ctxDone (job s) then
        mkSys (job s) (fs s) (events s)
              (k (inr "download failed: context canceled, output: "))
      else
        match a with
        | Fetched r =>
            mkSys (job s) (fs s) (events s ++ [EvSpawn "yt-dlp"]) (k r)
        | _ => s
        end
  | Newest _ k =>
      match a with
      | NewestIs path => mkSys (job s) (fs s) (events s) (k path)
      | _ => s
      end
  | AdjustAudioSpeed inputFile speed k =>
      match a with
      | FfmpegEnds r =>
          match adjustAudioSpeed (ctxDone (job s)) flt r (fs s) inputFile speed with
          | None => s
          | Some out =>
              mkSys (job s) (fs_after out)
                    (events s
                       ++ match spawned out with
                          | Some _ => [EvSpawn "ffmpeg"]
                          | None => []
                          end
                       ++ [EvAdjust inputFile speed
                             (bool_decide (err_out out = None))])
                    (k (err_out out))
          end
      | _ => s
      end
  | Printf line k => mkSys (job s) (fs s) (events s ++ [EvPrint line]) k
  end.

(** What can be scheduled next: a cancellation request for the job, or
    the next step of its task. *)
Inductive action : Type :=
  | Cancel
  | Step (a : answer).

Definition act (flt : faults) (s : sys) (x : action) : sys :=
  match x with
  | Cancel =>
      let '(job', evs, _) := cancelJob (job s) in
      mkSys job' (fs s) (events s ++ evs) (todo s)
  | Step a => step flt a s
  end.

Definition run (flt : faults) (xs : list action) (s : sys) : sys :=
  foldl (act flt) s xs.

(** The statuses the job shows after each action of a schedule. *)
Fixpoint statuses (flt : faults) (xs : list action) (s : sys) : list status :=
  match xs with
  | [] => []
  | x :: xs' => Status (job (act flt s x)) :: statuses flt xs' (act flt s x)
  end.


(** ** Moving files to the output directory *)

Section Move.

Variable Join : string -> string -> string.

(** What one iteration of the loop of [moveFilesHandler] produces. *)
Record move_out : Type := mkMoveOut {
  mv_fs : FS;
  mv_errors : list string;   (* entries appended to [errors] *)
  mv_moved : bool            (* [movedCount++] was reached *)
}.

(** The body of [for _, filename := range req.Filenames]. *)
Definition moveFile (flt : faults) (fs : FS) (filename : string) : move_out :=
  let srcPath := Join TEMP_DIR filename in
  let dstPath := Join OUTPUT_DIR filename in
  if negb (HasPrefix srcPath TEMP_DIR) || negb (HasPrefix dstPath OUTPUT_DIR) then
    mkMoveOut fs [filename +:+ ": Invalid path"] false
  else if os_IsNotExist (os_Stat flt fs srcPath) then
    mkMoveOut fs [filename +:+ ": File not found in temp"] false
  else
    match os_Rename flt fs srcPath dstPath with
    | (fs1, None) => mkMoveOut fs1 [] true
    | (fs1, Some err) =>
        match err with
        | LinkError _ _ _ e =>
            if decide (e = EXDEV) then
              match copyFile flt fs1 srcPath dstPath with
              | (fs2, Some copyErr) =>
                  mkMoveOut fs2 [filename +:+ ": " +:+ error_text copyErr] false
              | (fs2, None) =>
                  match os_Remove flt fs2 srcPath with
                  | (fs3, Some removeErr) =>
                      mkMoveOut fs3
                        [filename +:+ ": copied but failed to remove source: "
                           +:+ error_text removeErr]
                        true
                  | (fs3, None) => mkMoveOut fs3 [] true
                  end
              end
            else mkMoveOut fs1 [filename +:+ ": " +:+ error_text err] false
        | _ => mkMoveOut fs1 [filename +:+ ": " +:+ error_text err] false
        end
    end.

(** The loop: the file system, [movedCount] and [errors] after it. *)
Fixpoint moveFiles (flt : faults) (fs : FS) (movedCount : nat) (errors : list string)
    (filenames : list string) : FS * nat * list string :=
  match filenames with
  | [] => (fs, movedCount, errors)
  | filename :: rest =>
      let out := moveFile flt fs filename in
      moveFiles flt (mv_fs out)
                (if mv_moved out then S movedCount else movedCount)
                (errors ++ mv_errors out) rest
  end.

Inductive move_response : Type :=
  | MoveBadRequest (msg : string)
  | MoveOK (moved : nat) (errors : list string).

(** [moveFilesHandler]; [None] is a body that does not parse. *)
Definition moveFilesHandler (flt : faults) (fs : FS) (body : option (list string))
  : FS * move_response :=
  match body with
  | None => (fs, MoveBadRequest "Invalid request")
  | Some filenames =>
      if decide (length filenames = 0)%nat then
        (fs, MoveBadRequest "No files specified")
      else
        let '(fs', moved, errors) := moveFiles flt fs 0 [] filenames in
        (fs', MoveOK moved errors)
  end.

End Move.

(** [filepath.Join] on a directory and a file name that is not empty, has
    no separator and is not a dot segment (no path is cleaned); it is used
    to run the handlers on examples, the statements leave [Join] open. *)
Definition join_name (dir name : string) : string := dir +:+ "/" +:+ name.

(** ** Predicates on jobs, events and tasks used in the statements *)

(** The statuses in which [cancelJobHandler] accepts a request. *)
Definition active (st : status) : Prop :=
  st = queued \/ st = downloading \/ st = processing.

(** [completed], [error] and [cancelled]. *)
Definition terminal (st : status) : Prop :=
  st = completed \/ st = error \/ st = cancelled.

Definition is_live_kill (e : event) : bool :=
  match e with EvKill true => true | _ => false end.

Definition is_spawn (e : event) : bool :=
  match e with EvSpawn _ => true | _ => false end.

Definition is_adjust (e : event) : bool :=
  match e with EvAdjust _ _ _ => true | _ => false end.

(** Number of [Kill] calls that hit a running process. *)
Definition kills (evs : list event) : nat := length (List.filter is_live_kill evs).

(** Every critical section of the task satisfies [P], and [A] holds
    wherever the task calls [adjustAudioSpeed]. *)
Inductive task_all (P : (DownloadStatus -> DownloadStatus) -> Prop) (A : Prop)
  : task -> Prop :=
  | all_Return : task_all P A Return
  | all_Select k : (forall b, task_all P A (k b)) -> task_all P A (Select k)
  | all_Locked body k : P body -> task_all P A k -> task_all P A (Locked body k)
  | all_GetMP3Files dir k :
      (forall names, task_all P A (k names)) -> task_all P A (GetMP3Files dir k)
  | all_Run k : (forall r, task_all P A (k r)) -> task_all P A (Run k)
  | all_Wait k : (forall r, task_all P A (k r)) -> task_all P A (Wait k)
  | all_DownloadSingleVideo v d k :
      (forall r, task_all P A (k r)) -> task_all P A (DownloadSingleVideo v d k)
  | all_Newest names k :
      (forall path, task_all P A (k path)) -> task_all P A (Newest names k)
  | all_AdjustAudioSpeed f sp k :
      A -> (forall e, task_all P A (k e)) -> task_all P A (AdjustAudioSpeed f sp k)
  | all_Printf line k : task_all P A k -> task_all P A (Printf line k).

(** ** Running a task on its own *)

(** The task is blocked until the environment answers. *)
Definition waits (s : sys) : bool :=
  match todo s with
  | GetMP3Files _ _ | Wait _ | Newest _ _ | AdjustAudioSpeed _ _ _ => true
  | DownloadSingleVideo _ _ _ => negb (ctxDone (job s))
  | _ => false
  end.

(** At most [n] steps of the task with no cancellation request in between;
    the answers are consumed in order by the steps that wait for one. *)
Fixpoint drive (flt : faults) (n : nat) (answers : list answer) (s : sys) : sys :=
  match n with
  | O => s
  | S n' =>
      if waits s then
        match answers with
        | [] => s
        | a :: rest => drive flt n' rest (step flt a s)
        end
      else
        match todo s with
        | Return => s
        | _ => drive flt n' answers (step flt Tick s)
        end
  end.

(** The files [adjustAudioSpeed] was called on, in order. *)
Definition adjust_calls (evs : list event) : list string :=
  omap (fun e => match e with EvAdjust file _ _ => Some file | _ => None end) evs.

Definition is_adjust_ok (e : event) : bool :=
  match e with EvAdjust _ _ true => true | _ => false end.

(** Number of calls of [adjustAudioSpeed] that returned nil. *)
Definition successes (evs : list event) : nat :=
  length (List.filter is_adjust_ok evs).

(** The line the playlist loop logs when it ends. *)
Definition applied_line (successCount total : nat) : string :=
  "[INFO] Applied speed adjustment to " +:+ Fmt.sprintf_d successCount
    +:+ "/" +:+ Fmt.sprintf_d total +:+ " files" +:+ nl.

(** ** Other handlers of the registry *)

(** What [c.JSON] writes for a [*DownloadStatus]: the exported fields,
    [url] and [speed] being left out when empty or zero ([omitempty]). *)
Record job_json : Type := mkJobJson {
  j_id : string;
  j_status : string;
  j_message : string;
  j_progress : string;
  j_url : option string;
  j_speed : option Q;
  j_created_at : Z
}.

Definition to_json (job : DownloadStatus) : job_json :=
  mkJobJson (ID job) (status_text (Status job)) (Message job) (Progress job)
            (if bool_decide (URL job = "") then None else Some (URL job))
            (if Qeq_bool (Speed job) 0 then None else Some (Speed job))
            (CreatedAt job).

(** [statusHandler]: [None] is the 404 answer "Download ID not found". *)
Definition statusHandler (downloads : gmap string DownloadStatus) (downloadID : string)
  : option job_json :=
  match downloads !! downloadID with
  | None => None
  | Some job => Some (to_json job)
  end.

(** The copy [listJobsHandler] makes of a job, "without internal fields". *)
Definition public_copy (job : DownloadStatus) : DownloadStatus :=
  mkJob (ID job) (Status job) (Message job) (Progress job) (URL job) (Speed job)
        (CreatedAt job) false false None.

(** [jobs[i].CreatedAt.After(jobs[j].CreatedAt)], the [less] of the sort. *)
Definition created_after (a b : DownloadStatus) : bool :=
  bool_decide (CreatedAt b < CreatedAt a)%Z.

Section ListJobs.

(** [sort.Slice(jobs, less)] with the [less] above: a library routine, not
    stable, of which only the contract is used. *)
Variable sort_Slice : list DownloadStatus -> list DownloadStatus.

(** [listJobsHandler].  [iteration] is the order in which
    [for _, job := range downloads] visits the jobs, which Go leaves
    unspecified. *)
Definition listJobsHandler (iteration : list DownloadStatus) : list job_json :=
  to_json <$> sort_Slice (public_copy <$> iteration).

End ListJobs.

(** ** Deleting a file *)

Inductive file_response : Type :=
  | FileOK
  | FileBadRequest (msg : string)
  | FileNotFound (msg : string)
  | FileServerError (msg : string).

(** [strings.TrimPrefix(s, "/")]. *)
Definition TrimSlash (s : string) : string :=
  match s with
  | String _ rest => if HasPrefix s "/" then rest else s
  | EmptyString => s
  end.

Section Delete.

Variable Join : string -> string -> string.

(** [deleteFileHandler], with [location := c.Param("location")] and
    [param := c.Param("filename")]. *)
Definition deleteFileHandler (flt : faults) (fs : FS) (location param : string)
  : FS * file_response :=
  let filename := TrimSlash param in
  if bool_decide (location = "temp") then
    let baseDir := TEMP_DIR in
    let filepath := Join baseDir filename in
    if negb (HasPrefix filepath baseDir) then (fs, FileNotFound "File not found")
    else
      match os_Remove flt fs filepath with
      | (fs', Some err) => (fs', FileServerError (error_text err))
      | (fs', None) => (fs', FileOK)
      end
  else if bool_decide (location = "output") then
    (fs, FileBadRequest "Cannot delete from output directory")
  else (fs, FileBadRequest "Invalid location").

End Delete.

(** ** Listing the MP3 files of a directory *)

Definition to_lower (c : Ascii.ascii) : Ascii.ascii :=
  let n := Ascii.nat_of_ascii c in
  if bool_decide (65 <= n /\ n <= 90)%nat then Ascii.ascii_of_nat (n + 32) else c.

(** [strings.ToLower], on ASCII letters (which is what decides a test for
    the suffix ".mp3"). *)
Fixpoint ToLower (s : string) : string :=
  match s with
  | EmptyString => EmptyString
  | String c rest => String (to_lower c) (ToLower rest)
  end.

(** [strings.HasSuffix(s, suffix)]. *)
Fixpoint HasSuffix (s suffix : string) : bool :=
  String.eqb s suffix ||
  match s with
  | EmptyString => false
  | String _ rest => HasSuffix rest suffix
  end.

(** The test both directory scans apply to an entry name. *)
Definition is_mp3_name (name : string) : bool := HasSuffix (ToLower name) ".mp3".

(** [getMP3Files(dir)].  [entries] is the result of [os.ReadDir(dir)]:
    [None] for an error, otherwise each entry's name and [IsDir()]. *)
Definition getMP3Files (entries : option (list (string * bool))) : gset string :=
  match entries with
  | None => ∅
  | Some l =>
      foldl (fun files entry =>
               if negb entry.2 && is_mp3_name entry.1 then {[entry.1]} ∪ files
               else files)
            ∅ l
  end.

(** ** Looking a URL up before it is downloaded *)

(** What [cmd.CombinedOutput()] returns: the output, with an error or
    without. *)
Inductive output_result : Type :=
  | OutOk (output : string)
  | OutErr (err output : string).

(** A decoded JSON value as far as the code tells them apart: the type
    assertions [.(string)] and [.(float64)] succeed on the first two. *)
Inductive json : Type :=
  | JString (s : string)
  | JNumber (q : Q)
  | JOther.

(** [strings.Split(s, sep)] for a separator of one byte. *)
Fixpoint Split (s : string) (sep : Ascii.ascii) : list string :=
  match s with
  | EmptyString => [EmptyString]
  | String c rest =>
      if Ascii.eqb c sep then EmptyString :: Split rest sep
      else
        match Split rest sep with
        | h :: t => String c h :: t
        | [] => [String c EmptyString]
        end
  end.

Definition newline : Ascii.ascii := Ascii.ascii_of_nat 10.

Record VideoItem : Type := mkVideoItem {
  item_Title : string;
  item_Duration : Z;
  item_Thumbnail : string
}.

Record VideoInfo : Type := mkVideoInfo {
  info_Type : string;
  info_Title : string;
  info_Duration : Z;
  info_Thumbnail : string;
  info_Uploader : string;
  info_Count : nat;
  info_Videos : list VideoItem
}.

(** [getString(m, key)]. *)
Definition getString (m : gmap string json) (key : string) : string :=
  match m !! key with
  | Some (JString val) => val
  | _ => ""
  end.

(** [int(d)] for a [float64] within the range of [int]: the fraction is
    dropped. *)
Definition int_of_float (d : Q) : Z := Z.quot (Qnum d) (Z.pos (Qden d)).

(** [v, ok := m[key].(float64); ok], else the zero the variable holds. *)
Definition getDuration (m : gmap string json) : Z :=
  match m !! "duration" with
  | Some (JNumber d) => int_of_float d
  | _ => 0%Z
  end.

(** What yt-dlp prints, by the options it is called with.  The calls with
    [--dump-json] of the preview loop are told apart by their index. *)
Record ytdlp : Type := mkYtdlp {
  print_json : string -> output_result;       (* --flat-playlist --print-json url *)
  get_id : string -> output_result;           (* --flat-playlist --get-id url *)
  dump_json : nat -> string -> output_result  (* --dump-json --no-playlist url *)
}.

Inductive preview_response : Type :=
  | PreviewOK (info : VideoInfo)
  | PreviewBadRequest (msg : string)
  | PreviewServerError (msg : string).

Section Preview.

(** [json.Unmarshal] into a [map[string]interface{}]: the object, or the
    text of the error. *)
Variable json_Unmarshal : string -> gmap string json + string.
Variable yt : ytdlp.

(** The body of the loop over the lines of the first listing. *)
Definition scan_line (acc : list string * string) (line : string)
  : list string * string :=
  let '(videoIDs, playlistTitle) := acc in
  let line := TrimSpace line in
  if bool_decide (line = "") then acc
  else
    match json_Unmarshal line with
    | inr _ => acc
    | inl entry =>
        let videoIDs :=
          match entry !! "id" with
          | Some (JString id) =>
              if negb (bool_decide (id = "")) then videoIDs ++ [id] else videoIDs
          | _ => videoIDs
          end in
        let playlistTitle :=
          if bool_decide (playlistTitle = "") then
            match entry !! "playlist_title" with
            | Some (JString title) =>
                if negb (bool_decide (title = "")) then title
                else
                  match entry !! "playlist" with
                  | Some (JString title) =>
                      if negb (bool_decide (title = "")) then title
                      else playlistTitle
                  | _ => playlistTitle
                  end
            | _ =>
                match entry !! "playlist" with
                | Some (JString title) =>
                    if negb (bool_decide (title = "")) then title else playlistTitle
                | _ => playlistTitle
                end
            end
          else playlistTitle in
        (videoIDs, playlistTitle)
    end.

(** The body of the loop over the lines of the second listing. *)
Definition scan_id (videoIDs : list string) (id : string) : list string :=
  let id := TrimSpace id in
  if negb (bool_decide (id = "")) then videoIDs ++ [id] else videoIDs.

(** [getPlaylistVideoIDs(url)]: the identifiers and the title, or the text
    of the error. *)
Definition getPlaylistVideoIDs (url : string) : list string * string + string :=
  match print_json yt url with
  | OutErr err output =>
      inr ("failed to get playlist info: " +:+ err +:+ ", output: " +:+ output)
  | OutOk output =>
      let outputStr := TrimSpace output in
      if bool_decide (outputStr = "") then inr "yt-dlp returned empty output"
      else
        let '(videoIDs, playlistTitle) :=
          foldl scan_line ([], "") (Split outputStr newline) in
        let fallback : list string + string :=
          if bool_decide (length videoIDs = 0%nat) then
            match get_id yt url with
            | OutErr err output =>
                inr ("failed to get playlist IDs: " +:+ err +:+ ", output: "
                       +:+ output)
            | OutOk output =>
                let outputStr := TrimSpace output in
                if bool_decide (outputStr = "") then inr "no videos found in playlist"
                else inl (foldl scan_id videoIDs (Split outputStr newline))
            end
          else inl videoIDs in
        match fallback with
        | inr e => inr e
        | inl videoIDs =>
            if bool_decide (length videoIDs = 0%nat)
            then inr "no videos found in playlist"
            else inl (videoIDs, playlistTitle)
        end
  end.

(** The body of [for i := 0; i < maxVideos; i++], with [id := videoIDs[i]]. *)
Definition preview_video (videos : list VideoItem) (i : nat) (id : string)
  : list VideoItem :=
  let videoURL := "https://www.youtube.com/watch?v=" +:+ id in
  match dump_json yt i videoURL with
  | OutErr _ _ => videos
  | OutOk output =>
      match json_Unmarshal output with
      | inr _ => videos
      | inl videoInfo =>
          videos ++ [mkVideoItem (getString videoInfo "title")
                                 (getDuration videoInfo)
                                 (getString videoInfo "thumbnail")]
      end
  end.

(** [getVideoInfo(url)].  The loop runs over the indices below
    [maxVideos], which is at most the number of identifiers. *)
Definition getVideoInfo (url : string) : VideoInfo + string :=
  if isPlaylist url then
    match getPlaylistVideoIDs url with
    | inr err => inr err
    | inl (videoIDs, playlistTitle) =>
        let maxVideos :=
          if bool_decide (length videoIDs < 3)%nat then length videoIDs else 3%nat in
        let videos :=
          foldl (fun videos p => preview_video videos p.1 p.2) []
                (zip (seq 0 maxVideos) videoIDs) in
        let thumbnail :=
          match videos with
          | first :: _ => item_Thumbnail first
          | [] => ""
          end in
        let title :=
          if bool_decide (playlistTitle = "")
          then "Playlist (" +:+ Fmt.sprintf_d (length videoIDs) +:+ " videos)"
          else playlistTitle in
        inl (mkVideoInfo "playlist" title 0 thumbnail "" (length videoIDs) videos)
    end
  else
    match dump_json yt 0 url with
    | OutErr err output =>
        inr ("failed to get video info: " +:+ err +:+ ", output: " +:+ output)
    | OutOk output =>
        let outputStr := TrimSpace output in
        if bool_decide (outputStr = "") then inr "yt-dlp returned empty output"
        else
          match json_Unmarshal outputStr with
          | inr err => inr ("failed to parse video info: " +:+ err)
          | inl info =>
              inl (mkVideoInfo "video" (getString info "title") (getDuration info)
                               (getString info "thumbnail")
                               (getString info "uploader") 0 [])
          end
    end.

(** [previewHandler].  [body]: [None] when [ShouldBindJSON] fails,
    otherwise the URL it binds (empty when the field is missing). *)
Definition previewHandler (body : option string) : preview_response :=
  match body with
  | None => PreviewBadRequest "URL is required"
  | Some url =>
      if bool_decide (url = "") then PreviewBadRequest "URL is required"
      else
        match getVideoInfo url with
        | inr err => PreviewServerError err
        | inl info => PreviewOK info
        end
  end.

End Preview.

(** ** Downloading one video *)

Section DownloadSingle.

Variable Join : string -> string -> string.

(** The order in which [for f := range files] walks the map. *)
Variable range : gset string -> list string.

(** [os.Stat(path)] followed by [info.ModTime()], counted from the zero
    [time.Time]; [None] when [Stat] fails. *)
Variable ModTime : string -> option Z.

(** The body of the loop that looks for the most recent file. *)
Definition newer (tempDir : string) (acc : string * Z) (f : string) : string * Z :=
  let '(newestFile, newestTime) := acc in
  let fullPath := Join tempDir f in
  match ModTime fullPath with
  | Some t => if bool_decide (newestTime < t)%Z then (fullPath, t) else acc
  | None => acc
  end.

(** The test on a line of the output of yt-dlp. *)
Definition is_printed_path (tempDir line : string) : bool :=
  HasSuffix line ".mp3" && HasPrefix line tempDir.

(** [downloadSingleVideo(ctx, videoID, tempDir)]: the path of the file, or
    the text of the error.  [yt_dlp] is what the command prints for the
    URL it is given, [entries] what [os.ReadDir(tempDir)] returns. *)
Definition downloadSingleVideo (ctx_done : bool) (yt_dlp : string -> output_result)
    (entries : option (list (string * bool))) (videoID tempDir : string)
  : string + string :=
  let videoURL := "https://www.youtube.com/watch?v=" +:+ videoID in
  let result :=
    if ctx_done then OutErr "context canceled" "" else yt_dlp videoURL in
  match result with
  | OutErr err output => inr ("download failed: " +:+ err +:+ ", output: " +:+ output)
  | OutOk output =>
      let outputStr := TrimSpace output in
      let lines := Split outputStr newline in
      match List.find (is_printed_path tempDir) (TrimSpace <$> lines) with
      | Some line => inl line
      | None =>
          let files := getMP3Files entries in
          if bool_decide (size files = 0%nat) then inr "no MP3 file created"
          else
            let '(newestFile, _) := foldl (newer tempDir) ("", 0%Z) (range files) in
            if bool_decide (newestFile = "") then inr "could not find downloaded file"
            else inl newestFile
      end
  end.

End DownloadSingle.

(** ** Listing the files of both directories *)

Record FileInfo : Type := mkFileInfo {
  file_Name : string;
  file_Size : Q;
  file_Modified : Z;
  file_HasThumbnail : bool;
  file_Location : string
}.

(** An [os.DirEntry]: its name, [IsDir()], and what [Info()] gives (the
    size in bytes and the modification time in seconds), [None] when
    [Info()] fails. *)
Record DirEntry : Type := mkDirEntry {
  entry_Name : string;
  entry_IsDir : bool;
  entry_Info : option (Z * Z)
}.

Inductive files_response : Type :=
  | FilesOK (temp_files output_files : list FileInfo)
  | FilesServerError (msg : string).

Definition modified_after (a b : FileInfo) : bool :=
  bool_decide (file_Modified b < file_Modified a)%Z.

Section ListFiles.

Variable Join : string -> string -> string.
Variable ReadDir : string -> option (list DirEntry).

(** What [ffprobe] prints about the first video stream of a file. *)
Variable ffprobe : string -> output_result.

(** The size in megabytes with two decimals, as the floating-point
    expression of [getFilesInDir] computes it from the size in bytes. *)
Variable size_mb : Z -> Q.

(** [sort.Slice(files, less)] with the [less] of [getFilesInDir], which
    is [modified_after]. *)
Variable sort_Slice : list FileInfo -> list FileInfo.

(** [checkMP3HasArtwork(filepath)]. *)
Definition checkMP3HasArtwork (filepath : string) : bool :=
  match ffprobe filepath with
  | OutErr _ _ => false
  | OutOk output => negb (bool_decide (TrimSpace output = ""))
  end.

(** The body of the loop over the entries: the element it appends, if it
    does not [continue]. *)
Definition file_of_entry (dir location : string) (entry : DirEntry) : option FileInfo :=
  if entry_IsDir entry then None
  else
    let filename := entry_Name entry in
    if negb (is_mp3_name filename) then None
    else
      let filepath := Join dir filename in
      match entry_Info entry with
      | None => None
      | Some (size, modified) =>
          Some (mkFileInfo filename (size_mb size) modified
                           (checkMP3HasArtwork filepath) location)
      end.

(** [getFilesInDir(dir, location)], with the error it returns. *)
Definition getFilesInDir (dir location : string) : list FileInfo * option goerror :=
  match ReadDir dir with
  | None => ([], None)
  | Some entries => (sort_Slice (omap (file_of_entry dir location) entries), None)
  end.

(** [listFilesHandler]. *)
Definition listFilesHandler : files_response :=
  match getFilesInDir TEMP_DIR "temp" with
  | (_, Some err) => FilesServerError (error_text err)
  | (tempFiles, None) =>
      match getFilesInDir OUTPUT_DIR "output" with
      | (_, Some err) => FilesServerError (error_text err)
      | (outputFiles, None) => FilesOK tempFiles outputFiles
      end
  end.

End ListFiles.

(** * Properties *)

Example sprintf_f_4_a : Fmt.sprintf_f 4 (3 # 2) = "1.5000".
Proof. vm_compute. reflexivity. Qed.
Example sprintf_f_4_b : Fmt.sprintf_f 4 (1 # 3) = "0.3333".
Proof. vm_compute. reflexivity. Qed.
Example sprintf_f_1_a : Fmt.sprintf_f 1 (7 # 4) = "1.8".
Proof. vm_compute. reflexivity. Qed.
Example sprintf_f_1_b : Fmt.sprintf_f 1 (5 # 4) = "1.2".
Proof. vm_compute. reflexivity. Qed.
Example sprintf_f_4_c : Fmt.sprintf_f 4 (20001 # 20000) = "1.0000".
Proof. vm_compute. reflexivity. Qed.
Example rounded_a : Fmt.rounded 4 (3 # 2) = 3 # 2.
Proof. vm_compute. reflexivity. Qed.

Example atempoFilters_3 : atempoFilters 5 3 = Some [Lit2; Fmt4 (3 / 2)].
Proof. vm_compute. reflexivity. Qed.
Example filterChain_3 :
  filterChain <$> atempoFilters 5 3 = Some "atempo=2.0,atempo=1.5000".
Proof. vm_compute. reflexivity. Qed.
Example filterChain_quarter :
  filterChain <$> atempoFilters 5 (1 # 4) = Some "atempo=0.5,atempo=0.5000".
Proof. vm_compute. reflexivity. Qed.
Example filterChain_175 :
  filterChain <$> atempoFilters 0 (7 # 4) = Some "atempo=1.7500".
Proof. vm_compute. reflexivity. Qed.
Example atempoFilters_neg : atempoFilters 50 (-1) = None.
Proof. vm_compute. reflexivity. Qed.

(** ** Comparisons and rounding *)

Lemma Qltb_lt a b : Qltb a b = true <-> a < b.
Proof.
  unfold Qltb. rewrite negb_true_iff, <- not_true_iff_false, Qle_bool_iff.
  split; [apply Qnot_le_lt | apply Qlt_not_le].
Qed.

Lemma Qltb_ge a b : Qltb a b = false <-> b <= a.
Proof.
  unfold Qltb. rewrite negb_false_iff, Qle_bool_iff. reflexivity.
Qed.

Lemma round_half_even_near q :
  inject_Z (Fmt.round_half_even q) - q <= 1 # 2 /\
  q - inject_Z (Fmt.round_half_even q) <= 1 # 2.
Proof.
  destruct q as [n d]. unfold Fmt.round_half_even. cbn [Qnum Qden].
  pose proof (Z.div_mod n (Z.pos d) ltac:(lia)) as Hdm.
  pose proof (Z.mod_pos_bound n (Z.pos d) ltac:(lia)) as Hb.
  set (fl := (n / Z.pos d)%Z) in *. set (r := (n mod Z.pos d)%Z) in *.
  assert (Hcases :
    forall z, (z = fl /\ 2 * r <= Z.pos d)%Z \/ (z = fl + 1 /\ Z.pos d <= 2 * r)%Z ->
      inject_Z z - (n # d) <= 1 # 2 /\ (n # d) - inject_Z z <= 1 # 2).
  { intros z Hz. unfold Qle, Qminus, Qplus, Qopp, inject_Z. cbn.
    destruct Hz as [[-> H]|[-> H]]; split; nia. }
  destruct (Z.compare_spec (2 * r) (Z.pos d)) as [He|Hl|Hg].
  - destruct (Z.even fl); apply Hcases; [left | right]; lia.
  - apply Hcases. left. lia.
  - apply Hcases. right. lia.
Qed.

Lemma rounded_scaled prec q :
  Fmt.rounded prec q * inject_Z (10 ^ Z.of_nat prec) == inject_Z (Fmt.scaled prec q).
Proof.
  unfold Fmt.rounded. rewrite Qred_correct.
  assert (Hp : (0 < 10 ^ Z.of_nat prec)%Z) by (apply Z.pow_pos_nonneg; lia).
  unfold Qeq, Qmult, inject_Z. cbn [Qnum Qden].
  rewrite Pos.mul_1_r, Z2Pos.id by exact Hp. lia.
Qed.

Lemma scaled_ge prec q k :
  inject_Z k <= q * inject_Z (10 ^ Z.of_nat prec) -> (k <= Fmt.scaled prec q)%Z.
Proof.
  intros Hk. unfold Fmt.scaled.
  destruct (round_half_even_near (q * inject_Z (10 ^ Z.of_nat prec))) as [_ Hlo].
  set (z := Fmt.round_half_even _) in *.
  assert (H : inject_Z k - (1 # 2) <= inject_Z z) by lra.
  unfold Qle, Qminus, Qplus, Qopp, inject_Z in H. cbn in H. lia.
Qed.

Lemma scaled_le prec q k :
  q * inject_Z (10 ^ Z.of_nat prec) <= inject_Z k -> (Fmt.scaled prec q <= k)%Z.
Proof.
  intros Hk. unfold Fmt.scaled.
  destruct (round_half_even_near (q * inject_Z (10 ^ Z.of_nat prec))) as [Hhi _].
  set (z := Fmt.round_half_even _) in *.
  assert (H : inject_Z z <= inject_Z k + (1 # 2)) by lra.
  unfold Qle, Qminus, Qplus, Qopp, inject_Z in H. cbn in H. lia.
Qed.

(** A ["%.4f"] rendering is within half a unit of the fourth decimal. *)
Lemma rounded4_near r :
  Fmt.rounded 4 r - r <= 1 # 20000 /\ r - Fmt.rounded 4 r <= 1 # 20000.
Proof.
  pose proof (rounded_scaled 4 r) as He.
  destruct (round_half_even_near (r * inject_Z (10 ^ Z.of_nat 4))) as [Hhi Hlo].
  fold (Fmt.scaled 4 r) in Hhi, Hlo.
  change (inject_Z (10 ^ Z.of_nat 4)) with 10000 in *.
  split; lra.
Qed.

(** Rounding to four decimals does not leave an interval whose ends have
    at most four decimals. *)
Lemma rounded4_ge r k :
  inject_Z k <= r * 10000 -> inject_Z k <= Fmt.rounded 4 r * 10000.
Proof.
  intros H. pose proof (rounded_scaled 4 r) as He.
  assert (Hk : (k <= Fmt.scaled 4 r)%Z).
  { apply scaled_ge. change (inject_Z (10 ^ Z.of_nat 4)) with 10000. lra. }
  rewrite Zle_Qle in Hk.
  change (inject_Z (10 ^ Z.of_nat 4)) with 10000 in He. lra.
Qed.

Lemma rounded4_le r k :
  r * 10000 <= inject_Z k -> Fmt.rounded 4 r * 10000 <= inject_Z k.
Proof.
  intros H. pose proof (rounded_scaled 4 r) as He.
  assert (Hk : (Fmt.scaled 4 r <= k)%Z).
  { apply scaled_le. change (inject_Z (10 ^ Z.of_nat 4)) with 10000. lra. }
  rewrite Zle_Qle in Hk.
  change (inject_Z (10 ^ Z.of_nat 4)) with 10000 in He. lra.
Qed.

(** In particular it keeps a stage inside the range of the filter. *)
Lemma rounded4_in_range r :
  1 # 2 <= r <= 2 -> 1 # 2 <= Fmt.rounded 4 r <= 2.
Proof.
  intros [H1 H2].
  pose proof (rounded4_ge r 5000) as Hlo. pose proof (rounded4_le r 20000) as Hhi.
  change (inject_Z 5000) with 5000 in Hlo. change (inject_Z 20000) with 20000 in Hhi.
  assert (5000 <= r * 10000) by lra. assert (r * 10000 <= 20000) by lra.
  split; [specialize (Hlo ltac:(assumption)) | specialize (Hhi ltac:(assumption))]; lra.
Qed.

(** ** The two loops *)

Fixpoint two_pow (k : nat) : Q :=
  match k with
  | O => 1
  | S k' => 2 * two_pow k'
  end.

Lemma two_pow_pos k : 0 < two_pow k.
Proof. induction k; cbn [two_pow]; lra. Qed.

Lemma two_pow_gt k : inject_Z (Z.of_nat k) + 1 <= two_pow k.
Proof.
  induction k as [|k IH].
  - vm_compute. discriminate.
  - rewrite Nat2Z.inj_succ. unfold Z.succ. rewrite inject_Z_plus.
    change (inject_Z 1) with 1. cbn [two_pow].
    assert (0 <= inject_Z (Z.of_nat k)).
    { change 0 with (inject_Z 0). rewrite <- Zle_Qle. lia. }
    lra.
Qed.

Lemma product_by_app v a b :
  product_by v (a ++ b) == product_by v a * product_by v b.
Proof.
  induction a as [|s a IH]; cbn [app product_by foldr].
  - fold (product_by v b). lra.
  - fold (product_by v (a ++ b)) (product_by v a). rewrite IH. ring.
Qed.

Lemma product_by_replicate_2 v k :
  v Lit2 = 2 -> product_by v (replicate k Lit2) == two_pow k.
Proof.
  intros Hv. induction k as [|k IH]; cbn [replicate product_by foldr two_pow];
    [reflexivity|].
  fold (product_by v (replicate k Lit2)). rewrite IH, Hv. reflexivity.
Qed.

Lemma product_by_replicate_half v k :
  v LitHalf = 1 # 2 -> product_by v (replicate k LitHalf) * two_pow k == 1.
Proof.
  intros Hv. induction k as [|k IH]; cbn [replicate product_by foldr two_pow];
    [reflexivity|].
  fold (product_by v (replicate k LitHalf)). rewrite Hv.
  set (p := product_by v _) in *. set (t := two_pow k) in *.
  assert (E : (1 # 2) * p * (2 * t) == p * t) by ring.
  rewrite E. exact IH.
Qed.

Lemma product_by_single v s : product_by v [s] == v s.
Proof. cbn. ring. Qed.

Lemma loopUp_inv fuel : forall remaining filters r fs,
  loopUp fuel remaining filters = Some (r, fs) ->
  exists k, fs = filters ++ replicate k Lit2 /\
            r * two_pow k == remaining /\ r <= 2 /\
            (1 < remaining -> 1 < r).
Proof.
  induction fuel as [|fuel IH]; intros remaining filters r fs; cbn [loopUp];
    destruct (Qltb 2 remaining) eqn:Hc; try discriminate.
  - apply Qltb_ge in Hc. intros [= <- <-]. exists O. cbn [replicate two_pow].
    rewrite app_nil_r. repeat split; [ring | lra | lra].
  - apply Qltb_lt in Hc. intros H. apply IH in H as (k & -> & Hr & Hle & Hgt).
    exists (S k). cbn [replicate two_pow].
    split; [rewrite <- app_assoc; reflexivity|].
    assert (Hh : remaining / 2 == remaining * (1 # 2)) by field.
    split; [|split; [assumption|]].
    + assert (E : r * (2 * two_pow k) == 2 * (r * two_pow k)) by ring.
      rewrite E, Hr, Hh. ring.
    + intros _. apply Hgt. lra.
  - apply Qltb_ge in Hc. intros [= <- <-]. exists O. cbn [replicate two_pow].
    rewrite app_nil_r. repeat split; [ring | lra | lra].
Qed.

Lemma loopDown_inv fuel : forall remaining filters r fs,
  loopDown fuel remaining filters = Some (r, fs) ->
  exists k, fs = filters ++ replicate k LitHalf /\
            r == remaining * two_pow k /\ 1 # 2 <= r /\
            (remaining < 1 -> r < 1).
Proof.
  induction fuel as [|fuel IH]; intros remaining filters r fs; cbn [loopDown];
    destruct (Qltb remaining (1 # 2)) eqn:Hc; try discriminate.
  - apply Qltb_ge in Hc. intros [= <- <-]. exists O. cbn [replicate two_pow].
    rewrite app_nil_r. repeat split; [ring | lra | lra].
  - apply Qltb_lt in Hc. intros H. apply IH in H as (k & -> & Hr & Hle & Hlt).
    exists (S k). cbn [replicate two_pow].
    split; [rewrite <- app_assoc; reflexivity|].
    assert (Hh : remaining / (1 # 2) == remaining * 2) by field.
    split; [|split; [assumption|]].
    + rewrite Hr, Hh. ring.
    + intros _. apply Hlt. lra.
  - apply Qltb_ge in Hc. intros [= <- <-]. exists O. cbn [replicate two_pow].
    rewrite app_nil_r. repeat split; [ring | lra | lra].
Qed.

(** ** Termination of the loops on positive multipliers *)

Lemma loopUp_mono fuel : forall fuel' remaining filters x,
  loopUp fuel remaining filters = Some x -> (fuel <= fuel')%nat ->
  loopUp fuel' remaining filters = Some x.
Proof.
  induction fuel as [|fuel IH]; intros fuel' remaining filters x;
    cbn [loopUp]; destruct (Qltb 2 remaining) eqn:Hc; try discriminate.
  - intros H _. destruct fuel'; cbn [loopUp]; rewrite Hc; exact H.
  - intros H Hle. destruct fuel' as [|fuel']; [lia|].
    cbn [loopUp]. rewrite Hc. apply IH; [exact H | lia].
  - intros H _. destruct fuel'; cbn [loopUp]; rewrite Hc; exact H.
Qed.

Lemma loopDown_mono fuel : forall fuel' remaining filters x,
  loopDown fuel remaining filters = Some x -> (fuel <= fuel')%nat ->
  loopDown fuel' remaining filters = Some x.
Proof.
  induction fuel as [|fuel IH]; intros fuel' remaining filters x;
    cbn [loopDown]; destruct (Qltb remaining (1 # 2)) eqn:Hc; try discriminate.
  - intros H _. destruct fuel'; cbn [loopDown]; rewrite Hc; exact H.
  - intros H Hle. destruct fuel' as [|fuel']; [lia|].
    cbn [loopDown]. rewrite Hc. apply IH; [exact H | lia].
  - intros H _. destruct fuel'; cbn [loopDown]; rewrite Hc; exact H.
Qed.

Lemma loopUp_fuel k : forall remaining filters,
  remaining <= 2 * two_pow k -> is_Some (loopUp k remaining filters).
Proof.
  induction k as [|k IH]; intros remaining filters Hle; cbn [loopUp two_pow] in *;
    destruct (Qltb 2 remaining) eqn:Hc; eauto.
  - apply Qltb_lt in Hc. lra.
  - apply IH. assert (remaining / 2 == remaining * (1 # 2)) by field. lra.
Qed.

Lemma loopDown_fuel k : forall remaining filters,
  1 # 2 <= remaining * two_pow k -> is_Some (loopDown k remaining filters).
Proof.
  induction k as [|k IH]; intros remaining filters Hle; cbn [loopDown two_pow] in *;
    destruct (Qltb remaining (1 # 2)) eqn:Hc; eauto.
  - apply Qltb_lt in Hc. lra.
  - apply IH. assert (E : remaining / (1 # 2) == remaining * 2) by field.
    rewrite E. lra.
Qed.

Lemma Q_le_num q : 0 < q -> q <= inject_Z (Qnum q).
Proof.
  destruct q as [n d]. unfold Qlt, Qle, inject_Z. cbn. intros. nia.
Qed.

Lemma Q_mul_den q : q * inject_Z (Z.pos (Qden q)) == inject_Z (Qnum q).
Proof.
  destruct q as [n d]. unfold Qeq, Qmult, inject_Z. cbn. lia.
Qed.

Lemma Q_num_pos q : 0 < q -> 1 <= inject_Z (Qnum q).
Proof.
  destruct q as [n d]. unfold Qlt, Qle, inject_Z. cbn. lia.
Qed.

Lemma loopUp_enough speed fuel filters :
  0 < speed -> (enough_fuel speed <= fuel)%nat ->
  is_Some (loopUp fuel speed filters).
Proof.
  intros Hpos Hfuel.
  destruct (loopUp_fuel (Z.to_nat (Qnum speed)) speed filters) as [x Hx].
  - pose proof (Q_le_num speed Hpos) as Hn.
    pose proof (two_pow_gt (Z.to_nat (Qnum speed))) as Hp.
    pose proof (Q_num_pos speed Hpos) as H1.
    rewrite Z2Nat.id in Hp.
    + lra.
    + change 1 with (inject_Z 1) in H1. rewrite <- Zle_Qle in H1. lia.
  - exists x. eapply loopUp_mono; [exact Hx|]. unfold enough_fuel in Hfuel. lia.
Qed.

Lemma loopDown_enough speed fuel filters :
  0 < speed -> (enough_fuel speed <= fuel)%nat ->
  is_Some (loopDown fuel speed filters).
Proof.
  intros Hpos Hfuel.
  destruct (loopDown_fuel (Pos.to_nat (Qden speed)) speed filters) as [x Hx].
  - pose proof (two_pow_gt (Pos.to_nat (Qden speed))) as Hp.
    pose proof (Q_num_pos speed Hpos) as H1.
    pose proof (Q_mul_den speed) as Hd.
    rewrite positive_nat_Z in Hp.
    set (d := inject_Z (Z.pos (Qden speed))) in *.
    set (t := two_pow _) in *.
    assert (Hm : speed * d <= speed * t).
    { apply Qmult_le_l; [exact Hpos | lra]. }
    lra.
  - exists x. eapply loopDown_mono; [exact Hx|]. unfold enough_fuel in Hfuel. lia.
Qed.

(** On a multiplier that is zero or negative the second loop never ends:
    doubling keeps it below 0.5. *)
Lemma loopDown_diverges fuel : forall remaining filters,
  remaining <= 0 -> loopDown fuel remaining filters = None.
Proof.
  induction fuel as [|fuel IH]; intros remaining filters Hle; cbn [loopDown];
    destruct (Qltb remaining (1 # 2)) eqn:Hc; try reflexivity;
    try (apply Qltb_ge in Hc; lra).
  apply IH. assert (E : remaining / (1 # 2) == remaining * 2) by field.
  rewrite E. lra.
Qed.

(** ** Shape of the chain on positive multipliers *)

Lemma atempoFilters_mono fuel fuel' speed filters :
  atempoFilters fuel speed = Some filters -> (fuel <= fuel')%nat ->
  atempoFilters fuel' speed = Some filters.
Proof.
  unfold atempoFilters. intros H Hle.
  destruct (Qle_bool (1 # 2) speed && Qle_bool speed 2); [exact H|].
  destruct (Qltb 2 speed).
  - destruct (loopUp fuel speed []) as [[r fs]|] eqn:E; [|discriminate].
    rewrite (loopUp_mono _ _ _ _ _ E Hle). exact H.
  - destruct (loopDown fuel speed []) as [[r fs]|] eqn:E; [|discriminate].
    rewrite (loopDown_mono _ _ _ _ _ E Hle). exact H.
Qed.

Inductive chain_shape (m : Q) : list stage -> Prop :=
  | shape_single :
      1 # 2 <= m -> m <= 2 -> chain_shape m [Fmt4 m]
  | shape_up k r :
      2 < m -> r * two_pow k == m -> 1 < r -> r <= 2 ->
      chain_shape m (replicate k Lit2 ++ [Fmt4 r])
  | shape_down k r :
      m < 1 # 2 -> r == m * two_pow k -> 1 # 2 <= r -> r < 1 ->
      chain_shape m (replicate k LitHalf ++ [Fmt4 r]).

Lemma atempoFilters_shape fuel m filters :
  atempoFilters fuel m = Some filters -> chain_shape m filters.
Proof.
  unfold atempoFilters.
  destruct (Qle_bool (1 # 2) m && Qle_bool m 2) eqn:Hin.
  - apply andb_true_iff in Hin as [H1 H2]. apply Qle_bool_iff in H1, H2.
    intros [= <-]. constructor; assumption.
  - assert (Hout : ~ (1 # 2 <= m /\ m <= 2)).
    { intros [H1 H2]. apply Qle_bool_iff in H1, H2. rewrite H1, H2 in Hin. discriminate. }
    destruct (Qltb 2 m) eqn:Hhi.
    + apply Qltb_lt in Hhi.
      destruct (loopUp fuel m []) as [[r fs]|] eqn:E; [|discriminate].
      apply loopUp_inv in E as (k & -> & Hr & Hle & Hgt). cbn [app].
      assert (H1 : 1 < r) by (apply Hgt; lra).
      apply Qltb_lt in H1 as Hb. rewrite Hb. intros [= <-].
      eapply shape_up; eassumption.
    + apply Qltb_ge in Hhi.
      assert (Hlo : m < 1 # 2).
      { destruct (Qlt_le_dec m (1 # 2)); [assumption | exfalso; auto]. }
      destruct (loopDown fuel m []) as [[r fs]|] eqn:E; [|discriminate].
      apply loopDown_inv in E as (k & -> & Hr & Hle & Hlt). cbn [app].
      assert (H1 : r < 1) by (apply Hlt; lra).
      apply Qltb_lt in H1 as Hb. rewrite Hb. intros [= <-].
      eapply shape_down; eassumption.
Qed.

Lemma atempoFilters_total m fuel :
  0 < m -> (enough_fuel m <= fuel)%nat -> is_Some (atempoFilters fuel m).
Proof.
  intros Hpos Hfuel. unfold atempoFilters.
  destruct (Qle_bool (1 # 2) m && Qle_bool m 2); [eauto|].
  destruct (Qltb 2 m).
  - destruct (loopUp_enough m fuel [] Hpos Hfuel) as [[r fs] ->]. eauto.
  - destruct (loopDown_enough m fuel [] Hpos Hfuel) as [[r fs] ->]. eauto.
Qed.

(** For a multiplier that is zero or negative the chain is never
    completed, whatever the number of iterations allowed. *)
Lemma atempoFilters_diverges m fuel : m <= 0 -> atempoFilters fuel m = None.
Proof.
  intros Hle. unfold atempoFilters.
  destruct (Qle_bool (1 # 2) m) eqn:H1.
  { apply Qle_bool_iff in H1. lra. }
  cbn [andb]. destruct (Qltb 2 m) eqn:H2.
  { apply Qltb_lt in H2. lra. }
  rewrite loopDown_diverges by exact Hle. reflexivity.
Qed.

Lemma scale_error h x e :
  0 <= h -> - e <= x <= e -> - (h * e) <= h * x <= h * e.
Proof. intros Hh [H1 H2]. split; nra. Qed.

Lemma chain_shape_in_range m filters :
  chain_shape m filters -> Forall (fun s => 1 # 2 <= stage_value s <= 2) filters.
Proof.
  assert (Hrep : forall k s, 1 # 2 <= stage_value s <= 2 ->
            Forall (fun s => 1 # 2 <= stage_value s <= 2) (replicate k s)).
  { intros k s Hs. induction k; cbn; constructor; assumption. }
  intros [H1 H2 | k r _ _ H1 H2 | k r _ _ H1 H2].
  - repeat constructor; apply rounded4_in_range; split; assumption.
  - apply Forall_app. split.
    + apply Hrep. cbn. lra.
    + repeat constructor; apply rounded4_in_range; split; lra.
  - apply Forall_app. split.
    + apply Hrep. cbn. lra.
    + repeat constructor; apply rounded4_in_range; split; lra.
Qed.

Lemma chain_shape_error m filters :
  chain_shape m filters -> m <= 10 ->
  - (1 # 1000) <= chain_product filters - m <= 1 # 1000.
Proof.
  unfold chain_product.
  intros [H1 H2 | k r Hm Hr H1 H2 | k r Hm Hr H1 H2] Hten.
  - rewrite product_by_single. cbn [stage_value].
    destruct (rounded4_near m). split; lra.
  - rewrite product_by_app, product_by_single, product_by_replicate_2 by reflexivity.
    cbn [stage_value].
    destruct (rounded4_near r) as [Ha Hb]. pose proof (two_pow_pos k) as Hp.
    set (t := two_pow k) in *. set (R := Fmt.rounded 4 r) in *.
    assert (Ht : t <= 10) by nra.
    destruct (scale_error t (R - r) (1 # 20000)) as [Hlo Hhi]; [lra | split; lra |].
    split; nra.
  - rewrite product_by_app, product_by_single. cbn [stage_value].
    destruct (rounded4_near r) as [Ha Hb]. pose proof (two_pow_pos k) as Hp.
    pose proof (product_by_replicate_half stage_value k eq_refl) as Hh.
    pose proof (two_pow_gt k) as Hg.
    assert (H0 : 0 <= inject_Z (Z.of_nat k)).
    { change 0 with (inject_Z 0). rewrite <- Zle_Qle. lia. }
    set (t := two_pow k) in *. set (R := Fmt.rounded 4 r) in *.
    set (h := product_by stage_value _) in *.
    assert (Hh0 : 0 <= h) by nra.
    assert (Hh1 : h <= 1) by nra.
    assert (Hmh : m == r * h).
    { rewrite Hr. transitivity (m * (h * t)); [rewrite Hh; ring | ring]. }
    destruct (scale_error h (R - r) (1 # 20000)) as [Hlo Hhi]; [lra | split; lra |].
    rewrite Hmh. split; nra.
Qed.

(** Before printing, the stages multiply to the target exactly and lie
    inside the range of the filter. *)
Lemma chain_shape_exact m filters :
  chain_shape m filters ->
  (arg_product filters == m) /\
  Forall (fun s => 1 # 2 <= stage_arg s <= 2) filters.
Proof.
  assert (Hrep : forall k s, 1 # 2 <= stage_arg s <= 2 ->
            Forall (fun s => 1 # 2 <= stage_arg s <= 2) (replicate k s)).
  { intros k s Hs. induction k; cbn; constructor; assumption. }
  unfold arg_product.
  intros [H1 H2 | k r Hm Hr H1 H2 | k r Hm Hr H1 H2].
  - rewrite product_by_single. cbn [stage_arg]. split; [reflexivity|].
    repeat constructor; assumption.
  - rewrite product_by_app, product_by_single, product_by_replicate_2 by reflexivity.
    cbn [stage_arg]. split; [rewrite <- Hr; ring|].
    apply Forall_app. split; [apply Hrep; cbn; lra|].
    repeat constructor; cbn; lra.
  - rewrite product_by_app, product_by_single. cbn [stage_arg].
    pose proof (product_by_replicate_half stage_arg k eq_refl) as Hh.
    set (h := product_by stage_arg _) in *. split.
    + rewrite Hr. transitivity (m * (h * two_pow k)); [ring | rewrite Hh; ring].
    + apply Forall_app. split; [apply Hrep; cbn; lra|].
      repeat constructor; cbn; lra.
Qed.

(** C1. For every target multiplier m in (0, 10] the loops end (any fuel
    from [enough_fuel m] on yields the same chain).  Every stage lies in
    [0.5, 2.0], both as the float the chain is built from and as printed
    with four decimals; the floats multiply to m exactly and the printed
    stages to m within 1e-3.  For m = 3.0 the stages are [2.0, 1.5] and
    for m = 0.25 they are [0.5, 0.5]. *)
Theorem tempo_chain_range_and_product (m : Q) :
  0 < m -> m <= 10 ->
  exists filters,
    (forall fuel, (enough_fuel m <= fuel)%nat ->
       atempoFilters fuel m = Some filters) /\
    Forall (fun s => 1 # 2 <= stage_arg s <= 2) filters /\
    Forall (fun s => 1 # 2 <= stage_value s <= 2) filters /\
    (arg_product filters == m) /\
    - (1 # 1000) <= chain_product filters - m <= 1 # 1000 /\
    (m = 3 -> stage_value <$> filters = [2; 3 # 2]) /\
    (m = 1 # 4 -> stage_value <$> filters = [1 # 2; 1 # 2]).
Proof.
  intros Hpos Hten.
  destruct (atempoFilters_total m (enough_fuel m) Hpos (Nat.le_refl _)) as [fs Hfs].
  exists fs. pose proof (atempoFilters_shape _ _ _ Hfs) as Hshape.
  destruct (chain_shape_exact _ _ Hshape) as [Hexact Hargs].
  split; [|split; [|split; [|split; [|split; [|split]]]]].
  - intros fuel Hfuel. eapply atempoFilters_mono; eassumption.
  - exact Hargs.
  - eapply chain_shape_in_range; eassumption.
  - exact Hexact.
  - apply chain_shape_error; assumption.
  - intros ->. vm_compute in Hfs. injection Hfs as <-. vm_compute. reflexivity.
  - intros ->. vm_compute in Hfs. injection Hfs as <-. vm_compute. reflexivity.
Qed.

Lemma tempo_chain_range_and_product_witness :
  exists filters,
    (forall fuel, (enough_fuel 3 <= fuel)%nat ->
       atempoFilters fuel 3 = Some filters) /\
    Forall (fun s => 1 # 2 <= stage_arg s <= 2) filters /\
    Forall (fun s => 1 # 2 <= stage_value s <= 2) filters /\
    (arg_product filters == 3) /\
    - (1 # 1000) <= chain_product filters - 3 <= 1 # 1000 /\
    (3 = 3 -> stage_value <$> filters = [2; 3 # 2]) /\
    (3 = 1 # 4 -> stage_value <$> filters = [1 # 2; 1 # 2]).
Proof.
  apply (tempo_chain_range_and_product 3).
  - reflexivity.
  - unfold Qle. cbn. lia.
Defined.

(** ** The chain against the construction worded in the specification *)

Lemma loopUp_spec fuel : forall remaining filters r fs,
  loopUp fuel remaining filters = Some (r, fs) ->
  exists tail,
    (if Qltb 1 r then fs ++ [Fmt4 r] else fs) = filters ++ tail /\
    spec_up remaining (stage_arg <$> tail).
Proof.
  assert (Hstop : forall remaining filters, Qltb 2 remaining = false ->
    exists tail,
      (if Qltb 1 remaining then filters ++ [Fmt4 remaining] else filters)
        = filters ++ tail /\
      spec_up remaining (stage_arg <$> tail)).
  { intros remaining filters Hc. apply Qltb_ge in Hc.
    destruct (Qltb 1 remaining) eqn:H1.
    - exists [Fmt4 remaining]. split; [reflexivity|].
      apply Qltb_lt in H1. apply spec_up_trail; assumption.
    - exists []. split; [symmetry; apply app_nil_r|].
      apply Qltb_ge in H1. apply spec_up_none; [assumption | lra]. }
  induction fuel as [|fuel IH]; intros remaining filters r fs; cbn [loopUp];
    destruct (Qltb 2 remaining) eqn:Hc; try discriminate.
  - intros [= <- <-]. apply Hstop, Hc.
  - intros H. apply IH in H as (tail & -> & Hspec).
    exists (Lit2 :: tail). split; [rewrite <- app_assoc; reflexivity|].
    apply Qltb_lt in Hc. cbn. apply spec_up_emit; assumption.
  - intros [= <- <-]. apply Hstop, Hc.
Qed.

Lemma loopDown_spec fuel : forall remaining filters r fs,
  loopDown fuel remaining filters = Some (r, fs) ->
  exists tail,
    (if Qltb r 1 then fs ++ [Fmt4 r] else fs) = filters ++ tail /\
    spec_down remaining (stage_arg <$> tail).
Proof.
  assert (Hstop : forall remaining filters, Qltb remaining (1 # 2) = false ->
    exists tail,
      (if Qltb remaining 1 then filters ++ [Fmt4 remaining] else filters)
        = filters ++ tail /\
      spec_down remaining (stage_arg <$> tail)).
  { intros remaining filters Hc. apply Qltb_ge in Hc.
    destruct (Qltb remaining 1) eqn:H1.
    - exists [Fmt4 remaining]. split; [reflexivity|].
      apply Qltb_lt in H1. apply spec_down_trail; assumption.
    - exists []. split; [symmetry; apply app_nil_r|].
      apply Qltb_ge in H1. apply spec_down_none; [assumption | lra]. }
  induction fuel as [|fuel IH]; intros remaining filters r fs; cbn [loopDown];
    destruct (Qltb remaining (1 # 2)) eqn:Hc; try discriminate.
  - intros [= <- <-]. apply Hstop, Hc.
  - intros H. apply IH in H as (tail & -> & Hspec).
    exists (LitHalf :: tail). split; [rewrite <- app_assoc; reflexivity|].
    apply Qltb_lt in Hc. cbn. apply spec_down_emit; assumption.
  - intros [= <- <-]. apply Hstop, Hc.
Qed.

Lemma atempoFilters_spec fuel m filters :
  atempoFilters fuel m = Some filters -> spec_plan m (stage_arg <$> filters).
Proof.
  unfold atempoFilters.
  destruct (Qle_bool (1 # 2) m && Qle_bool m 2) eqn:Hin.
  - apply andb_true_iff in Hin as [H1 H2]. apply Qle_bool_iff in H1, H2.
    intros [= <-]. apply spec_plan_single; assumption.
  - assert (Hout : ~ (1 # 2 <= m /\ m <= 2)).
    { intros [H1 H2]. apply Qle_bool_iff in H1, H2. rewrite H1, H2 in Hin. discriminate. }
    destruct (Qltb 2 m) eqn:Hhi.
    + apply Qltb_lt in Hhi.
      destruct (loopUp fuel m []) as [[r fs]|] eqn:E; [|discriminate].
      apply loopUp_spec in E as (tail & -> & Hspec). intros [= <-].
      apply spec_plan_up; assumption.
    + apply Qltb_ge in Hhi.
      assert (Hlo : m < 1 # 2).
      { destruct (Qlt_le_dec m (1 # 2)); [assumption | exfalso; auto]. }
      destruct (loopDown fuel m []) as [[r fs]|] eqn:E; [|discriminate].
      apply loopDown_spec in E as (tail & -> & Hspec). intros [= <-].
      apply spec_plan_down; assumption.
Qed.

(** The worded construction determines the stage list. *)
Lemma spec_up_functional r l1 : spec_up r l1 -> forall l2, spec_up r l2 -> l1 = l2.
Proof.
  induction 1 as [r l Hr _ IH | r H2 H1 | r H2 H1]; intros l2 Hl2;
    inversion Hl2; subst; try reflexivity; try lra; try contradiction.
  f_equal. apply IH. assumption.
Qed.

Lemma spec_down_functional r l1 : spec_down r l1 -> forall l2, spec_down r l2 -> l1 = l2.
Proof.
  induction 1 as [r l Hr _ IH | r H2 H1 | r H2 H1]; intros l2 Hl2;
    inversion Hl2; subst; try reflexivity; try lra; try contradiction.
  f_equal. apply IH. assumption.
Qed.

Lemma spec_plan_functional m l1 l2 : spec_plan m l1 -> spec_plan m l2 -> l1 = l2.
Proof.
  intros H1 H2. inversion H1; inversion H2; subst; try reflexivity; try lra.
  - eapply spec_up_functional; eassumption.
  - eapply spec_down_functional; eassumption.
Qed.

(** C2. For every positive multiplier the loops end and the arguments of
    the emitted stages are exactly the list the specification constructs:
    [m] alone inside [0.5, 2.0]; above 2.0 a run of 2.0 stages, halving the
    remainder until it is at most 2.0, then the remainder if and only if it
    exceeds 1.0; below 0.5 a run of 0.5 stages, doubling the remainder
    until it is at least 0.5, then the remainder if and only if it is
    below 1.0. *)
Theorem tempo_chain_follows_spec (m : Q) :
  0 < m ->
  exists filters,
    (forall fuel, (enough_fuel m <= fuel)%nat ->
       atempoFilters fuel m = Some filters) /\
    spec_plan m (stage_arg <$> filters) /\
    (forall l, spec_plan m l -> l = stage_arg <$> filters).
Proof.
  intros Hpos.
  destruct (atempoFilters_total m (enough_fuel m) Hpos (Nat.le_refl _)) as [fs Hfs].
  exists fs. pose proof (atempoFilters_spec _ _ _ Hfs) as Hspec.
  split; [|split].
  - intros fuel Hfuel. eapply atempoFilters_mono; eassumption.
  - exact Hspec.
  - intros l Hl. eapply spec_plan_functional; eassumption.
Qed.

Lemma tempo_chain_follows_spec_witness :
  exists filters,
    (forall fuel, (enough_fuel (25 # 4) <= fuel)%nat ->
       atempoFilters fuel (25 # 4) = Some filters) /\
    spec_plan (25 # 4) (stage_arg <$> filters) /\
    (forall l, spec_plan (25 # 4) l -> l = stage_arg <$> filters).
Proof. apply (tempo_chain_follows_spec (25 # 4)). reflexivity. Defined.

(** ** Submission *)

(** C10. A submission whose speed is missing or zero is accepted and is
    handled exactly as one with speed 1.0: the same registry, the same
    task arguments, the same response; with a URL present the job is
    stored with speed 1. *)
Theorem download_zero_speed_is_one
    (downloads : gmap string DownloadStatus) (url : option string)
    (speed : option Q) (uuid : string) (now : Z) :
  speed = None \/ (exists q, speed = Some q /\ q == 0) ->
  downloadHandler downloads (Json url speed) uuid now
    = downloadHandler downloads (Json url (Some 1)) uuid now /\
  (forall u, url = Some u -> u <> "" ->
     downloadHandler downloads (Json url speed) uuid now
       = (<[uuid := new_job uuid u 1 now]> downloads, Some (u, 1, uuid), OK uuid)).
Proof.
  intros Hs.
  assert (Hz : Qeq_bool (default 0 speed) 0 = true).
  { destruct Hs as [-> | (q & -> & Hq)]; [reflexivity|].
    cbn. apply Qeq_bool_iff. exact Hq. }
  unfold downloadHandler, bind_download. split.
  - rewrite Hz. reflexivity.
  - intros u -> Hu. cbn [default]. rewrite bool_decide_eq_false_2 by exact Hu.
    rewrite Hz. reflexivity.
Qed.

Lemma download_zero_speed_is_one_witness :
  downloadHandler ∅ (Json (Some "https://youtu.be/x") None) "id-1" 7
    = downloadHandler ∅ (Json (Some "https://youtu.be/x") (Some 1)) "id-1" 7 /\
  (forall u, Some "https://youtu.be/x" = Some u -> u <> "" ->
     downloadHandler ∅ (Json (Some "https://youtu.be/x") None) "id-1" 7
       = (<["id-1" := new_job "id-1" u 1 7]> ∅, Some (u, 1, "id-1"), OK "id-1")).
Proof.
  apply (download_zero_speed_is_one ∅ (Some "https://youtu.be/x") None "id-1" 7).
  left. reflexivity.
Defined.

Example download_zero_speed :
  (downloadHandler ∅ (Json (Some "https://youtu.be/x") (Some 0)) "id-1" 7).1.2
    = Some ("https://youtu.be/x", 1, "id-1").
Proof. reflexivity. Qed.

Example download_no_url :
  (downloadHandler ∅ (Json None (Some 2)) "id-1" 7).2 = BadRequest "No URL provided".
Proof. reflexivity. Qed.

(** ** Critical sections of the executor *)

Lemma speed_cases (speed : Q) : Qeq_bool speed 1 = true \/ Qeq_bool speed 1 = false.
Proof. destruct (Qeq_bool speed 1); auto. Qed.

Section TaskAll.

Variable Join : string -> string -> string.
Variable P : (DownloadStatus -> DownloadStatus) -> Prop.
Variable A : Prop.
Variable speed : Q.

Hypothesis P_status : forall st msg,
  st <> queued -> st <> processing -> P (set_status st msg).
Hypothesis P_processing : Qeq_bool speed 1 = false ->
  forall msg, P (set_status processing msg).
Hypothesis A_adjust : Qeq_bool speed 1 = false -> A.
Hypothesis P_message : forall msg, P (set_message msg).
Hypothesis P_cmd : P (set_cmd (Some NotStarted)).
Hypothesis P_fail : forall msg, P (fail_download msg).

Lemma complete_playlist_all newFiles : task_all P A (complete_playlist speed newFiles).
Proof using All.
  unfold complete_playlist. constructor; [|constructor].
  apply (P_status completed); discriminate.
Qed.

Lemma process_files_all newFiles rest : forall i successCount,
  Qeq_bool speed 1 = false ->
  task_all P A (process_files Join speed newFiles i successCount rest).
Proof using All.
  induction rest as [|filename rest IH]; intros i successCount Hne; cbn [process_files].
  - constructor. apply complete_playlist_all.
  - constructor. intros [|].
    + constructor; [|constructor]. apply P_status; discriminate.
    + constructor; [apply P_message|].
      constructor; [apply A_adjust, Hne|].
      intros [e|]; [constructor|]; apply IH, Hne.
Qed.

Lemma playlist_task_all : task_all P A (playlist_task Join speed).
Proof using All.
  unfold playlist_task.
  constructor; [apply P_message|]. constructor; [apply P_cmd|].
  constructor. intros filesBefore. constructor. intros [|err stderr].
  - constructor. intros filesAfter. cbn zeta.
    destruct (speed_cases speed) as [Hs|Hs]; rewrite Hs; cbn [negb andb].
    + apply complete_playlist_all.
    + destruct (bool_decide _).
      * constructor; [apply P_processing; exact Hs|].
        apply process_files_all. exact Hs.
      * apply complete_playlist_all.
  - constructor; [apply P_fail | constructor].
Qed.

Lemma complete_single_all : task_all P A (complete_single speed).
Proof using All.
  unfold complete_single. constructor; [|constructor].
  apply (P_status completed); discriminate.
Qed.

Lemma finish_single_all filePath : task_all P A (finish_single speed filePath).
Proof using All.
  unfold finish_single. destruct (speed_cases speed) as [Hs|Hs]; rewrite Hs; cbn [negb].
  - apply complete_single_all.
  - constructor; [apply P_processing; exact Hs|].
    constructor; [apply A_adjust; exact Hs|].
    intros [e|].
    + constructor; [|constructor]. apply P_status; discriminate.
    + apply complete_single_all.
Qed.

Lemma single_task_all : task_all P A (single_task speed).
Proof using All.
  unfold single_task. constructor; [apply P_message|].
  constructor. intros [filePath|e]; [apply finish_single_all|].
  constructor; [apply P_cmd|]. constructor. intros [|err stderr].
  - constructor. intros names. destruct (decide _).
    + constructor; [|constructor]. apply P_status; discriminate.
    + constructor. intros path. apply finish_single_all.
  - constructor; [apply P_fail | constructor].
Qed.

Lemma downloadTask_all url : task_all P A (downloadTask Join url speed).
Proof using All.
  unfold downloadTask. constructor. intros [|].
  - constructor; [|constructor]. apply P_status; discriminate.
  - constructor; [apply P_status; discriminate|].
    destruct (isPlaylist url); [apply playlist_task_all | apply single_task_all].
Qed.

End TaskAll.

Lemma step_task_all P A flt a s :
  task_all P A (todo s) -> task_all P A (todo (step flt a s)).
Proof.
  destruct s as [j f evs t]. cbn [todo]. intros H. pose proof H as H0.
  destruct H as [ | k Hk | body k Hb Hk | dir k Hk | k Hk | k Hk | v d k Hk
                | names k Hk | inputFile sp k HA Hk | line k Hk ];
    unfold step; cbn [todo job fs events]; try assumption; try apply Hk.
  - destruct a; cbn [todo]; try assumption. apply Hk.
  - destruct (ctxDone j); cbn [todo]; [apply Hk | constructor; assumption].
  - destruct a; cbn [todo]; try assumption. apply Hk.
  - destruct (ctxDone j); cbn [todo]; [apply Hk|].
    destruct a; cbn [todo]; try assumption. apply Hk.
  - destruct a; cbn [todo]; try assumption. apply Hk.
  - destruct a; cbn [todo]; try assumption.
    destruct (adjustAudioSpeed _ _ _ _ _ _); cbn [todo]; [apply Hk | assumption].
Qed.

Lemma act_task_all P A flt s x :
  task_all P A (todo s) -> task_all P A (todo (act flt s x)).
Proof.
  destruct x as [|a]; cbn [act]; [|apply step_task_all].
  destruct (cancelJob (job s)) as [[j evs] r]. cbn [todo]. trivial.
Qed.

(** ** Schedules, one action at a time *)

Lemma run_app flt xs ys s : run flt (xs ++ ys) s = run flt ys (run flt xs s).
Proof. unfold run. apply foldl_app. Qed.

Lemma run_cons flt x xs s : run flt (x :: xs) s = run flt xs (act flt s x).
Proof. reflexivity. Qed.

Lemma statuses_cons flt x xs s :
  statuses flt (x :: xs) s = Status (job (act flt s x)) :: statuses flt xs (act flt s x).
Proof. reflexivity. Qed.

(** One scheduled step of the task, with the job record normalised. *)
Ltac job_simpl :=
  cbn [todo job fs events app set_status set_message set_cmd set_ctxDone new_job
       ID Status Message Progress URL Speed CreatedAt cancel ctxDone cmd].

Ltac run_step :=
  rewrite run_cons; cbn [act]; unfold step at 1; job_simpl.

(** ** Cancellation requests *)

Lemma active_dec (st : status) : {active st} + {~ active st}.
Proof. unfold active. destruct st; (left; tauto) || (right; intuition discriminate). Qed.

Lemma cancelJob_rejects job :
  ~ active (Status job) ->
  cancelJob job = (job, [], BadRequest "Job cannot be cancelled").
Proof.
  unfold active, cancelJob. intros H.
  destruct (Status job); try (exfalso; tauto); reflexivity.
Qed.

Lemma cancelJob_accepts job :
  active (Status job) ->
  exists job' evs,
    cancelJob job = (job', evs, OK "Job cancelled") /\
    Status job' = cancelled /\ Message job' = "Job cancelled by user" /\
    (cancel job = true -> ctxDone job' = true /\ EvCancelCtx ∈ evs) /\
    cancel job' = cancel job /\
    (cmd job = Some Running -> cmd job' = Some Killed /\ kills evs = 1%nat) /\
    (cmd job <> Some Running -> cmd job' = cmd job /\ kills evs = 0%nat).
Proof.
  unfold active, cancelJob. intros H.
  assert (Hg : negb (bool_decide (Status job = queued))
               && negb (bool_decide (Status job = downloading))
               && negb (bool_decide (Status job = processing)) = false).
  { destruct H as [-> | [-> | ->]]; reflexivity. }
  rewrite Hg. clear Hg H.
  destruct job as [i st m p u sp c cn cd cm]. cbn [cancel cmd].
  destruct cn; cbn [set_ctxDone cmd];
    destruct cm as [[| | |]|]; cbn;
    eexists _, _; (split; [reflexivity|]);
    repeat split; try reflexivity; try discriminate; try congruence;
    try (apply list_elem_of_here).
Qed.

Lemma kills_app evs1 evs2 : kills (evs1 ++ evs2) = (kills evs1 + kills evs2)%nat.
Proof. unfold kills. rewrite List.filter_app, length_app. reflexivity. Qed.

(** A critical section that leaves the cancel function and the context
    alone and does not mark the command as running. *)
Definition keeps_ctx (body : DownloadStatus -> DownloadStatus) : Prop :=
  forall j, cancel (body j) = cancel j /\ ctxDone (body j) = ctxDone j /\
            (cmd j <> Some Running -> cmd (body j) <> Some Running).

Lemma keeps_ctx_set_status st msg : keeps_ctx (set_status st msg).
Proof. intros j. cbn. auto. Qed.

Lemma keeps_ctx_set_message msg : keeps_ctx (set_message msg).
Proof. intros j. cbn. auto. Qed.

Lemma keeps_ctx_set_cmd : keeps_ctx (set_cmd (Some NotStarted)).
Proof. intros j. cbn. repeat split; discriminate. Qed.

Lemma keeps_ctx_fail_download msg : keeps_ctx (fail_download msg).
Proof. intros j. unfold fail_download. destruct (ctxDone j) eqn:E; cbn; auto. Qed.

Lemma downloadTask_keeps_ctx Join url speed :
  task_all keeps_ctx True (downloadTask Join url speed).
Proof.
  apply downloadTask_all; intros;
    auto using keeps_ctx_set_status, keeps_ctx_set_message, keeps_ctx_set_cmd,
               keeps_ctx_fail_download.
Qed.

Lemma kills_snoc evs e : is_live_kill e = false -> kills (evs ++ [e]) = kills evs.
Proof. intros H. rewrite kills_app. unfold kills at 2. cbn. rewrite H. cbn. lia. Qed.

(** A step of the task leaves the cancel function and the context alone,
    kills nothing, and starts a process only on an open context. *)
Lemma step_keeps_ctx flt a s :
  task_all keeps_ctx True (todo s) ->
  cancel (job (step flt a s)) = cancel (job s) /\
  ctxDone (job (step flt a s)) = ctxDone (job s) /\
  kills (events (step flt a s)) = kills (events s) /\
  (cmd (job (step flt a s)) = Some Running ->
   cmd (job s) = Some Running \/ ctxDone (job s) = false).
Proof.
  destruct s as [j f evs t]. cbn [todo job events]. intros H.
  destruct H as [ | k Hk | body k Hb Hk | dir k Hk | k Hk | k Hk | v d k Hk
                | names k Hk | inputFile sp k HA Hk | line k Hk ];
    unfold step; cbn [todo job fs events].
  - auto.
  - auto.
  - destruct (Hb j) as (Hb1 & Hb2 & Hb3). repeat split; auto.
    intros Hrun. left. destruct (decide (cmd j = Some Running)); [assumption|].
    exfalso. exact (Hb3 n Hrun).
  - destruct a; cbn [job events]; auto.
  - destruct (ctxDone j) eqn:Hd; cbn [job events]; [auto|].
    rewrite kills_snoc by reflexivity. cbn. rewrite Hd. auto.
  - destruct a; cbn [job events]; auto. cbn. repeat split; auto. discriminate.
  - destruct (ctxDone j) eqn:Hd; cbn [job events]; [auto|].
    destruct a; cbn [job events]; auto.
    rewrite kills_snoc by reflexivity. auto.
  - destruct a; cbn [job events]; auto.
  - destruct a; cbn [job events]; auto.
    destruct (adjustAudioSpeed _ _ _ _ _ _) as [out|]; cbn [job events]; auto.
    repeat split; auto.
    rewrite kills_app. destruct (spawned out); cbn; lia.
  - rewrite kills_snoc by reflexivity. auto.
Qed.

(** At most one [Kill] ever reaches a running process: a process runs only
    while the context is open, and the request that kills it closes the
    context. *)
Definition kill_inv (s : sys) : Prop :=
  cancel (job s) = true /\
  (ctxDone (job s) = true -> cmd (job s) <> Some Running) /\
  (kills (events s) <= 1)%nat /\
  (kills (events s) = 1%nat -> ctxDone (job s) = true) /\
  task_all keeps_ctx True (todo s).

Lemma kill_inv_act flt s x : kill_inv s -> kill_inv (act flt s x).
Proof.
  intros (Hc & Hr & Hk & Hk1 & Ht). destruct x as [|a].
  - cbn [act]. destruct (active_dec (Status (job s))) as [Ha|Hn].
    + destruct (cancelJob_accepts _ Ha)
        as (job' & evs & -> & _ & _ & Hctx & Hcn & Hrun & Hnot).
      destruct (Hctx Hc) as [Hd _].
      unfold kill_inv. cbn [job events todo]. rewrite kills_app.
      destruct (decide (cmd (job s) = Some Running)) as [Hrn|Hrn].
      * destruct (Hrun Hrn) as [Hcmd Hone].
        assert (kills (events s) = 0%nat).
        { destruct (ctxDone (job s)) eqn:E; [exfalso; exact (Hr eq_refl Hrn)|].
          destruct (kills (events s)) as [|[|n]]; [reflexivity| |lia].
          specialize (Hk1 eq_refl). discriminate. }
        repeat split; try congruence; try lia.
      * destruct (Hnot Hrn) as [Hcmd Hzero].
        repeat split; try congruence; try lia.
    + rewrite (cancelJob_rejects _ Hn). unfold kill_inv. cbn [job events todo].
      rewrite app_nil_r. auto.
  - cbn [act]. destruct (step_keeps_ctx flt a s Ht) as (E1 & E2 & E3 & E4).
    unfold kill_inv. rewrite E1, E2, E3. repeat split; auto.
    + intros Hd Hrun. destruct (E4 Hrun) as [H|H]; [exact (Hr Hd H) | congruence].
    + apply step_task_all. assumption.
Qed.

Lemma kill_inv_run flt xs : forall s, kill_inv s -> kill_inv (run flt xs s).
Proof.
  induction xs as [|x xs IH]; intros s Hs; cbn; [assumption|].
  apply IH, kill_inv_act, Hs.
Qed.

Lemma new_job_kill_inv Join id url speed now f :
  kill_inv (mkSys (new_job id url speed now) f [] (downloadTask Join url speed)).
Proof.
  unfold kill_inv. cbn [job events todo new_job cancel ctxDone cmd].
  repeat split; try discriminate; try (cbn; lia). apply downloadTask_keeps_ctx.
Qed.

Lemma cancelJob_twice job :
  cancelJob (cancelJob job).1.1
    = ((cancelJob job).1.1, [], BadRequest "Job cannot be cancelled").
Proof.
  apply cancelJob_rejects.
  destruct (active_dec (Status job)) as [Ha|Hn].
  - destruct (cancelJob_accepts _ Ha) as (job' & evs & -> & Hst & _). cbn.
    rewrite Hst. unfold active. intuition discriminate.
  - rewrite (cancelJob_rejects _ Hn). exact Hn.
Qed.

(** What the guard of [cancelJobHandler] does ensure.  A request is
    accepted exactly while the status is queued, downloading or
    processing, and then leaves the job cancelled.  In any other status,
    [cancelled] included, it answers "Job cannot be cancelled" and changes
    nothing: no call of the cancel function, no Kill.  Hence a request
    that follows another one with no step of the task in between is
    refused, an unknown identifier is answered "Job not found", and
    however requests and steps of the task interleave at most one
    [Process.Kill()] of the handler reaches a running process. *)
Theorem cancel_only_active_jobs :
  (forall job, ~ active (Status job) ->
     cancelJob job = (job, [], BadRequest "Job cannot be cancelled")) /\
  (forall downloads jobID job,
     downloads !! jobID = Some job -> ~ active (Status job) ->
     cancelJobHandler downloads jobID
       = (downloads, [], BadRequest "Job cannot be cancelled")) /\
  (forall downloads jobID,
     downloads !! jobID = None ->
     cancelJobHandler downloads jobID = (downloads, [], NotFound "Job not found")) /\
  (forall job, active (Status job) ->
     exists job' evs,
       cancelJob job = (job', evs, OK "Job cancelled") /\
       Status job' = cancelled /\
       (cancel job = true -> ctxDone job' = true) /\ (kills evs <= 1)%nat) /\
  (forall job,
     cancelJob (cancelJob job).1.1
       = ((cancelJob job).1.1, [], BadRequest "Job cannot be cancelled")) /\
  (forall Join flt f id url speed now xs,
     (kills (events (run flt xs
        (mkSys (new_job id url speed now) f [] (downloadTask Join url speed))))
      <= 1)%nat).
Proof.
  split; [exact cancelJob_rejects|].
  split.
  { intros downloads jobID job Hl Hn. unfold cancelJobHandler.
    rewrite Hl, (cancelJob_rejects _ Hn), insert_id by exact Hl. reflexivity. }
  split.
  { intros downloads jobID Hl. unfold cancelJobHandler. rewrite Hl. reflexivity. }
  split.
  { intros job Ha.
    destruct (cancelJob_accepts _ Ha)
      as (job' & evs & E & Hst & _ & Hctx & _ & Hrun & Hnot).
    exists job', evs. repeat split; [exact E | exact Hst | apply Hctx |].
    destruct (decide (cmd job = Some Running)) as [H|H];
      [destruct (Hrun H) | destruct (Hnot H)]; lia. }
  split; [exact cancelJob_twice|].
  intros Join flt f id url speed now xs.
  apply (kill_inv_run flt xs _ (new_job_kill_inv Join id url speed now f)).
Qed.

Lemma cancel_only_active_jobs_witness :
  cancelJob (set_status cancelled "Job cancelled by user"
               (new_job "id-1" "https://youtu.be/x" 2 0))
    = (set_status cancelled "Job cancelled by user"
         (new_job "id-1" "https://youtu.be/x" 2 0),
       [], BadRequest "Job cannot be cancelled").
Proof.
  apply (proj1 cancel_only_active_jobs).
  cbn. unfold active. intros [H|[H|H]]; discriminate H.
Defined.

Example cancel_running_job :
  cancelJob (set_cmd (Some Running)
               (set_status downloading "Downloading playlist..."
                  (new_job "id-1" "u" 2 0)))
  = (set_cmd (Some Killed)
       (set_ctxDone true
          (set_status cancelled "Job cancelled by user" (new_job "id-1" "u" 2 0))),
     [EvCancelCtx; EvKill true], OK "Job cancelled").
Proof. reflexivity. Qed.

(** C6 (violated by the code).  A second cancellation does not always
    fail.  The handler refuses a job that shows [cancelled], but the job
    does not keep showing it: when the first request arrives just after
    the task's poll of the context, the next critical section of the task
    writes [downloading] over [cancelled] without looking at the context,
    the guard of the handler sees an active job again, and a second
    request is accepted: it answers "Job cancelled" and calls the cancel
    function a second time. *)
Theorem second_cancellation_accepted
    (Join : string -> string -> string) (flt : faults)
    (id url : string) (speed : Q) (now : Z) (f : FS) (a1 a2 : answer) :
  let s0 := mkSys (new_job id url speed now) f [] (downloadTask Join url speed) in
  let s1 := run flt [Step a1; Cancel] s0 in
  let s2 := run flt [Step a1; Cancel; Step a2] s0 in
  let s3 := run flt [Step a1; Cancel; Step a2; Cancel] s0 in
  (Status (job s1) = cancelled /\ ctxDone (job s1) = true /\
   events s1 = [EvCancelCtx] /\
   cancelJob (job s1) = (job s1, [], BadRequest "Job cannot be cancelled")) /\
  (Status (job s2) = downloading /\ ctxDone (job s2) = true /\
   events s2 = [EvCancelCtx]) /\
  (cancelJob (job s2) = (job s3, [EvCancelCtx], OK "Job cancelled") /\
   cancelJobHandler {[id := job s2]} id
     = ({[id := job s3]}, [EvCancelCtx], OK "Job cancelled") /\
   Status (job s3) = cancelled /\
   events s3 = [EvCancelCtx; EvCancelCtx]).
Proof.
  intros s0 s1 s2 s3.
  assert (E1 : s1 = mkSys (mkJob id cancelled "Job cancelled by user" "0%" url speed now
                                 true true None)
                          f [EvCancelCtx]
                          (Locked (set_status downloading "Starting download...")
                             (if isPlaylist url then playlist_task Join speed
                              else single_task speed))).
  { subst s1 s0. unfold downloadTask. run_step. reflexivity. }
  assert (E2 : s2 = mkSys (mkJob id downloading "Starting download..." "0%" url speed now
                                 true true None)
                          f [EvCancelCtx]
                          (if isPlaylist url then playlist_task Join speed
                           else single_task speed)).
  { subst s2. change (run flt [Step a1; Cancel; Step a2] s0)
      with (run flt [Step a2] s1). rewrite E1. run_step. reflexivity. }
  assert (E3 : s3 = mkSys (mkJob id cancelled "Job cancelled by user" "0%" url speed now
                                 true true None)
                          f [EvCancelCtx; EvCancelCtx]
                          (if isPlaylist url then playlist_task Join speed
                           else single_task speed)).
  { subst s3. change (run flt [Step a1; Cancel; Step a2; Cancel] s0)
      with (run flt [Cancel] s2). rewrite E2. reflexivity. }
  rewrite E1, E2, E3. cbn [job events Status ctxDone].
  split; [repeat split; reflexivity|]. split; [repeat split; reflexivity|].
  split; [reflexivity|]. split; [|split; reflexivity].
  unfold cancelJobHandler. rewrite lookup_singleton_eq.
  change (cancelJob (mkJob id downloading "Starting download..." "0%" url speed now
                           true true None))
    with (mkJob id cancelled "Job cancelled by user" "0%" url speed now true true None,
          [EvCancelCtx], OK "Job cancelled").
  cbn iota beta zeta. rewrite insert_singleton_eq. reflexivity.
Qed.

(** ** A task that starts on a cancelled context *)

Section CancelledAtStart.

Variable Join : string -> string -> string.
Variable flt : faults.
Variables (url : string) (speed : Q).

(** The three points such a task can be at. *)
Definition at_start (t : task) : Prop :=
  t = downloadTask Join url speed \/
  t = Locked (set_status cancelled "Job cancelled before starting") Return \/
  t = Return.

Definition start_inv (s : sys) : Prop :=
  ctxDone (job s) = true /\ at_start (todo s) /\
  Forall (fun e => is_spawn e = false /\ is_adjust e = false) (events s).

Lemma cancelJob_events job :
  Forall (fun e => is_spawn e = false /\ is_adjust e = false) (cancelJob job).1.2.
Proof.
  unfold cancelJob.
  destruct (negb _ && negb _ && negb _); [constructor|].
  destruct (cancel job); cbn; destruct (cmd _) as [[| | |]|]; cbn;
    repeat constructor.
Qed.

Lemma cancelJob_ctxDone job :
  ctxDone job = true -> ctxDone (cancelJob job).1.1 = true.
Proof.
  unfold cancelJob. intros H.
  destruct (negb _ && negb _ && negb _); [exact H|].
  destruct (cancel job); cbn; destruct (cmd _) as [[| | |]|]; cbn; auto.
Qed.

Lemma start_inv_act s x : start_inv s -> start_inv (act flt s x).
Proof using Type.
  intros (Hd & Ht & He). destruct x as [|a]; cbn [act].
  - pose proof (cancelJob_events (job s)) as Hev.
    pose proof (cancelJob_ctxDone (job s) Hd) as Hdone.
    destruct (cancelJob (job s)) as [[j evs] r]. cbn in Hev, Hdone.
    unfold start_inv. cbn [job events todo].
    repeat split; [assumption | assumption | apply Forall_app; split; assumption].
  - destruct s as [j f evs t]. cbn [job events todo] in *.
    destruct Ht as [-> | [-> | ->]]; unfold step, start_inv;
      cbn [todo job events fs downloadTask].
    + rewrite Hd. cbn [ctxDone job events todo].
      split; [reflexivity | split; [right; left; reflexivity | assumption]].
    + split; [cbn; assumption | split; [right; right; reflexivity | assumption]].
    + split; [assumption | split; [right; right; reflexivity | assumption]].
Qed.

Lemma start_inv_run xs : forall s, start_inv s -> start_inv (run flt xs s).
Proof using Type.
  induction xs as [|x xs IH]; intros s Hs; cbn; [assumption|].
  apply IH, start_inv_act, Hs.
Qed.

End CancelledAtStart.

(** C8. When the context is already cancelled as the task starts, its
    first two steps (the poll of the context and the critical section)
    leave the job cancelled and the task returned, with no event and the
    files untouched; and whatever is scheduled, cancellation requests
    included, no external process is ever started and
    [adjustAudioSpeed] is never called. *)
Theorem cancelled_before_start
    (Join : string -> string -> string) (flt : faults) (job0 : DownloadStatus)
    (f : FS) (url : string) (speed : Q) :
  ctxDone job0 = true ->
  let s0 := mkSys job0 f [] (downloadTask Join url speed) in
  (forall a1 a2,
     let s := run flt [Step a1; Step a2] s0 in
     Status (job s) = cancelled /\
     Message (job s) = "Job cancelled before starting" /\
     todo s = Return /\ events s = [] /\ fs s = f) /\
  (forall xs,
     Forall (fun e => is_spawn e = false /\ is_adjust e = false)
            (events (run flt xs s0))).
Proof.
  intros Hd s0. split.
  - intros a1 a2. cbn. unfold step. cbn [todo job downloadTask]. rewrite Hd.
    cbn. repeat split; reflexivity.
  - intros xs.
    assert (H0 : start_inv Join url speed s0).
    { unfold start_inv. subst s0. cbn [job todo events].
      repeat split; [assumption | left; reflexivity | constructor]. }
    apply (start_inv_run Join flt url speed xs s0 H0).
Qed.

Lemma cancelled_before_start_witness :
  let s0 := mkSys (set_ctxDone true (new_job "id-1" "https://youtu.be/x" 2 0))
                  (mkFS ∅ ∅) [] (downloadTask join_name "https://youtu.be/x" 2) in
  (forall a1 a2,
     let s := run no_faults [Step a1; Step a2] s0 in
     Status (job s) = cancelled /\
     Message (job s) = "Job cancelled before starting" /\
     todo s = Return /\ events s = [] /\ fs s = mkFS ∅ ∅) /\
  (forall xs,
     Forall (fun e => is_spawn e = false /\ is_adjust e = false)
            (events (run no_faults xs s0))).
Proof.
  apply (cancelled_before_start join_name no_faults
           (set_ctxDone true (new_job "id-1" "https://youtu.be/x" 2 0))).
  reflexivity.
Defined.

(** ** Identity multiplier: no transform *)

(** A critical section that does not move the job to [processing]. *)
Definition keeps_unprocessed (body : DownloadStatus -> DownloadStatus) : Prop :=
  forall j, Status j <> processing -> Status (body j) <> processing.

Lemma downloadTask_identity Join url speed :
  Qeq_bool speed 1 = true ->
  task_all keeps_unprocessed False (downloadTask Join url speed).
Proof.
  intros Hs. apply downloadTask_all; unfold keeps_unprocessed.
  - intros st msg _ Hp j _. exact Hp.
  - intros Hn. congruence.
  - intros Hn. congruence.
  - intros msg j Hj. exact Hj.
  - intros j Hj. exact Hj.
  - intros msg j _. unfold fail_download. destruct (ctxDone j); cbn; discriminate.
Qed.

Definition no_transform (e : event) : Prop :=
  is_adjust e = false /\ e <> EvSpawn "ffmpeg".

Definition identity_inv (f : FS) (s : sys) : Prop :=
  Status (job s) <> processing /\
  Forall no_transform (events s) /\
  fs s = f /\
  task_all keeps_unprocessed False (todo s).

Lemma cancelJob_no_transform job : Forall no_transform (cancelJob job).1.2.
Proof.
  unfold cancelJob.
  destruct (negb _ && negb _ && negb _); [constructor|].
  destruct (cancel job); cbn; destruct (cmd _) as [[| | |]|]; cbn;
    repeat constructor; discriminate.
Qed.

Lemma cancelJob_unprocessed job :
  Status job <> processing -> Status (cancelJob job).1.1 <> processing.
Proof.
  intros H. destruct (active_dec (Status job)) as [Ha|Hn].
  - destruct (cancelJob_accepts _ Ha) as (job' & evs & -> & Hst & _). cbn.
    rewrite Hst. discriminate.
  - rewrite (cancelJob_rejects _ Hn). exact H.
Qed.

Lemma identity_inv_act flt f s x : identity_inv f s -> identity_inv f (act flt s x).
Proof.
  intros (Hst & Hev & Hfs & Ht). destruct x as [|a]; cbn [act].
  - pose proof (cancelJob_no_transform (job s)) as Hev'.
    pose proof (cancelJob_unprocessed (job s) Hst) as Hst'.
    destruct (cancelJob (job s)) as [[j evs] r]. cbn in Hev', Hst'.
    unfold identity_inv. cbn [job events todo fs].
    split; [assumption | split; [apply Forall_app; split; assumption | auto]].
  - assert (Ht' := step_task_all _ _ flt a s Ht).
    unfold identity_inv. split; [|split; [|split; [|exact Ht']]]; clear Ht';
      destruct s as [j f0 evs t]; cbn [job events todo fs] in *;
      destruct Ht as [ | k Hk | body k Hb Hk | dir k Hk | k Hk | k Hk | v d k Hk
                     | names k Hk | inputFile sp k [] Hk | line k Hk ];
      unfold step; cbn [todo job fs events]; try assumption;
      try (destruct a; cbn [job events fs]; assumption);
      try (apply Hb; assumption);
      try (destruct (ctxDone j); cbn [job events fs]; try assumption;
           try (destruct a; cbn [job events fs]; try assumption);
           try (apply Forall_app; split; [assumption|]);
           repeat constructor; discriminate);
      try (apply Forall_app; split; [assumption|]; repeat constructor; discriminate).
Qed.

Lemma identity_inv_statuses flt f xs : forall s,
  identity_inv f s -> Forall (fun st => st <> processing) (statuses flt xs s).
Proof.
  induction xs as [|x xs IH]; intros s Hs; cbn [statuses]; constructor.
  - apply (identity_inv_act flt f s x Hs).
  - apply IH, identity_inv_act, Hs.
Qed.

Lemma identity_inv_run flt f xs : forall s,
  identity_inv f s -> identity_inv f (run flt xs s).
Proof.
  induction xs as [|x xs IH]; intros s Hs; cbn; [assumption|].
  apply IH, identity_inv_act, Hs.
Qed.

(** A change of status that the identity workflow allows: none, from
    [queued] to [downloading], or from [downloading] to [completed] or to
    [error]. *)
Definition direct (prev next : status) : Prop :=
  next = prev \/ (prev = queued /\ next = downloading) \/
  (prev = downloading /\ (next = completed \/ next = error)).

Fixpoint direct_chain (prev : status) (sts : list status) : Prop :=
  match sts with
  | [] => True
  | st :: rest => direct prev st /\ direct_chain st rest
  end.

(** On an open context and from the status [st], every critical section
    the task can reach makes a change that [direct] allows, and the task
    reaches no call of [adjustAudioSpeed]. *)
Inductive direct_from : status -> task -> Prop :=
  | df_Return st : direct_from st Return
  | df_Select st k : direct_from st (k false) -> direct_from st (Select k)
  | df_Locked st st' body k :
      (forall j, ctxDone j = false -> Status j = st ->
                 Status (body j) = st' /\ ctxDone (body j) = false) ->
      direct st st' -> direct_from st' k -> direct_from st (Locked body k)
  | df_GetMP3Files st dir k :
      (forall names, direct_from st (k names)) -> direct_from st (GetMP3Files dir k)
  | df_Run st k : (forall r, direct_from st (k r)) -> direct_from st (Run k)
  | df_Wait st k : (forall r, direct_from st (k r)) -> direct_from st (Wait k)
  | df_DownloadSingleVideo st v d k :
      (forall r, direct_from st (k r)) -> direct_from st (DownloadSingleVideo v d k)
  | df_Newest st names k :
      (forall path, direct_from st (k path)) -> direct_from st (Newest names k)
  | df_Printf st line k : direct_from st k -> direct_from st (Printf line k).

Lemma direct_refl st : direct st st.
Proof. left. reflexivity. Qed.

Lemma df_stay st body k :
  (forall j, Status (body j) = Status j /\ ctxDone (body j) = ctxDone j) ->
  direct_from st k -> direct_from st (Locked body k).
Proof.
  intros Hb Hk. apply (df_Locked st st); [|apply direct_refl | exact Hk].
  intros j Hc Hst. destruct (Hb j) as [-> ->]. auto.
Qed.

Lemma df_last st st' msg :
  direct st st' -> direct_from st (Locked (set_status st' msg) Return).
Proof.
  intros Hd. apply (df_Locked st st'); [|exact Hd | constructor].
  intros j Hc _. cbn. auto.
Qed.

Lemma df_fail msg : direct_from downloading (Locked (fail_download msg) Return).
Proof.
  apply (df_Locked downloading error); [|right; right; auto | constructor].
  intros j Hc _. unfold fail_download. rewrite Hc. cbn. auto.
Qed.

Lemma complete_single_direct speed : direct_from downloading (complete_single speed).
Proof.
  unfold complete_single.
  apply (df_Locked downloading completed); [|right; right; auto | constructor].
  intros j Hc _. cbn. auto.
Qed.

Lemma complete_playlist_direct speed newFiles :
  direct_from downloading (complete_playlist speed newFiles).
Proof.
  unfold complete_playlist.
  apply (df_Locked downloading completed); [|right; right; auto | constructor].
  intros j Hc _. cbn. auto.
Qed.

Lemma finish_single_direct speed filePath :
  Qeq_bool speed 1 = true -> direct_from downloading (finish_single speed filePath).
Proof.
  intros Hs. unfold finish_single. rewrite Hs. cbn [negb].
  apply complete_single_direct.
Qed.

Lemma downloadTask_direct Join url speed :
  Qeq_bool speed 1 = true -> direct_from queued (downloadTask Join url speed).
Proof.
  intros Hs. unfold downloadTask. constructor.
  apply (df_Locked queued downloading); [|right; left; auto|].
  { intros j Hc _. cbn. auto. }
  destruct (isPlaylist url).
  - unfold playlist_task.
    apply df_stay; [intros j; cbn; auto|].
    apply df_stay; [intros j; cbn; auto|].
    constructor. intros filesBefore. constructor. intros [|err stderr].
    + constructor. intros filesAfter. cbn zeta. rewrite Hs. cbn [negb andb].
      apply complete_playlist_direct.
    + apply df_fail.
  - unfold single_task.
    apply df_stay; [intros j; cbn; auto|].
    constructor. intros [filePath|e]; [apply finish_single_direct, Hs|].
    apply df_stay; [intros j; cbn; auto|].
    constructor. intros [|err stderr]; [|apply df_fail].
    constructor. intros names. destruct (decide _).
    + apply df_last. right; right; auto.
    + constructor. intros path. apply finish_single_direct, Hs.
Qed.

Ltac direct_done :=
  repeat split;
  first [ assumption | apply direct_refl
        | match goal with Hk : forall x, direct_from _ (_ x) |- _ => apply Hk end
        | constructor; assumption ].

Lemma step_direct flt a s :
  ctxDone (job s) = false -> direct_from (Status (job s)) (todo s) ->
  ctxDone (job (step flt a s)) = false /\
  direct_from (Status (job (step flt a s))) (todo (step flt a s)) /\
  direct (Status (job s)) (Status (job (step flt a s))).
Proof.
  destruct s as [j f evs t]. cbn [job todo]. intros Hc H.
  remember (Status j) as st eqn:Hst.
  destruct H as [ st | st k Hk | st st' body k Hb Hd Hk | st dir k Hk | st k Hk
                | st k Hk | st v d k Hk | st names k Hk | st line k Hk ];
    unfold step; cbn [todo job fs events].
  - rewrite <- Hst. direct_done.
  - rewrite Hc, <- Hst. direct_done.
  - destruct (Hb j Hc (eq_sym Hst)) as [-> ->]. direct_done.
  - destruct a; cbn [job todo]; rewrite <- ?Hst; direct_done.
  - rewrite Hc. cbn [job todo Status set_cmd ctxDone]. rewrite <- Hst. direct_done.
  - destruct a; cbn [job todo Status set_cmd ctxDone]; rewrite <- ?Hst; direct_done.
  - rewrite Hc. destruct a; cbn [job todo]; rewrite <- ?Hst; direct_done.
  - destruct a; cbn [job todo]; rewrite <- ?Hst; direct_done.
  - rewrite <- Hst. direct_done.
Qed.

Lemma steps_direct flt answers : forall s,
  ctxDone (job s) = false -> direct_from (Status (job s)) (todo s) ->
  direct_chain (Status (job s)) (statuses flt (Step <$> answers) s).
Proof.
  induction answers as [|a answers IH]; intros s Hc Ht; [exact I|].
  cbn [fmap list_fmap statuses act direct_chain].
  destruct (step_direct flt a s Hc Ht) as (Hc' & Ht' & Hd).
  split; [exact Hd | apply IH; assumption].
Qed.

(** The runs in which nothing is cancelled and the download succeeds: a
    single video at the first attempt, a single video at the second
    attempt, and a playlist. *)
Definition identity_single (filePath : string) : list action :=
  [Step Tick; Step Tick; Step Tick; Step (Fetched (inl filePath)); Step Tick].

Definition identity_single_retry (e : string) (names : list string) (path : string)
  : list action :=
  [Step Tick; Step Tick; Step Tick; Step (Fetched (inr e)); Step Tick; Step Tick;
   Step (ProcExit RunOk); Step (Listing names); Step (NewestIs path); Step Tick].

Definition identity_playlist (filesBefore filesAfter : list string) : list action :=
  [Step Tick; Step Tick; Step Tick; Step Tick; Step (Listing filesBefore); Step Tick;
   Step (ProcExit RunOk); Step (Listing filesAfter); Step Tick].

Lemma not_killed (c : option process) (x y : run_result) :
  c <> Some Killed -> (if decide (c = Some Killed) then x else y) = y.
Proof. intros H. destruct (decide _); [contradiction | reflexivity]. Qed.

(** One action of a schedule: the state it leads to is computed once and
    put in place of every occurrence. *)
Ltac sched_step tac :=
  rewrite statuses_cons, run_cons;
  match goal with
  | |- context [act ?flt ?s ?x] =>
      let E := fresh "E" in
      eassert (E : act flt s x = _);
      [ cbn [act]; unfold step at 1; job_simpl; tac; reflexivity
      | rewrite !E; clear E ]
  end.

Ltac sched_end :=
  unfold run; cbn [statuses foldl]; job_simpl.

Section IdentityRuns.

Variable Join : string -> string -> string.
Variable flt : faults.
Variable job0 : DownloadStatus.
Variable f : FS.
Variables (url : string) (speed : Q).

Hypothesis speed_1 : Qeq_bool speed 1 = true.
Hypothesis job_queued : Status job0 = queued.
Hypothesis ctx_open : ctxDone job0 = false.

Let s0 : sys := mkSys job0 f [] (downloadTask Join url speed).

Lemma identity_single_completes filePath :
  isPlaylist url = false ->
  statuses flt (identity_single filePath) s0
    = [queued; downloading; downloading; downloading; completed] /\
  Message (job (run flt (identity_single filePath) s0)) = "Download completed" /\
  todo (run flt (identity_single filePath) s0) = Return.
Proof using All.
  intros Hp. subst s0. unfold identity_single, downloadTask.
  sched_step ltac:(rewrite ?ctx_open).
  sched_step idtac. rewrite Hp. unfold single_task.
  sched_step idtac.
  sched_step ltac:(rewrite ?ctx_open).
  unfold finish_single, complete_single. rewrite speed_1. cbn [negb].
  sched_step idtac.
  sched_end. rewrite job_queued. repeat split; reflexivity.
Qed.

Lemma identity_single_retry_completes e names path :
  isPlaylist url = false -> names <> [] ->
  statuses flt (identity_single_retry e names path) s0
    = [queued; downloading; downloading; downloading; downloading; downloading;
       downloading; downloading; downloading; completed] /\
  Message (job (run flt (identity_single_retry e names path) s0))
    = "Download completed" /\
  todo (run flt (identity_single_retry e names path) s0) = Return.
Proof using All.
  intros Hp Hne. subst s0. unfold identity_single_retry, downloadTask.
  sched_step ltac:(rewrite ?ctx_open).
  sched_step idtac. rewrite Hp. unfold single_task.
  sched_step idtac.
  sched_step ltac:(rewrite ?ctx_open).
  sched_step idtac.
  sched_step ltac:(rewrite ?ctx_open).
  sched_step ltac:(rewrite not_killed by discriminate).
  sched_step idtac.
  destruct (decide (length names = 0%nat)) as [Hl|_].
  { destruct names; [congruence | discriminate Hl]. }
  sched_step idtac.
  unfold finish_single, complete_single. rewrite speed_1. cbn [negb].
  sched_step idtac.
  sched_end. rewrite job_queued. repeat split; reflexivity.
Qed.

Lemma identity_playlist_completes filesBefore filesAfter :
  isPlaylist url = true ->
  statuses flt (identity_playlist filesBefore filesAfter) s0
    = [queued; downloading; downloading; downloading; downloading; downloading;
       downloading; downloading; completed] /\
  Message (job (run flt (identity_playlist filesBefore filesAfter) s0))
    = "Downloaded "
        +:+ Fmt.sprintf_d (length (filter (fun f => f ∉ filesBefore) filesAfter))
        +:+ " files" /\
  todo (run flt (identity_playlist filesBefore filesAfter) s0) = Return.
Proof using All.
  intros Hp. subst s0. unfold identity_playlist, downloadTask.
  sched_step ltac:(rewrite ?ctx_open).
  sched_step idtac. rewrite Hp. unfold playlist_task.
  sched_step idtac.
  sched_step idtac.
  sched_step idtac.
  sched_step ltac:(rewrite ?ctx_open).
  sched_step ltac:(rewrite not_killed by discriminate).
  sched_step idtac.
  cbn zeta. rewrite speed_1. cbn [negb andb]. unfold complete_playlist.
  sched_step idtac.
  sched_end. rewrite job_queued, speed_1. cbn [negb]. repeat split; reflexivity.
Qed.

End IdentityRuns.

(** C7. With a multiplier equal to 1.0 the task, single video or playlist
    and whatever the environment answers and however cancellation requests
    interleave, never shows the status [processing], never reaches a call
    of [adjustAudioSpeed], never starts ffmpeg, and leaves the files as
    they are.  For a job that starts queued on an open context and is not
    cancelled, every change of status is from [queued] to [downloading]
    or from [downloading] to [completed] or [error]; and when the download
    succeeds (a single video at the first or at the second attempt, or a
    playlist) the job goes from [downloading] directly to [completed] and
    the task returns. *)
Theorem identity_speed_skips_transform
    (Join : string -> string -> string) (flt : faults) (job0 : DownloadStatus)
    (f : FS) (url : string) (speed : Q) (xs : list action) :
  speed == 1 -> Status job0 <> processing ->
  let s0 := mkSys job0 f [] (downloadTask Join url speed) in
  Forall (fun st => st <> processing) (statuses flt xs s0) /\
  (forall inputFile sp k, todo (run flt xs s0) <> AdjustAudioSpeed inputFile sp k) /\
  Forall no_transform (events (run flt xs s0)) /\
  fs (run flt xs s0) = f /\
  (Status job0 = queued -> ctxDone job0 = false ->
   (forall answers,
      direct_chain queued (statuses flt (Step <$> answers) s0)) /\
   (isPlaylist url = false -> forall filePath,
      statuses flt (identity_single filePath) s0
        = [queued; downloading; downloading; downloading; completed] /\
      Message (job (run flt (identity_single filePath) s0)) = "Download completed" /\
      todo (run flt (identity_single filePath) s0) = Return) /\
   (isPlaylist url = false -> forall e names path, names <> [] ->
      statuses flt (identity_single_retry e names path) s0
        = [queued; downloading; downloading; downloading; downloading; downloading;
           downloading; downloading; downloading; completed] /\
      Message (job (run flt (identity_single_retry e names path) s0))
        = "Download completed" /\
      todo (run flt (identity_single_retry e names path) s0) = Return) /\
   (isPlaylist url = true -> forall filesBefore filesAfter,
      statuses flt (identity_playlist filesBefore filesAfter) s0
        = [queued; downloading; downloading; downloading; downloading; downloading;
           downloading; downloading; completed] /\
      Message (job (run flt (identity_playlist filesBefore filesAfter) s0))
        = "Downloaded "
            +:+ Fmt.sprintf_d (length (filter (fun f => f ∉ filesBefore) filesAfter))
            +:+ " files" /\
      todo (run flt (identity_playlist filesBefore filesAfter) s0) = Return)).
Proof.
  intros Hs Hst s0.
  assert (Hb : Qeq_bool speed 1 = true) by (apply Qeq_bool_iff; exact Hs).
  assert (H0 : identity_inv f s0).
  { unfold identity_inv. subst s0. cbn [job events todo fs].
    repeat split; [assumption | constructor |].
    apply downloadTask_identity. exact Hb. }
  split; [exact (identity_inv_statuses flt f xs s0 H0)|].
  destruct (identity_inv_run flt f xs s0 H0) as (_ & He & Hf & Ht).
  split.
  { intros inputFile sp k Heq. rewrite Heq in Ht. inversion Ht. assumption. }
  split; [exact He|]. split; [exact Hf|].
  intros Hq Hc. split; [|split; [|split]].
  - intros answers. rewrite <- Hq.
    apply (steps_direct flt answers s0); subst s0; cbn [job todo]; [exact Hc|].
    rewrite Hq. apply downloadTask_direct, Hb.
  - intros Hp filePath.
    exact (identity_single_completes Join flt job0 f url speed Hb Hq Hc filePath Hp).
  - intros Hp e names path Hne.
    exact (identity_single_retry_completes Join flt job0 f url speed Hb Hq Hc
             e names path Hp Hne).
  - intros Hp filesBefore filesAfter.
    exact (identity_playlist_completes Join flt job0 f url speed Hb Hq Hc
             filesBefore filesAfter Hp).
Qed.

Definition single_run_identity : list action :=
  [Step Tick; Step Tick; Step Tick; Step (Fetched (inl "/temp/a.mp3")); Step Tick].

Definition playlist_run_identity : list action :=
  [Step Tick; Step Tick; Step Tick; Step Tick; Step (Listing ["old.mp3"]);
   Step Tick; Step (ProcExit RunOk); Step (Listing ["old.mp3"; "a.mp3"; "b.mp3"]);
   Step Tick].

Lemma identity_speed_skips_transform_witness :
  let s0 := mkSys (new_job "id-1" "https://youtu.be/x" 1 0) (mkFS ∅ ∅) []
                  (downloadTask join_name "https://youtu.be/x" 1) in
  Forall (fun st => st <> processing) (statuses no_faults single_run_identity s0) /\
  (forall inputFile sp k,
     todo (run no_faults single_run_identity s0) <> AdjustAudioSpeed inputFile sp k) /\
  Forall no_transform (events (run no_faults single_run_identity s0)) /\
  fs (run no_faults single_run_identity s0) = mkFS ∅ ∅ /\
  (forall answers,
     direct_chain queued (statuses no_faults (Step <$> answers) s0)) /\
  (forall filePath,
     statuses no_faults (identity_single filePath) s0
       = [queued; downloading; downloading; downloading; completed] /\
     Message (job (run no_faults (identity_single filePath) s0))
       = "Download completed" /\
     todo (run no_faults (identity_single filePath) s0) = Return) /\
  (forall e names path, names <> [] ->
     statuses no_faults (identity_single_retry e names path) s0
       = [queued; downloading; downloading; downloading; downloading; downloading;
          downloading; downloading; downloading; completed] /\
     Message (job (run no_faults (identity_single_retry e names path) s0))
       = "Download completed" /\
     todo (run no_faults (identity_single_retry e names path) s0) = Return).
Proof.
  intros s0.
  destruct (identity_speed_skips_transform join_name no_faults
              (new_job "id-1" "https://youtu.be/x" 1 0) (mkFS ∅ ∅)
              "https://youtu.be/x" 1 single_run_identity)
    as (H1 & H2 & H3 & H4 & H5).
  - reflexivity.
  - discriminate.
  - destruct (H5 eq_refl eq_refl) as (H6 & H7 & H8 & _).
    split; [exact H1|]. split; [exact H2|]. split; [exact H3|]. split; [exact H4|].
    split; [exact H6|]. split; [exact (H7 eq_refl) | exact (H8 eq_refl)].
Defined.

Example single_identity_statuses :
  statuses no_faults single_run_identity
    (mkSys (new_job "id-1" "https://youtu.be/x" 1 0) (mkFS ∅ ∅) []
           (downloadTask join_name "https://youtu.be/x" 1))
  = [queued; downloading; downloading; downloading; completed].
Proof. vm_compute. reflexivity. Qed.

Example single_identity_message :
  Message (job (run no_faults single_run_identity
    (mkSys (new_job "id-1" "https://youtu.be/x" 1 0) (mkFS ∅ ∅) []
           (downloadTask join_name "https://youtu.be/x" 1))))
  = "Download completed".
Proof. vm_compute. reflexivity. Qed.

Example playlist_identity_statuses :
  let url := "https://www.youtube.com/playlist?list=PL1" in
  statuses no_faults playlist_run_identity
    (mkSys (new_job "id-1" url 1 0) (mkFS ∅ ∅) [] (downloadTask join_name url 1))
  = [queued; downloading; downloading; downloading; downloading; downloading;
     downloading; downloading; completed].
Proof. vm_compute. reflexivity. Qed.

Example playlist_identity_message :
  let url := "https://www.youtube.com/playlist?list=PL1" in
  Message (job (run no_faults playlist_run_identity
    (mkSys (new_job "id-1" url 1 0) (mkFS ∅ ∅) [] (downloadTask join_name url 1))))
  = "Downloaded 2 files".
Proof. vm_compute. reflexivity. Qed.

(** ** Terminal statuses *)

(** A critical section that does not put a job back to [queued]. *)
Definition keeps_advanced (body : DownloadStatus -> DownloadStatus) : Prop :=
  forall j, Status j <> queued -> Status (body j) <> queued.

Lemma downloadTask_keeps_advanced Join url speed :
  task_all keeps_advanced True (downloadTask Join url speed).
Proof.
  apply downloadTask_all; unfold keeps_advanced; try (intros; exact I).
  - intros st msg Hq _ j _. exact Hq.
  - intros _ msg j _. discriminate.
  - intros msg j Hj. exact Hj.
  - intros j Hj. exact Hj.
  - intros msg j _. unfold fail_download. destruct (ctxDone j); cbn; discriminate.
Qed.

Definition advanced_inv (s : sys) : Prop :=
  Status (job s) <> queued /\ task_all keeps_advanced True (todo s).

Lemma advanced_inv_act flt s x : advanced_inv s -> advanced_inv (act flt s x).
Proof.
  intros [Hst Ht]. split; [|apply act_task_all; exact Ht].
  destruct x as [|a]; cbn [act].
  - destruct (active_dec (Status (job s))) as [Ha|Hn].
    + destruct (cancelJob_accepts _ Ha) as (job' & evs & -> & Hc & _). cbn.
      rewrite Hc. discriminate.
    + rewrite (cancelJob_rejects _ Hn). exact Hst.
  - destruct s as [j f evs t]; cbn [job todo] in *.
    destruct Ht as [ | k Hk | body k Hb Hk | dir k Hk | k Hk | k Hk | v d k Hk
                   | names k Hk | inputFile sp k _ Hk | line k Hk ];
      unfold step; cbn [todo job fs events]; try assumption;
      try (destruct a; cbn [job]; assumption).
    + apply Hb. assumption.
    + destruct (ctxDone j); cbn [job]; assumption.
    + destruct (ctxDone j); cbn [job]; [assumption|].
      destruct a; cbn [job]; assumption.
    + destruct a; cbn [job]; try assumption.
      destruct (adjustAudioSpeed _ _ _ _ _ _); cbn [job]; assumption.
Qed.

(** The part of the state machine that the code does keep: under any
    schedule, a job that has left [queued] never shows it again. *)
Lemma status_never_back_to_queued Join flt job0 f evs url speed xs :
  Status job0 <> queued ->
  Forall (fun st => st <> queued)
         (statuses flt xs (mkSys job0 f evs (downloadTask Join url speed))).
Proof.
  intros H0.
  assert (Hinv : advanced_inv (mkSys job0 f evs (downloadTask Join url speed))).
  { split; [exact H0 | apply downloadTask_keeps_advanced]. }
  revert Hinv. generalize (mkSys job0 f evs (downloadTask Join url speed)).
  induction xs as [|x xs IH]; intros s Hs; cbn [statuses]; constructor.
  - apply (advanced_inv_act flt s x Hs).
  - apply IH, advanced_inv_act, Hs.
Qed.

(** The request arrives while the single-video task is in its transform. *)
Definition cancel_during_transform : list action :=
  [Step Tick; Step Tick; Step Tick; Step (Fetched (inl "/temp/a.mp3")); Step Tick;
   Cancel;
   Step (FfmpegEnds (FfmpegFail "signal: killed" "" None)); Step Tick].

(** The request arrives after the download, before the completion. *)
Definition cancel_before_completion : list action :=
  [Step Tick; Step Tick; Step Tick; Step (Fetched (inl "/temp/a.mp3"));
   Cancel;
   Step Tick].

(** The request arrives between the first poll of the context and the
    move to [downloading]. *)
Definition cancel_after_poll : list action :=
  [Step Tick; Cancel; Step Tick].

(** C3 (violated by the code).  A job that a cancellation request has set
    to [cancelled] is afterwards set to [error] by its task when the
    request arrived during the transform, to [completed] when it arrived
    before the completion, and back to [downloading] when it arrived just
    after the task's first poll of the context. *)
Theorem cancelled_status_overwritten :
  let url := "https://youtu.be/x" in
  let f := mkFS {["/temp/a.mp3" := "audio"]} ∅ in
  statuses no_faults cancel_during_transform
    (mkSys (new_job "id-1" url (3 # 2) 0) f [] (downloadTask join_name url (3 # 2)))
  = [queued; downloading; downloading; downloading; processing;
     cancelled; cancelled; error] /\
  statuses no_faults cancel_before_completion
    (mkSys (new_job "id-1" url 1 0) f [] (downloadTask join_name url 1))
  = [queued; downloading; downloading; downloading; cancelled; completed] /\
  statuses no_faults cancel_after_poll
    (mkSys (new_job "id-1" url 1 0) f [] (downloadTask join_name url 1))
  = [queued; cancelled; downloading].
Proof. vm_compute. repeat split; reflexivity. Qed.

Example cancel_during_transform_message :
  let url := "https://youtu.be/x" in
  let f := mkFS {["/temp/a.mp3" := "audio"]} ∅ in
  Message (job (run no_faults cancel_during_transform
    (mkSys (new_job "id-1" url (3 # 2) 0) f [] (downloadTask join_name url (3 # 2)))))
  = "Failed to adjust speed: ffmpeg failed: context canceled, output: ".
Proof. vm_compute. reflexivity. Qed.

(** ** The post-processor and the files *)

Lemma length_append (a b : string) :
  String.length (a +:+ b) = (String.length a + String.length b)%nat.
Proof. induction a as [|c a IH]; simpl; [reflexivity | f_equal; exact IH]. Qed.

Lemma tempFile_ne (inputFile : string) : inputFile +:+ ".tmp.mp3" <> inputFile.
Proof.
  intros H. apply (f_equal String.length) in H. rewrite length_append in H.
  cbn in H. lia.
Qed.

Lemma adjustAudioSpeed_total ctx_done flt ff f inputFile speed :
  0 < speed -> is_Some (adjustAudioSpeed ctx_done flt ff f inputFile speed).
Proof.
  intros Hpos. unfold adjustAudioSpeed.
  destruct (atempoFilters_total speed (enough_fuel speed) Hpos (Nat.le_refl _))
    as [filters ->].
  destruct ctx_done; [eauto|].
  destruct ff as [out | e o p]; [|eauto].
  destruct (os_Remove _ _ _) as [fs2 [e|]]; [eauto|].
  destruct (os_Rename _ _ _ _) as [fs3 [e|]]; eauto.
Qed.

(** When the tool fails, or is not started because the context is
    cancelled, only the temporary path can differ afterwards, and it holds
    what the tool left there. *)
Lemma adjustAudioSpeed_failure ctx_done flt ff f inputFile speed out :
  adjustAudioSpeed ctx_done flt ff f inputFile speed = Some out ->
  ctx_done = true \/ (exists e o p, ff = FfmpegFail e o p) ->
  is_Some (err_out out) /\
  (forall p, p <> inputFile +:+ ".tmp.mp3" ->
     files (fs_after out) !! p = files f !! p) /\
  files (fs_after out) !! (inputFile +:+ ".tmp.mp3")
    = match ctx_done, ff with
      | false, FfmpegFail _ _ (Some data) => Some data
      | _, _ => files f !! (inputFile +:+ ".tmp.mp3")
      end.
Proof.
  unfold adjustAudioSpeed. destruct (atempoFilters _ _); [|discriminate].
  intros H Hfail. destruct ctx_done.
  - injection H as <-. cbn. eauto.
  - destruct Hfail as [Hc | (e & o & p & ->)]; [discriminate|].
    injection H as <-. cbn [err_out fs_after]. split; [eauto|].
    destruct p as [data|]; [|auto]. unfold write_file. cbn [files].
    split; [intros p Hp; apply lookup_insert_ne; congruence | apply lookup_insert_eq].
Qed.

(** When it reports no error, the tool succeeded and the original path
    holds its output, the temporary path being gone. *)
Lemma adjustAudioSpeed_success ctx_done flt ff f inputFile speed out :
  adjustAudioSpeed ctx_done flt ff f inputFile speed = Some out ->
  err_out out = None ->
  ctx_done = false /\
  exists data, ff = FfmpegOk data /\
    files (fs_after out) !! inputFile = Some data /\
    files (fs_after out) !! (inputFile +:+ ".tmp.mp3") = None /\
    forall p, p <> inputFile -> p <> inputFile +:+ ".tmp.mp3" ->
      files (fs_after out) !! p = files f !! p.
Proof.
  unfold adjustAudioSpeed. destruct (atempoFilters _ _); [|discriminate].
  pose proof (tempFile_ne inputFile) as Hne.
  destruct ctx_done; [intros [= <-]; discriminate|].
  destruct ff as [data | e o p]; [|intros [= <-]; discriminate].
  unfold os_Remove, write_file. cbn [files synced].
  destruct (f_remove flt inputFile); [intros [= <-]; discriminate|].
  destruct (<[_ := data]> (files f) !! inputFile) eqn:Hin;
    [|intros [= <-]; discriminate].
  unfold os_Rename. cbn [files synced].
  destruct (f_rename flt _ inputFile); [intros [= <-]; discriminate|].
  rewrite lookup_delete_ne, lookup_insert_eq by congruence.
  intros [= <-] _. cbn [fs_after files]. split; [reflexivity|].
  exists data. split; [reflexivity|]. split; [apply lookup_insert_eq|]. split.
  - rewrite lookup_insert_ne, lookup_delete_eq by congruence. reflexivity.
  - intros p Hp1 Hp2.
    rewrite lookup_insert_ne, !lookup_delete_ne, lookup_insert_ne by congruence.
    reflexivity.
Qed.

(** C4 as stated fails: a failing ffmpeg run that has already written
    part of its output leaves that file behind; nothing removes it. *)
Lemma adjust_failure_leaves_temp :
  ~ (forall flt f inputFile speed e o p out,
       adjustAudioSpeed false flt (FfmpegFail e o p) f inputFile speed = Some out ->
       files (fs_after out) !! inputFile = files f !! inputFile /\
       files (fs_after out) !! (inputFile +:+ ".tmp.mp3") = None).
Proof.
  intros H.
  destruct (adjustAudioSpeed false no_faults
              (FfmpegFail "exit status 1" "Conversion failed!" (Some "part"))
              (mkFS {["/temp/a.mp3" := "audio"]} ∅) "/temp/a.mp3" (3 # 2))
    as [out|] eqn:E; [|vm_compute in E; discriminate E].
  destruct (H _ _ _ _ _ _ _ _ E) as [_ Hgone].
  vm_compute in E. injection E as <-. vm_compute in Hgone. discriminate Hgone.
Qed.

(** C4, amended.  For a positive multiplier [adjustAudioSpeed] returns.
    If ffmpeg fails, or is not started because the context is cancelled,
    an error is returned, the original file and every other path but the
    temporary one are as before, and the temporary path holds whatever
    ffmpeg left there (it is not removed).  The original path changes only
    when ffmpeg succeeded; and when no error is returned it holds ffmpeg's
    output and the temporary path is gone. *)
Theorem adjust_replaces_only_after_success
    (ctx_done : bool) (flt : faults) (ff : ffmpeg_result) (f : FS)
    (inputFile : string) (speed : Q) :
  0 < speed ->
  exists out,
    adjustAudioSpeed ctx_done flt ff f inputFile speed = Some out /\
    (ctx_done = true \/ (exists e o p, ff = FfmpegFail e o p) ->
       is_Some (err_out out) /\
       files (fs_after out) !! inputFile = files f !! inputFile /\
       (forall p, p <> inputFile +:+ ".tmp.mp3" ->
          files (fs_after out) !! p = files f !! p) /\
       files (fs_after out) !! (inputFile +:+ ".tmp.mp3")
         = match ctx_done, ff with
           | false, FfmpegFail _ _ (Some data) => Some data
           | _, _ => files f !! (inputFile +:+ ".tmp.mp3")
           end) /\
    (files (fs_after out) !! inputFile <> files f !! inputFile ->
       ctx_done = false /\ exists data, ff = FfmpegOk data) /\
    (err_out out = None ->
       exists data, ff = FfmpegOk data /\
         files (fs_after out) !! inputFile = Some data /\
         files (fs_after out) !! (inputFile +:+ ".tmp.mp3") = None).
Proof.
  intros Hpos.
  destruct (adjustAudioSpeed_total ctx_done flt ff f inputFile speed Hpos) as [out E].
  exists out. split; [exact E|]. split; [|split].
  - intros Hfail.
    destruct (adjustAudioSpeed_failure _ _ _ _ _ _ _ E Hfail) as (He & Hother & Htemp).
    repeat split; [exact He | | exact Hother | exact Htemp].
    apply Hother. intros Heq. symmetry in Heq. exact (tempFile_ne _ Heq).
  - intros Hchanged.
    destruct ctx_done.
    + exfalso. apply Hchanged.
      destruct (adjustAudioSpeed_failure _ _ _ _ _ _ _ E (or_introl eq_refl))
        as (_ & Hother & _).
      apply Hother. intros Heq. symmetry in Heq. exact (tempFile_ne _ Heq).
    + split; [reflexivity|]. destruct ff as [data | e o p]; [eauto|].
      exfalso. apply Hchanged.
      destruct (adjustAudioSpeed_failure _ _ _ _ _ _ _ E
                  (or_intror (ex_intro _ e (ex_intro _ o (ex_intro _ p eq_refl)))))
        as (_ & Hother & _).
      apply Hother. intros Heq. symmetry in Heq. exact (tempFile_ne _ Heq).
  - intros Hok.
    destruct (adjustAudioSpeed_success _ _ _ _ _ _ _ E Hok)
      as (_ & data & -> & Hin & Htmp & _).
    eauto.
Qed.

Lemma adjust_replaces_only_after_success_witness :
  exists out,
    adjustAudioSpeed false no_faults (FfmpegOk "faster")
      (mkFS {["/temp/a.mp3" := "audio"]} ∅) "/temp/a.mp3" (3 # 2) = Some out /\
    (false = true \/ (exists e o p, FfmpegOk "faster" = FfmpegFail e o p) ->
       is_Some (err_out out) /\
       files (fs_after out) !! "/temp/a.mp3"
         = files (mkFS {["/temp/a.mp3" := "audio"]} ∅) !! "/temp/a.mp3" /\
       (forall p, p <> "/temp/a.mp3" +:+ ".tmp.mp3" ->
          files (fs_after out) !! p
            = files (mkFS {["/temp/a.mp3" := "audio"]} ∅) !! p) /\
       files (fs_after out) !! ("/temp/a.mp3" +:+ ".tmp.mp3")
         = files (mkFS {["/temp/a.mp3" := "audio"]} ∅)
             !! ("/temp/a.mp3" +:+ ".tmp.mp3")) /\
    (files (fs_after out) !! "/temp/a.mp3"
       <> files (mkFS {["/temp/a.mp3" := "audio"]} ∅) !! "/temp/a.mp3" ->
       false = false /\ exists data, FfmpegOk "faster" = FfmpegOk data) /\
    (err_out out = None ->
       exists data, FfmpegOk "faster" = FfmpegOk data /\
         files (fs_after out) !! "/temp/a.mp3" = Some data /\
         files (fs_after out) !! ("/temp/a.mp3" +:+ ".tmp.mp3") = None).
Proof.
  apply (adjust_replaces_only_after_success false no_faults (FfmpegOk "faster")
           (mkFS {["/temp/a.mp3" := "audio"]} ∅) "/temp/a.mp3" (3 # 2)).
  reflexivity.
Defined.

Example adjust_success_replaces :
  (fun out => (files (fs_after out) !! "/temp/a.mp3",
               files (fs_after out) !! "/temp/a.mp3.tmp.mp3",
               err_out out, spawned out))
    <$> adjustAudioSpeed false no_faults (FfmpegOk "faster")
          (mkFS {["/temp/a.mp3" := "audio"]} ∅) "/temp/a.mp3" 3
  = Some (Some "faster", None, None, Some "atempo=2.0,atempo=1.5000").
Proof. vm_compute. reflexivity. Qed.

Example adjust_failure_keeps_both :
  (fun out => (files (fs_after out) !! "/temp/a.mp3",
               files (fs_after out) !! "/temp/a.mp3.tmp.mp3"))
    <$> adjustAudioSpeed false no_faults
          (FfmpegFail "exit status 1" "Conversion failed!" (Some "part"))
          (mkFS {["/temp/a.mp3" := "audio"]} ∅) "/temp/a.mp3" 3
  = Some (Some "audio", Some "part").
Proof. vm_compute. reflexivity. Qed.

(** ** Moves across devices *)

(** [copyFile] reports success only after [Sync] has succeeded; the
    destination then holds the data of the source. *)
Lemma copyFile_ok flt f src dst f' :
  copyFile flt f src dst = (f', None) ->
  exists data,
    files f !! src = Some data /\
    files f' = <[dst := data]> (files f) /\
    dst ∈ synced f' /\ f_sync flt dst = None.
Proof.
  unfold copyFile.
  destruct (f_open flt src); [discriminate|].
  destruct (files f !! src) as [data|]; [|discriminate].
  destruct (f_create flt dst); [discriminate|].
  destruct (f_write flt dst); [discriminate|].
  destruct (f_sync flt dst) eqn:Hs; [discriminate|].
  intros [= <-]. exists data. cbn [files synced].
  repeat split; try reflexivity. set_solver.
Qed.

Lemma copyFile_fail_keeps_source flt f src dst f' e :
  src <> dst -> copyFile flt f src dst = (f', Some e) ->
  files f' !! src = files f !! src.
Proof.
  unfold copyFile. intros Hne.
  destruct (f_open flt src); [intros [= <- _]; reflexivity|].
  destruct (files f !! src) as [data|] eqn:Hsrc; [|intros [= <- _]; exact Hsrc].
  destruct (f_create flt dst); [intros [= <- _]; exact Hsrc|].
  destruct (f_write flt dst).
  { intros [= <- _]. cbn [files]. rewrite lookup_insert_ne by congruence. exact Hsrc. }
  destruct (f_sync flt dst); [|discriminate].
  intros [= <- _]. cbn [files]. rewrite lookup_insert_ne by congruence. exact Hsrc.
Qed.

Lemma prefixes_differ (src dst : string) :
  HasPrefix src TEMP_DIR = true -> HasPrefix dst OUTPUT_DIR = true -> src <> dst.
Proof.
  unfold TEMP_DIR, OUTPUT_DIR. intros H1 H2 ->.
  destruct dst as [|c1 [|c2 rest]]; cbn [HasPrefix] in H1, H2; try discriminate.
  - rewrite andb_false_r in H1. discriminate.
  - apply andb_true_iff in H1 as [_ H1]. apply andb_true_iff in H1 as [H1 _].
    apply andb_true_iff in H2 as [_ H2]. apply andb_true_iff in H2 as [H2 _].
    apply Ascii.eqb_eq in H1, H2. congruence.
Qed.

Section MoveProps.

Variable Join : string -> string -> string.

(** What [moveFile] does once [Rename] has failed with EXDEV. *)
Lemma moveFile_cross_device flt f filename :
  HasPrefix (Join TEMP_DIR filename) TEMP_DIR = true ->
  HasPrefix (Join OUTPUT_DIR filename) OUTPUT_DIR = true ->
  os_IsNotExist (os_Stat flt f (Join TEMP_DIR filename)) = false ->
  f_rename flt (Join TEMP_DIR filename) (Join OUTPUT_DIR filename) = Some EXDEV ->
  moveFile Join flt f filename =
    match copyFile flt f (Join TEMP_DIR filename) (Join OUTPUT_DIR filename) with
    | (fs2, Some copyErr) =>
        mkMoveOut fs2 [filename +:+ ": " +:+ error_text copyErr] false
    | (fs2, None) =>
        match os_Remove flt fs2 (Join TEMP_DIR filename) with
        | (fs3, Some removeErr) =>
            mkMoveOut fs3
              [filename +:+ ": copied but failed to remove source: "
                 +:+ error_text removeErr] true
        | (fs3, None) => mkMoveOut fs3 [] true
        end
    end.
Proof using Type.
  intros H1 H2 H3 H4. unfold moveFile. rewrite H1, H2, H3. cbn [negb orb].
  unfold os_Rename. rewrite H4. cbn match. reflexivity.
Qed.

End MoveProps.

(** C9 as stated fails: when the source cannot be removed after the copy,
    the file is still counted as moved and stays in the temp directory. *)
Lemma move_counted_with_source_left :
  let flt := mkFaults (fun _ => None) (fun _ _ => Some EXDEV)
                      (fun _ => Some EACCES) (fun _ => None) (fun _ => None)
                      (fun _ => None) (fun _ => None) in
  let f := mkFS {["/temp/a.mp3" := "audio"]} ∅ in
  exists f',
    moveFilesHandler join_name flt f (Some ["a.mp3"])
      = (f', MoveOK 1
               ["a.mp3: copied but failed to remove source: "
                +:+ "remove /temp/a.mp3: permission denied"]) /\
    files f' !! "/output/a.mp3" = Some "audio" /\
    files f' !! "/temp/a.mp3" = Some "audio".
Proof. eexists. vm_compute. repeat split; reflexivity. Qed.

(** C9, amended.  When [Rename] fails with EXDEV the file is copied and
    the source is then removed.  The file is counted as moved exactly when
    the copy, [Sync] included, succeeded; it then is at the destination
    with the data of the source, flushed.  The source is gone if removing
    it succeeded; if that failed the file is still counted as moved, the
    source stays, and the failure is reported in [errors].  A file that is
    not counted keeps its source and has an entry in [errors]. *)
Theorem move_across_devices
    (Join : string -> string -> string) (flt : faults) (f : FS) (filename : string) :
  let srcPath := Join TEMP_DIR filename in
  let dstPath := Join OUTPUT_DIR filename in
  HasPrefix srcPath TEMP_DIR = true ->
  HasPrefix dstPath OUTPUT_DIR = true ->
  os_IsNotExist (os_Stat flt f srcPath) = false ->
  f_rename flt srcPath dstPath = Some EXDEV ->
  let out := moveFile Join flt f filename in
  (mv_moved out = true <-> (copyFile flt f srcPath dstPath).2 = None) /\
  (mv_moved out = true ->
     exists data,
       files f !! srcPath = Some data /\
       files (mv_fs out) !! dstPath = Some data /\
       dstPath ∈ synced (mv_fs out) /\
       f_sync flt dstPath = None /\
       (f_remove flt srcPath = None ->
          files (mv_fs out) !! srcPath = None /\ mv_errors out = []) /\
       (forall e, f_remove flt srcPath = Some e ->
          files (mv_fs out) !! srcPath = Some data /\
          mv_errors out
            = [filename +:+ ": copied but failed to remove source: "
                 +:+ error_text (PathError "remove" srcPath e)])) /\
  (mv_moved out = false ->
     files (mv_fs out) !! srcPath = files f !! srcPath /\ mv_errors out <> []).
Proof.
  intros srcPath dstPath H1 H2 H3 H4 out.
  pose proof (prefixes_differ _ _ H1 H2) as Hne.
  subst out. rewrite (moveFile_cross_device Join flt f filename H1 H2 H3 H4).
  fold srcPath dstPath.
  destruct (copyFile flt f srcPath dstPath) as [fs2 [copyErr|]] eqn:Hcopy.
  - cbn [mv_moved mv_fs mv_errors snd]. split; [split; discriminate|].
    split; [discriminate|]. intros _. split; [|discriminate].
    eapply copyFile_fail_keeps_source; eassumption.
  - destruct (copyFile_ok _ _ _ _ _ Hcopy) as (data & Hsrc & Hfiles & Hsync & Hfs).
    assert (Hsrc2 : files fs2 !! srcPath = Some data).
    { rewrite Hfiles, lookup_insert_ne by congruence. exact Hsrc. }
    assert (Hdst2 : files fs2 !! dstPath = Some data).
    { rewrite Hfiles. apply lookup_insert_eq. }
    unfold os_Remove. rewrite Hsrc2.
    destruct (f_remove flt srcPath) as [e|] eqn:Hrm;
      cbn [mv_moved mv_fs mv_errors snd files synced].
    + split; [tauto|]. split; [|discriminate]. intros _. exists data.
      repeat split; try assumption; try discriminate; congruence.
    + split; [tauto|]. split; [|discriminate]. intros _. exists data.
      repeat split; try assumption; try discriminate.
      * rewrite lookup_delete_ne by congruence. exact Hdst2.
      * set_solver.
      * apply lookup_delete_eq.
Qed.

Definition cross_device : faults :=
  mkFaults (fun _ => None) (fun _ _ => Some EXDEV) (fun _ => None) (fun _ => None)
           (fun _ => None) (fun _ => None) (fun _ => None).

Lemma move_across_devices_witness :
  let f := mkFS {["/temp/a.mp3" := "audio"]} ∅ in
  let out := moveFile join_name cross_device f "a.mp3" in
  (mv_moved out = true <->
   (copyFile cross_device f "/temp/a.mp3" "/output/a.mp3").2 = None) /\
  (mv_moved out = true ->
     exists data,
       files f !! "/temp/a.mp3" = Some data /\
       files (mv_fs out) !! "/output/a.mp3" = Some data /\
       "/output/a.mp3" ∈ synced (mv_fs out) /\
       f_sync cross_device "/output/a.mp3" = None /\
       (f_remove cross_device "/temp/a.mp3" = None ->
          files (mv_fs out) !! "/temp/a.mp3" = None /\ mv_errors out = []) /\
       (forall e, f_remove cross_device "/temp/a.mp3" = Some e ->
          files (mv_fs out) !! "/temp/a.mp3" = Some data /\
          mv_errors out
            = ["a.mp3" +:+ ": copied but failed to remove source: "
                 +:+ error_text (PathError "remove" "/temp/a.mp3" e)])) /\
  (mv_moved out = false ->
     files (mv_fs out) !! "/temp/a.mp3" = files f !! "/temp/a.mp3" /\
     mv_errors out <> []).
Proof.
  apply (move_across_devices join_name cross_device
           (mkFS {["/temp/a.mp3" := "audio"]} ∅) "a.mp3").
  - reflexivity.
  - reflexivity.
  - vm_compute. reflexivity.
  - reflexivity.
Defined.

Example move_across_devices_ok :
  let f := mkFS {["/temp/a.mp3" := "audio"]} ∅ in
  (fun r => (files r.1 !! "/temp/a.mp3", files r.1 !! "/output/a.mp3", r.2))
    (moveFilesHandler join_name cross_device f (Some ["a.mp3"; "b.mp3"]))
  = (None, Some "audio", MoveOK 1 ["b.mp3: File not found in temp"]).
Proof. vm_compute. reflexivity. Qed.

(** ** The playlist transform loop *)

Definition playlist_3_before : list string := ["old.mp3"].
Definition playlist_3_after : list string := ["old.mp3"; "a.mp3"; "b.mp3"; "c.mp3"].
Definition playlist_3_answers : list answer :=
  [Listing playlist_3_before; ProcExit RunOk; Listing playlist_3_after;
   FfmpegEnds (FfmpegOk "a-faster");
   FfmpegEnds (FfmpegFail "exit status 1" "Conversion failed!" None);
   FfmpegEnds (FfmpegOk "c-faster")].
Definition playlist_3_files : FS :=
  mkFS {["/temp/old.mp3" := "old"; "/temp/a.mp3" := "a"; "/temp/b.mp3" := "b";
         "/temp/c.mp3" := "c"]} ∅.
Definition playlist_3_url : string := "https://www.youtube.com/playlist?list=PL1".

Definition playlist_3_end : sys :=
  drive no_faults 40 playlist_3_answers
    (mkSys (new_job "id-1" playlist_3_url (3 # 2) 0) playlist_3_files []
           (downloadTask join_name playlist_3_url (3 # 2))).

Example playlist_3_trace :
  (Status (job playlist_3_end), Message (job playlist_3_end),
   adjust_calls (events playlist_3_end), successes (events playlist_3_end))
  = (completed, "Downloaded 3 files with 1.5x speed",
     ["/temp/a.mp3"; "/temp/b.mp3"; "/temp/c.mp3"], 2%nat).
Proof. vm_compute. reflexivity. Qed.

Example playlist_3_events :
  events playlist_3_end
  = [EvSpawn "yt-dlp";
     EvSpawn "ffmpeg"; EvAdjust "/temp/a.mp3" (3 # 2) true;
     EvSpawn "ffmpeg"; EvAdjust "/temp/b.mp3" (3 # 2) false;
     EvPrint ("[WARN] Failed to adjust speed for b.mp3: "
              +:+ "ffmpeg failed: exit status 1, output: Conversion failed!" +:+ nl);
     EvSpawn "ffmpeg"; EvAdjust "/temp/c.mp3" (3 # 2) true;
     EvPrint (applied_line 2 3)].
Proof. vm_compute. reflexivity. Qed.

(** C5 as stated fails: with item 2 of 3 failing the job is completed, but
    its message counts the three downloaded files and does not mention the
    two successes. *)
Lemma playlist_message_counts_downloads :
  Status (job playlist_3_end) = completed /\
  successes (events playlist_3_end) = 2%nat /\
  Message (job playlist_3_end) = "Downloaded 3 files with 1.5x speed" /\
  Contains (Message (job playlist_3_end)) "2" = false.
Proof. vm_compute. repeat split; reflexivity. Qed.

Lemma adjust_calls_app evs1 evs2 :
  adjust_calls (evs1 ++ evs2) = adjust_calls evs1 ++ adjust_calls evs2.
Proof. unfold adjust_calls. apply omap_app. Qed.

Lemma successes_app evs1 evs2 :
  successes (evs1 ++ evs2) = (successes evs1 + successes evs2)%nat.
Proof. unfold successes. rewrite List.filter_app, length_app. reflexivity. Qed.

Lemma drive_tick flt n answers s :
  waits s = false -> todo s <> Return ->
  drive flt (S n) answers s = drive flt n answers (step flt Tick s).
Proof.
  intros Hw Ht. cbn [drive]. rewrite Hw. destruct (todo s); congruence.
Qed.

Lemma drive_answer flt n a answers s :
  waits s = true ->
  drive flt (S n) (a :: answers) s = drive flt n answers (step flt a s).
Proof. intros Hw. cbn [drive]. rewrite Hw. reflexivity. Qed.

Section PlaylistLoop.

Variable Join : string -> string -> string.
Variable flt : faults.
Variable speed : Q.
Variable newFiles : list string.

Hypothesis speed_pos : 0 < speed.
Hypothesis speed_not_1 : Qeq_bool speed 1 = false.

Definition playlist_message : string :=
  "Downloaded " +:+ Fmt.sprintf_d (length newFiles) +:+ " files with "
    +:+ speed_x speed +:+ " speed".

(** The loop alone: every remaining file is handed to [adjustAudioSpeed]
    in order, whatever the earlier calls returned; the line logged at the
    end counts the successes; the job ends completed. *)
Lemma process_files_drive rest : forall results i successCount j f evs,
  length results = length rest -> ctxDone j = false ->
  exists n j' f' evs',
    drive flt n (FfmpegEnds <$> results)
      (mkSys j f evs (process_files Join speed newFiles i successCount rest))
      = mkSys j' f' (evs ++ evs') Return /\
    Status j' = completed /\ Message j' = playlist_message /\
    adjust_calls evs' = Join TEMP_DIR <$> rest /\
    (successes evs' <= length rest)%nat /\
    EvPrint (applied_line (successCount + successes evs') (length newFiles)) ∈ evs'.
Proof using speed_pos speed_not_1.
  induction rest as [|filename rest IH]; intros results i successCount j f evs Hlen Hd.
  - destruct results; [|discriminate Hlen].
    exists 2%nat, (set_status completed playlist_message j), f,
           [EvPrint (applied_line successCount (length newFiles))].
    cbn [process_files fmap list_fmap].
    rewrite drive_tick by (reflexivity || discriminate).
    unfold step at 1. cbn [todo job fs events]. unfold complete_playlist.
    rewrite drive_tick by (reflexivity || discriminate).
    unfold step at 1. cbn [todo job fs events drive].
    rewrite speed_not_1. cbn [negb].
    repeat split; try reflexivity; cbn; try lia.
    rewrite Nat.add_0_r. apply list_elem_of_here.
  - destruct results as [|r results]; [discriminate Hlen|].
    injection Hlen as Hlen. cbn [process_files fmap list_fmap].
    set (msg := "Processing " +:+ _).
    destruct (adjustAudioSpeed_total false flt r f (Join TEMP_DIR filename) speed speed_pos)
      as [out Hout].
    assert (Hrun : forall n,
      drive flt (S (S (S n))) (FfmpegEnds r :: (FfmpegEnds <$> results))
        (mkSys j f evs (process_files Join speed newFiles i successCount (filename :: rest)))
      = drive flt n (FfmpegEnds <$> results)
          (mkSys (set_message msg j) (fs_after out)
             (evs ++ match spawned out with
                     | Some _ => [EvSpawn "ffmpeg"]
                     | None => []
                     end
                  ++ [EvAdjust (Join TEMP_DIR filename) speed
                        (bool_decide (err_out out = None))])
             (match err_out out with
              | Some e =>
                  Printf ("[WARN] Failed to adjust speed for " +:+ filename +:+ ": "
                            +:+ error_text e +:+ nl)
                    (process_files Join speed newFiles (i + 1) successCount rest)
              | None =>
                  process_files Join speed newFiles (i + 1) (successCount + 1) rest
              end))).
    { intros n. cbn [process_files].
      rewrite drive_tick by (reflexivity || discriminate).
      unfold step at 1. cbn [todo job fs events]. rewrite Hd.
      rewrite drive_tick by (reflexivity || discriminate).
      unfold step at 1. cbn [todo job fs events].
      rewrite drive_answer by reflexivity.
      unfold step at 1. cbn [todo job fs events set_message set_status ctxDone].
      rewrite Hd, Hout. reflexivity. }
    set (evs1 := match spawned out with Some _ => [EvSpawn "ffmpeg"] | None => [] end
                 ++ [EvAdjust (Join TEMP_DIR filename) speed
                       (bool_decide (err_out out = None))]) in *.
    assert (Hcalls1 : adjust_calls evs1 = [Join TEMP_DIR filename]).
    { subst evs1. destruct (spawned out); reflexivity. }
    assert (Hsucc1 : successes evs1
                     = match err_out out with Some _ => 0%nat | None => 1%nat end).
    { subst evs1. destruct (spawned out); destruct (err_out out); reflexivity. }
    destruct (err_out out) as [e|] eqn:Herr.
    + destruct (IH results (i + 1)%nat successCount (set_message msg j) (fs_after out)
                  ((evs ++ evs1) ++ [EvPrint ("[WARN] Failed to adjust speed for "
                      +:+ filename +:+ ": " +:+ error_text e +:+ nl)]) Hlen Hd)
        as (n & j' & f' & evs' & Hdrive & Hst & Hmsg & Hcalls & Hsucc & Hline).
      exists (S (S (S (S n)))), j', f',
             (evs1 ++ [EvPrint ("[WARN] Failed to adjust speed for "
                      +:+ filename +:+ ": " +:+ error_text e +:+ nl)] ++ evs').
      rewrite Hrun, app_assoc.
      rewrite drive_tick by (reflexivity || discriminate).
      unfold step at 1. cbn [todo job fs events].
      rewrite Hdrive. rewrite !adjust_calls_app, !successes_app, Hcalls1, Hsucc1, Hcalls.
      rewrite <- !app_assoc.
      repeat split; try assumption; try reflexivity.
      * cbn. lia.
      * cbn [successes List.filter is_adjust_ok length Nat.add].
        apply elem_of_app. right. apply elem_of_app. right. exact Hline.
    + destruct (IH results (i + 1)%nat (successCount + 1)%nat (set_message msg j)
                  (fs_after out) (evs ++ evs1) Hlen Hd)
        as (n & j' & f' & evs' & Hdrive & Hst & Hmsg & Hcalls & Hsucc & Hline).
      exists (S (S (S n))), j', f', (evs1 ++ evs').
      rewrite Hrun, app_assoc, Hdrive.
      rewrite !adjust_calls_app, !successes_app, Hcalls1, Hsucc1, Hcalls.
      rewrite <- !app_assoc.
      repeat split; try assumption; try reflexivity.
      * cbn. lia.
      * apply elem_of_app. right.
        replace (successCount + (1 + successes evs'))%nat
          with (successCount + 1 + successes evs')%nat by lia.
        exact Hline.
Qed.

End PlaylistLoop.

(** C5, amended.  In the playlist workflow with a positive multiplier
    other than 1.0, a successful download and no cancellation, the task
    run on its own returns: [adjustAudioSpeed] has been called on every
    new file, in order, whatever the earlier calls returned; the job is
    completed; its message gives the number of new files and the
    multiplier; and the number of successful transforms is in the line
    logged when the loop ends, not in the message. *)
Theorem playlist_transform_continues
    (Join : string -> string -> string) (flt : faults) (job0 : DownloadStatus)
    (f : FS) (url : string) (speed : Q)
    (filesBefore filesAfter : list string) (results : list ffmpeg_result) :
  isPlaylist url = true -> 0 < speed -> ~ speed == 1 -> ctxDone job0 = false ->
  let newFiles := filter (fun name => name ∉ filesBefore) filesAfter in
  length results = length newFiles ->
  exists n,
    let s := drive flt n
               ([Listing filesBefore; ProcExit RunOk; Listing filesAfter]
                  ++ (FfmpegEnds <$> results))
               (mkSys job0 f [] (downloadTask Join url speed)) in
    todo s = Return /\
    Status (job s) = completed /\
    Message (job s)
      = "Downloaded " +:+ Fmt.sprintf_d (length newFiles) +:+ " files with "
          +:+ speed_x speed +:+ " speed" /\
    adjust_calls (events s) = Join TEMP_DIR <$> newFiles /\
    (successes (events s) <= length newFiles)%nat /\
    ((0 < length newFiles)%nat ->
     EvPrint (applied_line (successes (events s)) (length newFiles)) ∈ events s).
Proof.
  intros Hpl Hpos Hne Hd newFiles Hlen.
  assert (Hs : Qeq_bool speed 1 = false).
  { destruct (Qeq_bool speed 1) eqn:E; [|reflexivity].
    exfalso. apply Hne. apply Qeq_bool_iff. exact E. }
  set (jobX := set_cmd (Some Exited) (set_cmd (Some Running) (set_cmd (Some NotStarted)
                 (set_message "Downloading playlist..."
                    (set_status downloading "Starting download..." job0))))).
  assert (HdX : ctxDone jobX = false) by exact Hd.
  assert (Hpre : forall n,
    drive flt (S (S (S (S (S (S (S (S n))))))))
      ([Listing filesBefore; ProcExit RunOk; Listing filesAfter]
         ++ (FfmpegEnds <$> results))
      (mkSys job0 f [] (downloadTask Join url speed))
    = drive flt n (FfmpegEnds <$> results)
        (mkSys jobX f [EvSpawn "yt-dlp"]
           (if bool_decide (0 < length newFiles)%nat then
              Locked (set_status processing
                        ("Applying " +:+ speed_x speed +:+ " speed to "
                           +:+ Fmt.sprintf_d (length newFiles) +:+ " files..."))
                (process_files Join speed newFiles 0 0 newFiles)
            else complete_playlist speed newFiles))).
  { intros n. unfold downloadTask. cbn [app].
    rewrite drive_tick by (reflexivity || discriminate).
    unfold step at 1. cbn [todo job fs events]. rewrite Hd, Hpl.
    rewrite drive_tick by (reflexivity || discriminate).
    unfold step at 1. cbn [todo job fs events]. unfold playlist_task.
    rewrite drive_tick by (reflexivity || discriminate).
    unfold step at 1. cbn [todo job fs events].
    rewrite drive_tick by (reflexivity || discriminate).
    unfold step at 1. cbn [todo job fs events].
    rewrite drive_answer by reflexivity.
    unfold step at 1. cbn [todo job fs events].
    rewrite drive_tick by (reflexivity || discriminate).
    unfold step at 1.
    cbn [todo job fs events ctxDone set_cmd set_message set_status].
    rewrite Hd. cbn [app].
    rewrite drive_answer by reflexivity.
    unfold step at 1. cbn [todo job fs events cmd set_cmd].
    rewrite decide_False by discriminate.
    rewrite drive_answer by reflexivity.
    unfold step at 1. cbn [todo job fs events]. rewrite Hs. cbn [negb andb].
    reflexivity. }
  destruct (decide (0 < length newFiles)%nat) as [Hsome|Hnone].
  - destruct (process_files_drive Join flt speed newFiles Hpos Hs newFiles results 0%nat
                0%nat (set_status processing
                         ("Applying " +:+ speed_x speed +:+ " speed to "
                            +:+ Fmt.sprintf_d (length newFiles) +:+ " files...") jobX)
                f [EvSpawn "yt-dlp"] Hlen HdX)
      as (n & j' & f' & evs' & Hdrive & Hst & Hmsg & Hcalls & Hsucc & Hline).
    assert (Hfin :
      drive flt (S (S (S (S (S (S (S (S (S n)))))))))
        ([Listing filesBefore; ProcExit RunOk; Listing filesAfter]
           ++ (FfmpegEnds <$> results))
        (mkSys job0 f [] (downloadTask Join url speed))
      = mkSys j' f' ([EvSpawn "yt-dlp"] ++ evs') Return).
    { rewrite Hpre, bool_decide_eq_true_2 by exact Hsome.
      rewrite drive_tick by (reflexivity || discriminate).
      unfold step at 1. cbn [todo job fs events]. exact Hdrive. }
    exists (S (S (S (S (S (S (S (S (S n))))))))). cbn zeta. rewrite Hfin.
    cbn [todo job events]. rewrite adjust_calls_app, successes_app.
    repeat split; try assumption.
    intros _. apply elem_of_app. right. exact Hline.
  - assert (Hnil : newFiles = []) by (destruct newFiles; [reflexivity | cbn in Hnone; lia]).
    assert (Hfin :
      drive flt 9
        ([Listing filesBefore; ProcExit RunOk; Listing filesAfter]
           ++ (FfmpegEnds <$> results))
        (mkSys job0 f [] (downloadTask Join url speed))
      = mkSys (set_status completed
                 ("Downloaded " +:+ Fmt.sprintf_d (length newFiles) +:+ " files with "
                    +:+ speed_x speed +:+ " speed") jobX)
              f [EvSpawn "yt-dlp"] Return).
    { rewrite Hpre, bool_decide_eq_false_2 by exact Hnone.
      unfold complete_playlist.
      rewrite drive_tick by (reflexivity || discriminate).
      unfold step at 1. cbn [todo job fs events drive]. rewrite Hs.
      reflexivity. }
    exists 9%nat. cbn zeta. rewrite Hfin. cbn [todo job events]. rewrite Hnil.
    repeat split; try reflexivity; cbn; lia.
Qed.

Definition playlist_3_results : list ffmpeg_result :=
  [FfmpegOk "a-faster"; FfmpegFail "exit status 1" "Conversion failed!" None;
   FfmpegOk "c-faster"].

Lemma playlist_transform_continues_witness :
  exists n,
    let s := drive no_faults n
               ([Listing playlist_3_before; ProcExit RunOk; Listing playlist_3_after]
                  ++ (FfmpegEnds <$> playlist_3_results))
               (mkSys (new_job "id-1" playlist_3_url (3 # 2) 0) playlist_3_files []
                      (downloadTask join_name playlist_3_url (3 # 2))) in
    todo s = Return /\
    Status (job s) = completed /\
    Message (job s)
      = "Downloaded "
          +:+ Fmt.sprintf_d
                (length (filter (fun name => name ∉ playlist_3_before) playlist_3_after))
          +:+ " files with " +:+ speed_x (3 # 2) +:+ " speed" /\
    adjust_calls (events s)
      = join_name TEMP_DIR
          <$> filter (fun name => name ∉ playlist_3_before) playlist_3_after /\
    (successes (events s)
     <= length (filter (fun name => name ∉ playlist_3_before) playlist_3_after))%nat /\
    ((0 < length (filter (fun name => name ∉ playlist_3_before) playlist_3_after))%nat ->
     EvPrint (applied_line (successes (events s))
                (length (filter (fun name => name ∉ playlist_3_before)
                           playlist_3_after)))
       ∈ events s).
Proof.
  refine (playlist_transform_continues join_name no_faults
            (new_job "id-1" playlist_3_url (3 # 2) 0) playlist_3_files
            playlist_3_url (3 # 2) playlist_3_before playlist_3_after
            playlist_3_results _ _ _ _ _).
  - vm_compute. reflexivity.
  - reflexivity.
  - unfold Qeq. cbn. discriminate.
  - reflexivity.
  - vm_compute. reflexivity.
Defined.

(** ** What the task's own last step sets stays *)

Definition finished (st : status) : Prop := st = completed \/ st = error.

(** Every critical section that can leave the job [completed] or [error]
    is the last step of the task. *)
Inductive ends_after_result : task -> Prop :=
  | ear_Return : ends_after_result Return
  | ear_Select k : (forall b, ends_after_result (k b)) -> ends_after_result (Select k)
  | ear_Locked_last body : ends_after_result (Locked body Return)
  | ear_Locked_keeps body k :
      (forall j, ~ finished (Status j) -> ~ finished (Status (body j))) ->
      ends_after_result k -> ends_after_result (Locked body k)
  | ear_GetMP3Files dir k :
      (forall names, ends_after_result (k names)) -> ends_after_result (GetMP3Files dir k)
  | ear_Run k : (forall r, ends_after_result (k r)) -> ends_after_result (Run k)
  | ear_Wait k : (forall r, ends_after_result (k r)) -> ends_after_result (Wait k)
  | ear_DownloadSingleVideo v d k :
      (forall r, ends_after_result (k r)) -> ends_after_result (DownloadSingleVideo v d k)
  | ear_Newest names k :
      (forall path, ends_after_result (k path)) -> ends_after_result (Newest names k)
  | ear_AdjustAudioSpeed f sp k :
      (forall e, ends_after_result (k e)) -> ends_after_result (AdjustAudioSpeed f sp k)
  | ear_Printf line k : ends_after_result k -> ends_after_result (Printf line k).

Lemma unfinished_set_status st msg j :
  st <> completed -> st <> error -> ~ finished (Status (set_status st msg j)).
Proof. intros H1 H2 [H|H]; cbn in H; congruence. Qed.

Lemma process_files_ends Join speed newFiles rest : forall i successCount,
  ends_after_result (process_files Join speed newFiles i successCount rest).
Proof.
  induction rest as [|filename rest IH]; intros i successCount; cbn [process_files].
  - constructor. apply ear_Locked_last.
  - constructor. intros [|]; [apply ear_Locked_last|].
    apply ear_Locked_keeps; [intros j Hj; exact Hj|].
    constructor. intros [e|]; [constructor|]; apply IH.
Qed.

Lemma finish_single_ends speed filePath : ends_after_result (finish_single speed filePath).
Proof.
  unfold finish_single, complete_single. destruct (negb (Qeq_bool speed 1)).
  - apply ear_Locked_keeps.
    + intros j _. apply unfinished_set_status; discriminate.
    + constructor. intros [e|]; apply ear_Locked_last.
  - apply ear_Locked_last.
Qed.

Lemma downloadTask_ends Join url speed :
  ends_after_result (downloadTask Join url speed).
Proof.
  unfold downloadTask. constructor. intros [|]; [apply ear_Locked_last|].
  apply ear_Locked_keeps.
  { intros j _. apply unfinished_set_status; discriminate. }
  destruct (isPlaylist url).
  - unfold playlist_task.
    apply ear_Locked_keeps; [intros j Hj; exact Hj|].
    apply ear_Locked_keeps; [intros j Hj; exact Hj|].
    constructor. intros filesBefore. constructor. intros [|err stderr].
    + constructor. intros filesAfter. cbn zeta.
      destruct (negb (Qeq_bool speed 1) && bool_decide _).
      * apply ear_Locked_keeps.
        -- intros j _. apply unfinished_set_status; discriminate.
        -- apply process_files_ends.
      * apply ear_Locked_last.
    + apply ear_Locked_last.
  - unfold single_task.
    apply ear_Locked_keeps; [intros j Hj; exact Hj|].
    constructor. intros [filePath|e]; [apply finish_single_ends|].
    apply ear_Locked_keeps; [intros j Hj; exact Hj|].
    constructor. intros [|err stderr]; [|apply ear_Locked_last].
    constructor. intros names. destruct (decide _); [apply ear_Locked_last|].
    constructor. intros path. apply finish_single_ends.
Qed.

Definition result_inv (s : sys) : Prop :=
  ends_after_result (todo s) /\ (finished (Status (job s)) -> todo s = Return).

Lemma result_inv_act flt s x : result_inv s -> result_inv (act flt s x).
Proof.
  intros [Ht Hf]. destruct x as [|a]; cbn [act].
  - destruct (active_dec (Status (job s))) as [Ha|Hn].
    + destruct (cancelJob_accepts _ Ha) as (job' & evs & -> & Hc & _).
      split; cbn [todo job]; [exact Ht|].
      rewrite Hc. intros [H|H]; discriminate.
    + rewrite (cancelJob_rejects _ Hn). split; cbn [todo job]; assumption.
  - destruct s as [j f evs t]; cbn [job todo] in *.
    destruct Ht as [ | k Hk | body | body k Hb Hk | dir k Hk | k Hk | k Hk | v d k Hk
                   | names k Hk | inputFile sp k Hk | line k Hk ];
      unfold step, result_inv; cbn [todo job fs events].
    + split; [constructor | auto].
    + split; [apply Hk | intros H; specialize (Hf H); discriminate].
    + split; [constructor | reflexivity].
    + split; [exact Hk|]. intros H. exfalso.
      apply (Hb j); [|exact H]. intros H'. specialize (Hf H'). discriminate.
    + destruct a; cbn [todo job];
        (split; [first [apply Hk | constructor; exact Hk]
                | intros H; specialize (Hf H); discriminate]).
    + destruct (ctxDone j); cbn [todo job];
        (split; [first [apply Hk | constructor; exact Hk]
                | intros H; specialize (Hf H); discriminate]).
    + destruct a; cbn [todo job];
        (split; [first [apply Hk | constructor; exact Hk]
                | intros H; specialize (Hf H); discriminate]).
    + destruct (ctxDone j); cbn [todo job]; [|destruct a; cbn [todo job]];
        (split; [first [apply Hk | constructor; exact Hk]
                | intros H; specialize (Hf H); discriminate]).
    + destruct a; cbn [todo job];
        (split; [first [apply Hk | constructor; exact Hk]
                | intros H; specialize (Hf H); discriminate]).
    + destruct a; cbn [todo job];
        try (split; [constructor; exact Hk
                    | intros H; specialize (Hf H); discriminate]).
      destruct (adjustAudioSpeed _ _ _ _ _ _); cbn [todo job];
        (split; [first [apply Hk | constructor; exact Hk]
                | intros H; specialize (Hf H); discriminate]).
    + split; [exact Hk | intros H; specialize (Hf H); discriminate].
Qed.

Lemma result_inv_run flt xs : forall s, result_inv s -> result_inv (run flt xs s).
Proof.
  induction xs as [|x xs IH]; intros s Hs; cbn; [assumption|].
  apply IH, result_inv_act, Hs.
Qed.

Lemma returned_finished_stays flt xs : forall s,
  todo s = Return -> finished (Status (job s)) ->
  job (run flt xs s) = job s.
Proof.
  induction xs as [|x xs IH]; intros s Ht Hf; [reflexivity|].
  change (job (run flt xs (act flt s x)) = job s).
  assert (Hstep : act flt s x = mkSys (job s) (fs s) (events s) Return).
  { destruct x as [|a]; cbn [act].
    - rewrite cancelJob_rejects.
      + rewrite app_nil_r, <- Ht. reflexivity.
      + unfold active. destruct Hf as [-> | ->]; intuition discriminate.
    - unfold step. rewrite Ht. destruct s; cbn in *; congruence. }
  rewrite Hstep. rewrite IH; cbn [todo job]; auto.
Qed.

(** The terminal statuses the task sets itself do stay: once a job shows
    [completed] or [error], its task has returned and nothing that is
    scheduled afterwards changes the job. *)
Lemma completed_and_error_are_final Join flt id url speed now f xs ys :
  let s := run flt xs (mkSys (new_job id url speed now) f []
                         (downloadTask Join url speed)) in
  finished (Status (job s)) -> job (run flt ys s) = job s.
Proof.
  intros s Hf.
  assert (Hinv : result_inv s).
  { apply result_inv_run. split; cbn [todo job new_job Status].
    - apply downloadTask_ends.
    - intros [H|H]; discriminate. }
  apply returned_finished_stays; [apply Hinv, Hf | exact Hf].
Qed.

(** A second request that is accepted: the first one arrived just after
    the task's poll of the context, the task then overwrote [cancelled]
    with [downloading], and the guard of the handler sees an active job
    again.  The cancel function is called twice; no process is running. *)
Example second_request_after_overwrite :
  let url := "https://youtu.be/x" in
  let s := run no_faults [Step Tick; Cancel; Step Tick; Cancel]
             (mkSys (new_job "id-1" url 1 0) (mkFS ∅ ∅) []
                    (downloadTask join_name url 1)) in
  events s = [EvCancelCtx; EvCancelCtx] /\ Status (job s) = cancelled.
Proof. vm_compute. split; reflexivity. Qed.

(** * Further properties of the code *)

(** ** The filter chain *)

Lemma HasPrefix_nil s : HasPrefix s "" = true.
Proof. destruct s; reflexivity. Qed.

Lemma HasPrefix_append p t : HasPrefix (p +:+ t) p = true.
Proof.
  induction p as [|c p IH]; [apply HasPrefix_nil|].
  change (Ascii.eqb c c && HasPrefix (p +:+ t) p = true).
  rewrite Ascii.eqb_refl. exact IH.
Qed.

Lemma append_assoc (a b c : string) : (a +:+ b) +:+ c = a +:+ (b +:+ c).
Proof.
  induction a as [|x a IH]; [reflexivity|].
  change (String x ((a +:+ b) +:+ c) = String x (a +:+ (b +:+ c))).
  f_equal. exact IH.
Qed.

Lemma filterChain_prefix filters :
  filters <> [] -> HasPrefix (filterChain filters) "atempo=" = true.
Proof.
  unfold filterChain. destruct filters as [|s rest]; [congruence|]. intros _.
  cbn [fmap list_fmap join].
  assert (Hr : exists t, render s = "atempo=" +:+ t).
  { destruct s; cbn [render]; [exists "2.0" | exists "0.5" | eexists]; reflexivity. }
  destruct Hr as [t ->]. destruct (render <$> rest);
    rewrite ?append_assoc; apply HasPrefix_append.
Qed.

(** X1. For every positive multiplier the chain ends with the printed
    remainder, preceded by a run of one literal stage only: the tests
    [remaining > 1.0] and [remaining < 1.0] that follow the loops never
    fail, so the filter expression handed to ffmpeg is never empty. *)
Theorem tempo_chain_never_empty (m : Q) :
  0 < m ->
  exists k lit r,
    (lit = Lit2 \/ lit = LitHalf) /\
    (forall fuel, (enough_fuel m <= fuel)%nat ->
       atempoFilters fuel m = Some (replicate k lit ++ [Fmt4 r])) /\
    1 # 2 <= r <= 2 /\
    HasPrefix (filterChain (replicate k lit ++ [Fmt4 r])) "atempo=" = true.
Proof.
  intros Hpos.
  destruct (atempoFilters_total m (enough_fuel m) Hpos (Nat.le_refl _)) as [fs Hfs].
  pose proof (atempoFilters_shape _ _ _ Hfs) as Hshape.
  assert (Hmono : forall fuel, (enough_fuel m <= fuel)%nat ->
                    atempoFilters fuel m = Some fs).
  { intros fuel Hfuel. eapply atempoFilters_mono; eassumption. }
  destruct Hshape as [H1 H2 | k r Hm Hr H1 H2 | k r Hm Hr H1 H2].
  - exists O, Lit2, m. repeat split; auto.
    apply filterChain_prefix. discriminate.
  - exists k, Lit2, r. repeat split; auto; try lra.
    apply filterChain_prefix. destruct (replicate k Lit2); discriminate.
  - exists k, LitHalf, r. repeat split; auto; try lra.
    apply filterChain_prefix. destruct (replicate k LitHalf); discriminate.
Qed.

Lemma tempo_chain_never_empty_witness :
  exists k lit r,
    (lit = Lit2 \/ lit = LitHalf) /\
    (forall fuel, (enough_fuel 4 <= fuel)%nat ->
       atempoFilters fuel 4 = Some (replicate k lit ++ [Fmt4 r])) /\
    1 # 2 <= r <= 2 /\
    HasPrefix (filterChain (replicate k lit ++ [Fmt4 r])) "atempo=" = true.
Proof. apply (tempo_chain_never_empty 4). reflexivity. Defined.

Example filterChain_4 :
  filterChain <$> atempoFilters 5 4 = Some "atempo=2.0,atempo=2.0000".
Proof. vm_compute. reflexivity. Qed.

(** X2. A negative multiplier is not rejected at submission: it is stored
    and passed to the task as it is.  For a multiplier that is zero or
    negative the second loop of [adjustAudioSpeed] never ends, whatever
    number of iterations is allowed, so the call does not return. *)
Theorem negative_speed_accepted_and_diverges (m : Q) :
  m <= 0 ->
  (m < 0 ->
   forall downloads url uuid now, url <> "" ->
     downloadHandler downloads (Json (Some url) (Some m)) uuid now
       = (<[uuid := new_job uuid url m now]> downloads, Some (url, m, uuid), OK uuid)) /\
  (forall fuel, atempoFilters fuel m = None) /\
  (forall ctx_done flt ff f inputFile,
     adjustAudioSpeed ctx_done flt ff f inputFile m = None).
Proof.
  intros Hle. split; [|split].
  - intros Hneg downloads url uuid now Hurl.
    unfold downloadHandler, bind_download, default, id.
    rewrite bool_decide_eq_false_2 by exact Hurl.
    destruct (Qeq_bool m 0) eqn:E; [|reflexivity].
    apply Qeq_bool_iff in E. lra.
  - intros fuel. apply atempoFilters_diverges. exact Hle.
  - intros ctx_done flt ff f inputFile. unfold adjustAudioSpeed.
    rewrite atempoFilters_diverges by exact Hle. reflexivity.
Qed.

Lemma negative_speed_accepted_and_diverges_witness :
  ((forall downloads url uuid now, url <> "" ->
      downloadHandler downloads (Json (Some url) (Some (-1))) uuid now
        = (<[uuid := new_job uuid url (-1) now]> downloads,
           Some (url, -1, uuid), OK uuid)) /\
   (forall fuel, atempoFilters fuel (-1) = None) /\
   (forall ctx_done flt ff f inputFile,
      adjustAudioSpeed ctx_done flt ff f inputFile (-1) = None)) /\
  ((forall fuel, atempoFilters fuel 0 = None) /\
   (forall ctx_done flt ff f inputFile,
      adjustAudioSpeed ctx_done flt ff f inputFile 0 = None)).
Proof.
  split.
  - destruct (negative_speed_accepted_and_diverges (-1)) as (H1 & H2 & H3).
    + discriminate.
    + split; [apply H1; reflexivity | split; assumption].
  - apply (negative_speed_accepted_and_diverges 0). discriminate.
Defined.

(** ** A task with a negative multiplier *)

Definition single_download_done (filePath : string) : list action :=
  [Step Tick; Step Tick; Step Tick; Step (Fetched (inl filePath)); Step Tick].

(** The task sits in a call of [adjustAudioSpeed] on [filePath]. *)
Definition in_transform (filePath : string) (speed : Q) (f : FS) (s : sys) : Prop :=
  (exists k, todo s = AdjustAudioSpeed filePath speed k) /\
  (Status (job s) = processing \/ Status (job s) = cancelled) /\
  fs s = f.

Lemma in_transform_act flt filePath speed f s x :
  speed <= 0 -> in_transform filePath speed f s ->
  in_transform filePath speed f (act flt s x).
Proof.
  intros Hneg ([k Hk] & Hst & Hf). destruct x as [|a]; cbn [act].
  - destruct (active_dec (Status (job s))) as [Ha|Hn].
    + destruct (cancelJob_accepts _ Ha) as (job' & evs & -> & Hst' & _).
      unfold in_transform. cbn [todo job fs]. eauto.
    + rewrite (cancelJob_rejects _ Hn). unfold in_transform. cbn [todo job fs]. eauto.
  - assert (Hstep : step flt a s = s).
    { unfold step. rewrite Hk. destruct a; try reflexivity.
      unfold adjustAudioSpeed. rewrite atempoFilters_diverges by exact Hneg.
      reflexivity. }
    rewrite Hstep. unfold in_transform. eauto.
Qed.

Lemma in_transform_run flt filePath speed f xs : forall s,
  speed <= 0 -> in_transform filePath speed f s ->
  in_transform filePath speed f (run flt xs s).
Proof.
  induction xs as [|x xs IH]; intros s Hneg Hs; [exact Hs|].
  rewrite run_cons. apply IH; [exact Hneg|]. apply in_transform_act; assumption.
Qed.

(** X3. A single-video job with a negative multiplier never finishes: once
    the download is done the task is in [adjustAudioSpeed] for good,
    whatever is scheduled afterwards, and the job shows [processing] (or
    [cancelled] after a request), never [completed] or [error]. *)
Theorem negative_speed_job_never_finishes
    (Join : string -> string -> string) (flt : faults) (id url filePath : string)
    (speed : Q) (now : Z) (f : FS) (xs : list action) :
  speed < 0 -> isPlaylist url = false ->
  let s := run flt (single_download_done filePath ++ xs)
             (mkSys (new_job id url speed now) f [] (downloadTask Join url speed)) in
  (exists k, todo s = AdjustAudioSpeed filePath speed k) /\
  (Status (job s) = processing \/ Status (job s) = cancelled) /\
  fs s = f.
Proof.
  intros Hneg Hpl s. subst s. rewrite run_app.
  assert (Hs : Qeq_bool speed 1 = false).
  { destruct (Qeq_bool speed 1) eqn:E; [|reflexivity]. apply Qeq_bool_iff in E. lra. }
  apply in_transform_run; [lra|].
  unfold single_download_done, downloadTask.
  rewrite run_cons. cbn [act]. unfold step at 1. cbn [todo job fs events new_job ctxDone].
  rewrite run_cons. cbn [act]. unfold step at 1. cbn [todo job fs events].
  rewrite Hpl. unfold single_task.
  rewrite run_cons. cbn [act]. unfold step at 1. cbn [todo job fs events].
  rewrite run_cons. cbn [act]. unfold step at 1.
  cbn [todo job fs events ctxDone set_message set_status].
  unfold finish_single. rewrite Hs. cbn [negb].
  rewrite run_cons. cbn [act]. unfold step at 1. cbn [todo job fs events run foldl].
  unfold in_transform. cbn [todo job fs Status set_status]. eauto.
Qed.

Lemma negative_speed_job_never_finishes_witness :
  let s := run no_faults
             (single_download_done "/temp/a.mp3"
                ++ [Step (FfmpegEnds (FfmpegOk "x")); Cancel; Step Tick])
             (mkSys (new_job "id-1" "https://youtu.be/x" (-2) 0) (mkFS ∅ ∅) []
                    (downloadTask join_name "https://youtu.be/x" (-2))) in
  (exists k, todo s = AdjustAudioSpeed "/temp/a.mp3" (-2) k) /\
  (Status (job s) = processing \/ Status (job s) = cancelled) /\
  fs s = mkFS ∅ ∅.
Proof.
  apply (negative_speed_job_never_finishes join_name no_faults "id-1"
           "https://youtu.be/x" "/temp/a.mp3" (-2) 0 (mkFS ∅ ∅)).
  - reflexivity.
  - vm_compute. reflexivity.
Defined.

(** ** What the post-processor can touch *)

(** X4. Whatever ffmpeg and the file operations do, [adjustAudioSpeed]
    changes no path other than the input file and its temporary sibling
    [inputFile + ".tmp.mp3"]. *)
Theorem adjust_touches_two_paths
    (ctx_done : bool) (flt : faults) (ff : ffmpeg_result) (f : FS)
    (inputFile : string) (speed : Q) (out : adjust_out) (p : string) :
  adjustAudioSpeed ctx_done flt ff f inputFile speed = Some out ->
  p <> inputFile -> p <> inputFile +:+ ".tmp.mp3" ->
  files (fs_after out) !! p = files f !! p.
Proof.
  unfold adjustAudioSpeed. destruct (atempoFilters _ _); [|discriminate].
  intros H Hp1 Hp2. destruct ctx_done; [injection H as <-; reflexivity|].
  destruct ff as [data | e o [part|]]; try (injection H as <-; cbn [fs_after]).
  - revert H. unfold os_Remove, os_Rename, write_file. cbn [files synced].
    destruct (f_remove flt inputFile).
    { intros [= <-]. cbn [fs_after files]. apply lookup_insert_ne. congruence. }
    destruct (<[_ := data]> (files f) !! inputFile).
    2: { intros [= <-]. cbn [fs_after files]. apply lookup_insert_ne. congruence. }
    destruct (f_rename flt _ inputFile).
    { intros [= <-]. cbn [fs_after files].
      rewrite lookup_delete_ne, lookup_insert_ne by congruence. reflexivity. }
    pose proof (tempFile_ne inputFile) as Hne. cbn [files synced].
    rewrite (lookup_delete_ne _ inputFile (inputFile +:+ ".tmp.mp3")) by congruence.
    rewrite lookup_insert_eq.
    intros [= <-]. cbn [fs_after files].
    rewrite lookup_insert_ne, !lookup_delete_ne, lookup_insert_ne by congruence.
    reflexivity.
  - unfold write_file. cbn [files]. apply lookup_insert_ne. congruence.
  - reflexivity.
Qed.

Lemma adjust_touches_two_paths_witness :
  exists out,
    adjustAudioSpeed false no_faults (FfmpegOk "faster")
      (mkFS {["/temp/a.mp3" := "a"; "/temp/b.mp3" := "b"]} ∅) "/temp/a.mp3" 2
      = Some out /\
    files (fs_after out) !! "/temp/b.mp3"
      = files (mkFS {["/temp/a.mp3" := "a"; "/temp/b.mp3" := "b"]} ∅) !! "/temp/b.mp3".
Proof.
  destruct (adjustAudioSpeed false no_faults (FfmpegOk "faster")
              (mkFS {["/temp/a.mp3" := "a"; "/temp/b.mp3" := "b"]} ∅) "/temp/a.mp3" 2)
    as [out|] eqn:H; [|vm_compute in H; discriminate H].
  exists out. split; [reflexivity|].
  apply (adjust_touches_two_paths false no_faults (FfmpegOk "faster")
           (mkFS {["/temp/a.mp3" := "a"; "/temp/b.mp3" := "b"]} ∅)
           "/temp/a.mp3" 2 out "/temp/b.mp3" H); discriminate.
Defined.

(** X5. The replacement is not atomic.  After a successful ffmpeg run,
    if removing the original fails the call returns an error with the
    original intact and the processed audio left at the temporary path;
    if the removal succeeds and the rename fails, it returns an error with
    the original gone and the processed audio still at the temporary
    path. *)
Theorem adjust_replace_not_atomic
    (flt : faults) (f : FS) (inputFile data : string) (speed : Q) (out : adjust_out) :
  adjustAudioSpeed false flt (FfmpegOk data) f inputFile speed = Some out ->
  is_Some (err_out out) ->
  files (fs_after out) !! (inputFile +:+ ".tmp.mp3") = Some data /\
  (f_remove flt inputFile <> None \/ files f !! inputFile = None ->
     files (fs_after out) !! inputFile = files f !! inputFile /\
     exists e, err_out out
               = Some (ErrorString ("failed to remove original file: " +:+ e))) /\
  (f_remove flt inputFile = None -> is_Some (files f !! inputFile) ->
     files (fs_after out) !! inputFile = None /\
     exists e, err_out out
               = Some (ErrorString ("failed to rename temp file: " +:+ e))).
Proof.
  unfold adjustAudioSpeed. destruct (atempoFilters _ _); [|discriminate].
  pose proof (tempFile_ne inputFile) as Hne.
  unfold os_Remove, write_file. cbn [files synced].
  rewrite lookup_insert_ne by exact Hne.
  destruct (f_remove flt inputFile) as [e|] eqn:Hrm.
  { intros [= <-] _. cbn [fs_after files err_out].
    rewrite lookup_insert_eq, lookup_insert_ne by exact Hne.
    split; [reflexivity|]. split; [eauto|]. discriminate. }
  destruct (files f !! inputFile) as [orig|] eqn:Horig.
  2: { intros [= <-] _. cbn [fs_after files err_out].
       rewrite lookup_insert_eq, lookup_insert_ne by exact Hne.
       split; [reflexivity|]. split; [eauto|]. intros _ [x Hx]. discriminate. }
  unfold os_Rename. cbn [files synced].
  destruct (f_rename flt _ inputFile) as [e|] eqn:Hrn.
  { intros [= <-] _. cbn [fs_after files err_out].
    rewrite lookup_delete_ne, lookup_insert_eq, lookup_delete_eq by congruence.
    split; [reflexivity|]. split; [|eauto].
    intros [H|H]; congruence. }
  rewrite lookup_delete_ne, lookup_insert_eq by congruence.
  intros [= <-] [x Hx]. discriminate.
Qed.

Lemma adjust_replace_not_atomic_witness :
  let flt := mkFaults (fun _ => None) (fun _ _ => Some EACCES) (fun _ => None)
                      (fun _ => None) (fun _ => None) (fun _ => None)
                      (fun _ => None) in
  let f := mkFS {["/temp/a.mp3" := "audio"]} ∅ in
  exists out,
    adjustAudioSpeed false flt (FfmpegOk "faster") f "/temp/a.mp3" 2 = Some out /\
    is_Some (err_out out) /\
    files (fs_after out) !! ("/temp/a.mp3" +:+ ".tmp.mp3") = Some "faster" /\
    (f_remove flt "/temp/a.mp3" <> None \/ files f !! "/temp/a.mp3" = None ->
       files (fs_after out) !! "/temp/a.mp3" = files f !! "/temp/a.mp3" /\
       exists e, err_out out
                 = Some (ErrorString ("failed to remove original file: " +:+ e))) /\
    (f_remove flt "/temp/a.mp3" = None -> is_Some (files f !! "/temp/a.mp3") ->
       files (fs_after out) !! "/temp/a.mp3" = None /\
       exists e, err_out out
                 = Some (ErrorString ("failed to rename temp file: " +:+ e))).
Proof.
  intros flt f.
  destruct (adjustAudioSpeed false flt (FfmpegOk "faster") f "/temp/a.mp3" 2)
    as [out|] eqn:H; [|vm_compute in H; discriminate H].
  assert (Herr : is_Some (err_out out)).
  { pose proof H as H'. vm_compute in H'. injection H' as <-. cbn. eauto. }
  exists out. split; [reflexivity|]. split; [exact Herr|].
  exact (adjust_replace_not_atomic flt f "/temp/a.mp3" "faster" 2 out H Herr).
Defined.

Example adjust_rename_fails_loses_original :
  let flt := mkFaults (fun _ => None) (fun _ _ => Some EACCES) (fun _ => None)
                      (fun _ => None) (fun _ => None) (fun _ => None)
                      (fun _ => None) in
  (fun out => (files (fs_after out) !! "/temp/a.mp3",
               files (fs_after out) !! "/temp/a.mp3.tmp.mp3",
               error_text <$> err_out out))
    <$> adjustAudioSpeed false flt (FfmpegOk "faster")
          (mkFS {["/temp/a.mp3" := "audio"]} ∅) "/temp/a.mp3" 2
  = Some (None, Some "faster",
          Some ("failed to rename temp file: rename /temp/a.mp3.tmp.mp3 "
                +:+ "/temp/a.mp3: permission denied")).
Proof. vm_compute. reflexivity. Qed.

(** ** File operations, one path at a time *)

Lemma os_Remove_frame flt f path f' r p :
  os_Remove flt f path = (f', r) -> p <> path -> files f' !! p = files f !! p.
Proof.
  unfold os_Remove. destruct (f_remove flt path); [intros [= <- _]; reflexivity|].
  destruct (files f !! path); intros [= <- _] Hp; [|reflexivity].
  cbn [files]. apply lookup_delete_ne. congruence.
Qed.

Lemma os_Rename_frame flt f old new f' r p :
  os_Rename flt f old new = (f', r) -> p <> old -> p <> new ->
  files f' !! p = files f !! p.
Proof.
  unfold os_Rename. destruct (f_rename flt old new); [intros [= <- _]; reflexivity|].
  destruct (files f !! old); intros [= <- _] Hp1 Hp2; [|reflexivity].
  cbn [files]. rewrite lookup_insert_ne, lookup_delete_ne by congruence. reflexivity.
Qed.

Lemma copyFile_frame flt f src dst f' r p :
  copyFile flt f src dst = (f', r) -> p <> dst -> files f' !! p = files f !! p.
Proof.
  unfold copyFile.
  destruct (f_open flt src); [intros [= <- _]; reflexivity|].
  destruct (files f !! src); [|intros [= <- _]; reflexivity].
  destruct (f_create flt dst); [intros [= <- _]; reflexivity|].
  destruct (f_write flt dst).
  { intros [= <- _] Hp. cbn [files]. apply lookup_insert_ne. congruence. }
  destruct (f_sync flt dst); intros [= <- _] Hp; cbn [files];
    apply lookup_insert_ne; congruence.
Qed.

(** X6. [copyFile] between two different paths never changes the source
    nor any path other than the destination.  When it returns nil the
    destination holds the data of the source and has been flushed.  When
    it fails after the destination was created (a write or a sync error)
    the destination is left behind, present and not flushed. *)
Theorem copyFile_effects
    (flt : faults) (f f' : FS) (src dst : string) (r : option goerror) :
  src <> dst -> copyFile flt f src dst = (f', r) ->
  (forall p, p <> dst -> files f' !! p = files f !! p) /\
  (r = None ->
     is_Some (files f !! src) /\ files f' !! dst = files f !! src /\
     dst ∈ synced f') /\
  (r <> None -> f_open flt src = None -> is_Some (files f !! src) ->
   f_create flt dst = None ->
     is_Some (files f' !! dst) /\ dst ∉ synced f').
Proof.
  intros Hne Hcopy. split; [|split].
  - intros p Hp. eapply copyFile_frame; eassumption.
  - intros ->. destruct (copyFile_ok _ _ _ _ _ Hcopy) as (data & Hsrc & Hf & Hs & _).
    rewrite Hsrc, Hf, lookup_insert_eq. eauto.
  - intros Hr Hopen [data Hsrc] Hcreate. revert Hcopy. unfold copyFile.
    rewrite Hopen, Hsrc, Hcreate.
    destruct (f_write flt dst).
    { intros [= <- _]. cbn [files synced]. rewrite lookup_insert_eq.
      split; [eauto|]. rewrite elem_of_difference, elem_of_singleton. tauto. }
    destruct (f_sync flt dst); [|intros [= _ <-]; congruence].
    intros [= <- _]. cbn [files synced]. rewrite lookup_insert_eq.
    split; [eauto|]. rewrite elem_of_difference, elem_of_singleton. tauto.
Qed.

Lemma copyFile_effects_witness :
  let flt := mkFaults (fun _ => None) (fun _ _ => None) (fun _ => None)
                      (fun _ => None) (fun _ => None) (fun _ => None)
                      (fun _ => Some EIO) in
  let f := mkFS {["/temp/a.mp3" := "audio"]} ∅ in
  let f' := (copyFile flt f "/temp/a.mp3" "/output/a.mp3").1 in
  let r := (copyFile flt f "/temp/a.mp3" "/output/a.mp3").2 in
  "/temp/a.mp3" <> "/output/a.mp3" /\
  copyFile flt f "/temp/a.mp3" "/output/a.mp3" = (f', r) /\
  (forall p, p <> "/output/a.mp3" -> files f' !! p = files f !! p) /\
  (r = None ->
     is_Some (files f !! "/temp/a.mp3") /\
     files f' !! "/output/a.mp3" = files f !! "/temp/a.mp3" /\
     "/output/a.mp3" ∈ synced f') /\
  (r <> None -> f_open flt "/temp/a.mp3" = None ->
   is_Some (files f !! "/temp/a.mp3") -> f_create flt "/output/a.mp3" = None ->
     is_Some (files f' !! "/output/a.mp3") /\ "/output/a.mp3" ∉ synced f').
Proof.
  intros flt f f' r.
  split; [discriminate|]. split; [apply surjective_pairing|].
  apply (copyFile_effects flt f f' "/temp/a.mp3" "/output/a.mp3" r);
    [discriminate | apply surjective_pairing].
Defined.

Section MoveMore.

Variable Join : string -> string -> string.

Lemma moveFile_frame flt f filename p :
  p <> Join TEMP_DIR filename -> p <> Join OUTPUT_DIR filename ->
  files (mv_fs (moveFile Join flt f filename)) !! p = files f !! p.
Proof using Type.
  intros Hp1 Hp2. unfold moveFile.
  destruct (negb _ || negb _); [reflexivity|].
  destruct (os_IsNotExist _); [reflexivity|].
  destruct (os_Rename flt f _ _) as [fs1 [err|]] eqn:Hrn.
  2: { cbn [mv_fs]. eapply os_Rename_frame; eassumption. }
  assert (H1 : files fs1 !! p = files f !! p) by (eapply os_Rename_frame; eassumption).
  destruct err as [op old new e | |]; try exact H1.
  destruct (decide (e = EXDEV)); [|exact H1].
  destruct (copyFile flt fs1 _ _) as [fs2 [copyErr|]] eqn:Hcp.
  { cbn [mv_fs]. rewrite <- H1. eapply copyFile_frame; eassumption. }
  assert (H2 : files fs2 !! p = files fs1 !! p) by (eapply copyFile_frame; eassumption).
  destruct (os_Remove flt fs2 _) as [fs3 [removeErr|]] eqn:Hrm; cbn [mv_fs];
    rewrite <- H1, <- H2; eapply os_Remove_frame; eassumption.
Qed.

Lemma moveFile_accounting flt f filename :
  let out := moveFile Join flt f filename in
  (length (mv_errors out) <= 1)%nat /\
  (mv_moved out = false -> length (mv_errors out) = 1%nat).
Proof using Type.
  unfold moveFile.
  destruct (negb _ || negb _); [cbn; auto|].
  destruct (os_IsNotExist _); [cbn; auto|].
  destruct (os_Rename flt f _ _) as [fs1 [err|]]; [|cbn; split; [lia | discriminate]].
  destruct err as [op old new e | |]; try (cbn; auto; fail).
  destruct (decide (e = EXDEV)); [|cbn; auto].
  destruct (copyFile flt fs1 _ _) as [fs2 [copyErr|]]; [cbn; auto|].
  destruct (os_Remove flt fs2 _) as [fs3 [removeErr|]]; cbn;
    (split; [lia | discriminate]).
Qed.

Lemma moveFiles_frame flt p filenames : forall f movedCount errors,
  (forall filename, filename ∈ filenames ->
     p <> Join TEMP_DIR filename /\ p <> Join OUTPUT_DIR filename) ->
  files (moveFiles Join flt f movedCount errors filenames).1.1 !! p = files f !! p.
Proof using Type.
  induction filenames as [|filename rest IH]; intros f movedCount errors Hp;
    cbn [moveFiles]; [reflexivity|].
  rewrite IH.
  - apply moveFile_frame; apply Hp; apply list_elem_of_here.
  - intros x Hx. apply Hp. apply list_elem_of_further. exact Hx.
Qed.

Lemma moveFiles_accounting flt filenames : forall f movedCount errors,
  let r := moveFiles Join flt f movedCount errors filenames in
  (movedCount <= r.1.2 <= movedCount + length filenames)%nat /\
  (length errors <= length r.2 <= length errors + length filenames)%nat /\
  (movedCount + length errors + length filenames <= r.1.2 + length r.2)%nat.
Proof using Type.
  induction filenames as [|filename rest IH]; intros f movedCount errors;
    cbn [moveFiles length]; [cbn; lia|].
  destruct (moveFile_accounting flt f filename) as [H1 H2].
  set (out := moveFile Join flt f filename) in *.
  specialize (IH (mv_fs out) (if mv_moved out then S movedCount else movedCount)
                 (errors ++ mv_errors out)).
  cbn zeta in IH. destruct IH as (Ha & Hb & Hc). rewrite length_app in Hb, Hc.
  destruct (mv_moved out); [|specialize (H2 eq_refl)]; lia.
Qed.

End MoveMore.

(** ** The move handler as a whole *)

(** X7. On one device (the rename succeeds) a file present in the temp
    directory is moved: it is counted, no error is reported, the
    destination holds its data (replacing, without notice, whatever file
    of that name was in the output directory) and the source is gone. *)
Theorem move_same_device
    (Join : string -> string -> string) (flt : faults) (f : FS)
    (filename data : string) :
  let srcPath := Join TEMP_DIR filename in
  let dstPath := Join OUTPUT_DIR filename in
  HasPrefix srcPath TEMP_DIR = true ->
  HasPrefix dstPath OUTPUT_DIR = true ->
  f_stat flt srcPath = None ->
  files f !! srcPath = Some data ->
  f_rename flt srcPath dstPath = None ->
  let out := moveFile Join flt f filename in
  mv_moved out = true /\ mv_errors out = [] /\
  files (mv_fs out) !! dstPath = Some data /\
  files (mv_fs out) !! srcPath = None.
Proof.
  intros srcPath dstPath H1 H2 Hstat Hsrc Hrn out.
  pose proof (prefixes_differ _ _ H1 H2) as Hne.
  subst out. unfold moveFile. fold srcPath dstPath. rewrite H1, H2. cbn [negb orb].
  unfold os_Stat. rewrite Hstat, Hsrc. cbn [os_IsNotExist].
  unfold os_Rename. rewrite Hrn, Hsrc. cbn [mv_moved mv_errors mv_fs files].
  rewrite lookup_insert_eq, lookup_insert_ne, lookup_delete_eq by congruence.
  auto.
Qed.

Lemma move_same_device_witness :
  let f := mkFS {["/temp/a.mp3" := "new"; "/output/a.mp3" := "old"]} ∅ in
  let out := moveFile join_name no_faults f "a.mp3" in
  mv_moved out = true /\ mv_errors out = [] /\
  files (mv_fs out) !! "/output/a.mp3" = Some "new" /\
  files (mv_fs out) !! "/temp/a.mp3" = None.
Proof.
  apply (move_same_device join_name no_faults
           (mkFS {["/temp/a.mp3" := "new"; "/output/a.mp3" := "old"]} ∅)
           "a.mp3" "new"); try reflexivity.
Defined.

(** X8. [moveFilesHandler] answers 400 and changes nothing when the body
    does not parse or names no file.  Otherwise it answers 200, and of
    the n files named every one is counted in [moved] or has an entry in
    [errors] (or both): moved <= n, |errors| <= n, n <= moved + |errors|. *)
Theorem move_accounting
    (Join : string -> string -> string) (flt : faults) (f : FS)
    (body : option (list string)) :
  match body with
  | None | Some [] =>
      exists msg, moveFilesHandler Join flt f body = (f, MoveBadRequest msg)
  | Some filenames =>
      exists f' moved errors,
        moveFilesHandler Join flt f body = (f', MoveOK moved errors) /\
        (moved <= length filenames)%nat /\
        (length errors <= length filenames)%nat /\
        (length filenames <= moved + length errors)%nat
  end.
Proof.
  destruct body as [[|filename rest]|]; [eexists; reflexivity| |eexists; reflexivity].
  unfold moveFilesHandler. rewrite decide_False by discriminate.
  pose proof (moveFiles_accounting Join flt (filename :: rest) f 0%nat []) as H.
  cbn zeta in H.
  destruct (moveFiles Join flt f 0 [] (filename :: rest)) as [[f' moved] errors].
  cbn [fst snd length] in H. exists f', moved, errors.
  split; [reflexivity|]. cbn [length]. lia.
Qed.

(** X9. [moveFilesHandler] changes no path other than the source and
    destination paths of the files named in the request. *)
Theorem move_leaves_other_files
    (Join : string -> string -> string) (flt : faults) (f : FS)
    (body : option (list string)) (p : string) :
  (forall filenames filename, body = Some filenames -> filename ∈ filenames ->
     p <> Join TEMP_DIR filename /\ p <> Join OUTPUT_DIR filename) ->
  files (moveFilesHandler Join flt f body).1 !! p = files f !! p.
Proof.
  intros Hp. unfold moveFilesHandler. destruct body as [filenames|]; [|reflexivity].
  destruct (decide _); [reflexivity|].
  pose proof (moveFiles_frame Join flt p filenames f 0%nat []
                (fun x Hx => Hp filenames x eq_refl Hx)) as H.
  destruct (moveFiles Join flt f 0 [] filenames) as [[f' moved] errors].
  exact H.
Qed.

Lemma move_leaves_other_files_witness :
  let f := mkFS {["/temp/a.mp3" := "a"; "/temp/b.mp3" := "b"]} ∅ in
  files (moveFilesHandler join_name cross_device f (Some ["a.mp3"])).1 !! "/temp/b.mp3"
    = files f !! "/temp/b.mp3".
Proof.
  apply (move_leaves_other_files join_name cross_device
           (mkFS {["/temp/a.mp3" := "a"; "/temp/b.mp3" := "b"]} ∅)
           (Some ["a.mp3"]) "/temp/b.mp3").
  intros filenames filename [= <-] Hin.
  apply list_elem_of_singleton in Hin as ->. split; discriminate.
Defined.

(** ** The delete handler *)

(** X10. [deleteFileHandler] removes at most the one path it builds from
    the temp directory and the file name, and only if that path starts
    with "/temp": a path that does not start with "/temp" (anything under
    "/output" in particular) is never changed, whatever the location and
    the name are.  It answers OK only for location "temp", and then the
    path was present and is gone. *)
Theorem delete_only_under_temp
    (Join : string -> string -> string) (flt : faults) (f : FS)
    (location param : string) :
  let r := deleteFileHandler Join flt f location param in
  (forall p, HasPrefix p TEMP_DIR = false -> files r.1 !! p = files f !! p) /\
  (forall p, HasPrefix p OUTPUT_DIR = true -> files r.1 !! p = files f !! p) /\
  (forall p, p <> Join TEMP_DIR (TrimSlash param) -> files r.1 !! p = files f !! p) /\
  (location <> "temp" -> exists msg, r = (f, FileBadRequest msg)) /\
  (r.2 = FileOK ->
     location = "temp" /\
     is_Some (files f !! Join TEMP_DIR (TrimSlash param)) /\
     files r.1 !! Join TEMP_DIR (TrimSlash param) = None).
Proof.
  intros r.
  assert (Hframe : forall p,
    p <> Join TEMP_DIR (TrimSlash param) \/
    (HasPrefix p TEMP_DIR = false) ->
    files r.1 !! p = files f !! p).
  { intros p Hp. subst r. unfold deleteFileHandler.
    destruct (bool_decide (location = "temp")).
    2: { destruct (bool_decide (location = "output")); reflexivity. }
    destruct (HasPrefix (Join TEMP_DIR (TrimSlash param)) TEMP_DIR) eqn:Hpre;
      cbn [negb]; [|reflexivity].
    destruct (os_Remove flt f _) as [f' [err|]] eqn:Hrm; cbn [fst];
      (eapply os_Remove_frame; [eassumption|]);
      destruct Hp as [Hp|Hp]; congruence. }
  split; [auto|]. split.
  { intros p Hp. apply Hframe. right.
    destruct (HasPrefix p TEMP_DIR) eqn:E; [|reflexivity].
    exfalso. exact (prefixes_differ p p E Hp eq_refl). }
  split; [auto|]. split.
  - intros Hloc. subst r. unfold deleteFileHandler.
    rewrite bool_decide_eq_false_2 by exact Hloc.
    destruct (bool_decide (location = "output")); eexists; reflexivity.
  - subst r. unfold deleteFileHandler.
    destruct (bool_decide (location = "temp")) eqn:Hloc.
    2: { destruct (bool_decide (location = "output")); discriminate. }
    apply bool_decide_eq_true in Hloc.
    destruct (negb _); [discriminate|].
    unfold os_Remove. destruct (f_remove flt _); [discriminate|].
    destruct (files f !! Join TEMP_DIR (TrimSlash param)) eqn:Hin; [|discriminate].
    cbn [fst snd files]. intros _. rewrite lookup_delete_eq. eauto.
Qed.

Example delete_output_refused :
  deleteFileHandler join_name no_faults (mkFS {["/output/a.mp3" := "a"]} ∅)
                    "output" "/a.mp3"
  = (mkFS {["/output/a.mp3" := "a"]} ∅,
     FileBadRequest "Cannot delete from output directory").
Proof. reflexivity. Qed.

Example delete_temp_file :
  (fun r => (files r.1 !! "/temp/a.mp3", r.2))
    (deleteFileHandler join_name no_faults (mkFS {["/temp/a.mp3" := "a"]} ∅)
                       "temp" "/a.mp3")
  = (None, FileOK).
Proof. vm_compute. reflexivity. Qed.

(** ** Submissions and status queries *)

(** X11. A submission is refused exactly when the body does not parse or
    carries no URL; a refused submission leaves the registry as it was and
    starts no task.  An accepted one answers with the new identifier,
    starts the task on exactly the URL and multiplier it stores, stores a
    job whose multiplier is not 0, and leaves every other entry alone. *)
Theorem download_validation
    (downloads : gmap string DownloadStatus) (b : download_body)
    (uuid : string) (now : Z) :
  let r := downloadHandler downloads b uuid now in
  ((exists msg, r.2 = BadRequest msg) <->
   (b = Malformed \/ exists speed, b = Json None speed \/ b = Json (Some "") speed)) /\
  (forall msg, r.2 = BadRequest msg -> r.1.1 = downloads /\ r.1.2 = None) /\
  (forall body, r.2 = OK body ->
     body = uuid /\
     exists url speed,
       url <> "" /\ ~ speed == 0 /\
       r.1.2 = Some (url, speed, uuid) /\
       r.1.1 !! uuid = Some (new_job uuid url speed now) /\
       forall id, id <> uuid -> r.1.1 !! id = downloads !! id).
Proof.
  intros r. subst r. unfold downloadHandler, bind_download.
  destruct b as [|[url|] speed]; unfold default, id.
  - cbn. split; [split; eauto|]. split; [intros msg [= <-]; auto | discriminate].
  - destruct (decide (url = "")) as [->|Hurl].
    + cbn. split; [split; eauto|]. split; [intros msg [= <-]; auto | discriminate].
    + rewrite bool_decide_eq_false_2 by exact Hurl. cbn [fst snd].
      split; [|split; [discriminate|]].
      * split; [intros [msg H]; discriminate|].
        intros [H | [sp [H|H]]]; try discriminate. injection H as -> _. congruence.
      * intros body [= <-]. split; [reflexivity|].
        eexists url, _. split; [exact Hurl|]. split; [|split; [reflexivity|split]].
        -- destruct (Qeq_bool _ 0) eqn:E; [discriminate|].
           intros Hz. apply Qeq_bool_iff in Hz. congruence.
        -- apply lookup_insert_eq.
        -- intros id0 Hid. apply lookup_insert_ne. congruence.
  - cbn. split; [split; eauto|]. split; [intros msg [= <-]; auto | discriminate].
Qed.

(** X12. After an accepted submission a status query for the new
    identifier shows the job queued, with its URL and a multiplier that
    is present (never omitted as zero), and the answers for all other
    identifiers are as before; an identifier that is not in the registry
    is answered 404. *)
Theorem submit_then_status
    (downloads : gmap string DownloadStatus) (url : string) (speed : option Q)
    (uuid : string) (now : Z) :
  url <> "" ->
  let stored := if Qeq_bool (default 0 speed) 0 then 1 else default 0 speed in
  let downloads' := (downloadHandler downloads (Json (Some url) speed) uuid now).1.1 in
  statusHandler downloads' uuid
    = Some (mkJobJson uuid "queued" "Starting download..." "0%" (Some url)
                      (Some stored) now) /\
  (forall id, id <> uuid -> statusHandler downloads' id = statusHandler downloads id) /\
  (forall id, downloads !! id = None -> id <> uuid -> statusHandler downloads' id = None).
Proof.
  intros Hurl stored downloads'. subst downloads'.
  unfold downloadHandler, bind_download. cbn [default].
  rewrite bool_decide_eq_false_2 by exact Hurl. cbn [fst snd].
  fold stored. unfold statusHandler. split; [|split].
  - rewrite lookup_insert_eq. unfold to_json, new_job. cbn.
    rewrite bool_decide_eq_false_2 by exact Hurl.
    assert (Hs : Qeq_bool stored 0 = false).
    { subst stored. destruct (Qeq_bool (default 0 speed) 0) eqn:E; [reflexivity | exact E]. }
    rewrite Hs. reflexivity.
  - intros id0 Hid. rewrite lookup_insert_ne by congruence. reflexivity.
  - intros id0 Hnone Hid. rewrite lookup_insert_ne by congruence.
    rewrite Hnone. reflexivity.
Qed.

Lemma submit_then_status_witness :
  let downloads' :=
    (downloadHandler ∅ (Json (Some "https://youtu.be/x") None) "id-1" 7).1.1 in
  statusHandler downloads' "id-1"
    = Some (mkJobJson "id-1" "queued" "Starting download..." "0%"
                      (Some "https://youtu.be/x") (Some 1) 7) /\
  (forall id, id <> "id-1" -> statusHandler downloads' id = statusHandler ∅ id) /\
  (forall id, (∅ : gmap string DownloadStatus) !! id = None -> id <> "id-1" ->
     statusHandler downloads' id = None).
Proof.
  apply (submit_then_status ∅ "https://youtu.be/x" None "id-1" 7). discriminate.
Defined.

(** X13. A cancellation request touches one entry only: no job is added or
    removed and every other job is as before.  When it is accepted, a
    status query shows the job cancelled with the message "Job cancelled
    by user"; its identifier, URL, multiplier and creation time are kept.
    When it is refused the registry is unchanged and nothing is
    signalled. *)
Theorem cancel_touches_one_job
    (downloads : gmap string DownloadStatus) (jobID : string) :
  let r := cancelJobHandler downloads jobID in
  dom r.1.1 = dom downloads /\
  (forall id, id <> jobID -> r.1.1 !! id = downloads !! id) /\
  (forall body, r.2 = OK body ->
     exists job job',
       downloads !! jobID = Some job /\ r.1.1 !! jobID = Some job' /\
       ID job' = ID job /\ URL job' = URL job /\ Speed job' = Speed job /\
       CreatedAt job' = CreatedAt job /\
       j_status <$> statusHandler r.1.1 jobID = Some "cancelled" /\
       j_message <$> statusHandler r.1.1 jobID = Some "Job cancelled by user") /\
  ((forall body, r.2 <> OK body) -> r.1.1 = downloads /\ r.1.2 = []).
Proof.
  intros r. subst r. unfold cancelJobHandler.
  destruct (downloads !! jobID) as [job|] eqn:Hjob.
  2: { cbn [fst snd]. repeat split; auto; discriminate. }
  destruct (active_dec (Status job)) as [Ha|Hn].
  - destruct (cancelJob_accepts _ Ha) as (job' & evs & E & Hst & Hmsg & _).
    assert (Hid : ID job' = ID job /\ URL job' = URL job /\ Speed job' = Speed job /\
                  CreatedAt job' = CreatedAt job).
    { revert E. unfold cancelJob.
      destruct (negb _ && negb _ && negb _); [discriminate|].
      destruct (cancel job); cbn; destruct (cmd _) as [[| | |]|]; cbn;
        intros [= <- _]; cbn; auto. }
    rewrite E. cbn [fst snd]. split; [|split; [|split]].
    + apply dom_insert_lookup_L. eauto.
    + intros id0 Hid0. apply lookup_insert_ne. congruence.
    + intros body _. exists job, job'. rewrite lookup_insert_eq.
      unfold statusHandler. rewrite lookup_insert_eq. cbn. rewrite Hst, Hmsg.
      destruct Hid as (H1 & H2 & H3 & H4). repeat split; auto.
    + intros Hno. exfalso. exact (Hno _ eq_refl).
  - rewrite (cancelJob_rejects _ Hn), insert_id by exact Hjob. cbn [fst snd].
    repeat split; auto. discriminate.
Qed.

(** ** Listing the jobs *)

Section ListJobsProps.

Variable sort_Slice : list DownloadStatus -> list DownloadStatus.

(** The contract of [sort.Slice] for the [less] of [listJobsHandler]: the
    result is a rearrangement of the slice in which no later element is
    [less] than an earlier one. *)
Hypothesis sort_perm : forall l, sort_Slice l ≡ₚ l.
Hypothesis sort_sorted : forall l,
  StronglySorted (fun a b => created_after b a = false) (sort_Slice l).

Lemma sorted_copies_unique (l1 l2 : list DownloadStatus) :
  (forall a b, a ∈ l1 -> b ∈ l1 -> CreatedAt a = CreatedAt b -> a = b) ->
  l1 ≡ₚ l2 -> sort_Slice l1 = sort_Slice l2.
Proof using sort_perm sort_sorted.
  intros Hdistinct Hperm.
  apply (StronglySorted_unique_strong (fun a b => created_after b a = false));
    [|apply sort_sorted | apply sort_sorted
     |rewrite !sort_perm; exact Hperm].
  intros x1 x2 Hx1 Hx2 H12 H21.
  rewrite sort_perm in Hx1. rewrite sort_perm, <- Hperm in Hx2.
  apply Hdistinct; [assumption..|].
  unfold created_after in H12, H21.
  apply bool_decide_eq_false in H12, H21. lia.
Qed.

End ListJobsProps.

(** X14. [listJobsHandler] returns one entry per job, newest first.  When
    no two jobs share a creation time the answer does not depend on the
    order in which the map is iterated. *)
Theorem list_jobs_newest_first
    (sort_Slice : list DownloadStatus -> list DownloadStatus)
    (sort_perm : forall l, sort_Slice l ≡ₚ l)
    (sort_sorted : forall l,
       StronglySorted (fun a b => created_after b a = false) (sort_Slice l))
    (iteration : list DownloadStatus) :
  let result := listJobsHandler sort_Slice iteration in
  length result = length iteration /\
  result ≡ₚ (fun job => to_json (public_copy job)) <$> iteration /\
  StronglySorted (fun a b => (j_created_at b <= j_created_at a)%Z) result /\
  ((forall a b, a ∈ iteration -> b ∈ iteration ->
      CreatedAt a = CreatedAt b -> a = b) ->
   forall iteration', iteration ≡ₚ iteration' ->
     listJobsHandler sort_Slice iteration' = result).
Proof.
  intros result. subst result. unfold listJobsHandler. split; [|split; [|split]].
  - rewrite length_fmap, sort_perm, length_fmap. reflexivity.
  - rewrite sort_perm, <- list_fmap_compose. reflexivity.
  - pose proof (sort_sorted (public_copy <$> iteration)) as Hs.
    induction Hs as [|x l Hl IH Hx]; cbn [fmap list_fmap]; constructor.
    + exact IH.
    + apply Forall_fmap. eapply Forall_impl; [exact Hx|]. intros y Hy. cbn.
      unfold created_after in Hy. apply bool_decide_eq_false in Hy. lia.
  - intros Hdistinct iteration' Hperm. f_equal. symmetry.
    apply (sorted_copies_unique sort_Slice sort_perm sort_sorted);
      [|rewrite Hperm; reflexivity].
    intros a b [a' [-> Ha]]%list_elem_of_fmap [b' [-> Hb]]%list_elem_of_fmap Ht.
    f_equal. apply Hdistinct; assumption.
Qed.

(** A sort that meets the contract, to run the handler with. *)
Definition newest_first (a b : DownloadStatus) : Prop := created_after b a = false.

#[local] Instance newest_first_dec a b : Decision (newest_first a b).
Proof. unfold newest_first. apply _. Defined.

Lemma merge_sort_contract :
  (forall l, merge_sort newest_first l ≡ₚ l) /\
  (forall l, StronglySorted (fun a b => created_after b a = false)
               (merge_sort newest_first l)).
Proof.
  split; [apply merge_sort_Permutation|]. intros l.
  assert (Transitive newest_first) as Htrans.
  { intros a b c. unfold newest_first, created_after.
    rewrite !bool_decide_eq_false. lia. }
  assert (Total newest_first) as Htotal.
  { intros a b. unfold newest_first, created_after.
    rewrite !bool_decide_eq_false. lia. }
  apply (StronglySorted_merge_sort newest_first).
Qed.

Definition three_jobs : list DownloadStatus :=
  [new_job "b" "u2" 1 20; new_job "a" "u1" 1 10; new_job "c" "u3" 1 30].

Lemma list_jobs_newest_first_witness :
  let result := listJobsHandler (merge_sort newest_first) three_jobs in
  length result = length three_jobs /\
  result ≡ₚ (fun job => to_json (public_copy job)) <$> three_jobs /\
  StronglySorted (fun a b => (j_created_at b <= j_created_at a)%Z) result /\
  ((forall a b, a ∈ three_jobs -> b ∈ three_jobs ->
      CreatedAt a = CreatedAt b -> a = b) ->
   forall iteration', three_jobs ≡ₚ iteration' ->
     listJobsHandler (merge_sort newest_first) iteration' = result).
Proof.
  apply (list_jobs_newest_first (merge_sort newest_first)
           (proj1 merge_sort_contract) (proj2 merge_sort_contract) three_jobs).
Defined.

Example list_three_jobs :
  j_id <$> listJobsHandler (merge_sort newest_first) three_jobs = ["c"; "b"; "a"].
Proof. vm_compute. reflexivity. Qed.

(** ** Scanning a directory for MP3 files *)

Lemma ToLower_append (a b : string) : ToLower (a +:+ b) = ToLower a +:+ ToLower b.
Proof.
  induction a as [|c a IH]; [reflexivity|].
  change (String (to_lower c) (ToLower (a +:+ b)) =
          String (to_lower c) (ToLower a +:+ ToLower b)).
  rewrite IH. reflexivity.
Qed.

Lemma HasSuffix_refl (s : string) : HasSuffix s s = true.
Proof. destruct s; cbn [HasSuffix]; rewrite String.eqb_refl; reflexivity. Qed.

Lemma HasSuffix_append (a b : string) : HasSuffix (a +:+ b) b = true.
Proof.
  induction a as [|c a IH]; [apply HasSuffix_refl|].
  change (HasSuffix (String c (a +:+ b)) b = true).
  cbn [HasSuffix]. rewrite IH. apply orb_true_r.
Qed.

Lemma scan_elem (l : list (string * bool)) (acc : gset string) (name : string) :
  name ∈ foldl (fun files entry =>
                  if negb entry.2 && is_mp3_name entry.1 then {[entry.1]} ∪ files
                  else files) acc l
  <-> name ∈ acc \/ ((name, false) ∈ l /\ is_mp3_name name = true).
Proof.
  revert acc. induction l as [|[n d] l IH]; intros acc; cbn [foldl].
  - rewrite elem_of_nil. tauto.
  - rewrite IH, elem_of_cons. cbn [fst snd].
    destruct d; cbn [negb andb].
    + split; [intros [?|[? ?]]; auto|].
      intros [?|[[Heq|?] ?]]; auto. discriminate Heq.
    + destruct (is_mp3_name n) eqn:Hn.
      * rewrite elem_of_union, elem_of_singleton.
        split.
        -- intros [[->|?]|[? ?]]; auto.
        -- intros [?|[[Heq|?] ?]]; auto. injection Heq as ->. auto.
      * split; [intros [?|[? ?]]; auto|].
        intros [?|[[Heq|?] Hm]]; auto. injection Heq as ->. congruence.
Qed.

(** X15. [getMP3Files] returns exactly the names of the entries that are
    not directories and end in ".mp3" in any letter case; a directory that
    cannot be read gives the empty set, like an empty directory.  The
    temporary output of [adjustAudioSpeed] has such a name. *)
Theorem getMP3Files_members :
  getMP3Files None = getMP3Files (Some []) /\
  (forall entries name,
     name ∈ getMP3Files (Some entries) <->
     (name, false) ∈ entries /\ is_mp3_name name = true) /\
  (forall stem, is_mp3_name (stem +:+ ".MP3") = true /\
                is_mp3_name (stem +:+ ".mp3") = true) /\
  (forall inputFile, is_mp3_name (inputFile +:+ ".tmp.mp3") = true).
Proof.
  split; [reflexivity|]. split; [|split].
  - intros entries name. unfold getMP3Files. rewrite scan_elem, elem_of_empty. tauto.
  - intros stem. unfold is_mp3_name. rewrite !ToLower_append.
    split; apply (HasSuffix_append (ToLower stem) ".mp3").
  - intros inputFile. unfold is_mp3_name. rewrite ToLower_append.
    change (ToLower ".tmp.mp3") with (".tmp" +:+ ".mp3").
    rewrite <- append_assoc. apply HasSuffix_append.
Qed.

(** ** What a run never changes *)

(** A critical section that leaves the fields set by [downloadHandler]
    alone. *)
Definition keeps_identity (body : DownloadStatus -> DownloadStatus) : Prop :=
  forall j, ID (body j) = ID j /\ URL (body j) = URL j /\ Speed (body j) = Speed j /\
            CreatedAt (body j) = CreatedAt j /\ Progress (body j) = Progress j.

Lemma downloadTask_keeps_identity Join url speed :
  task_all keeps_identity True (downloadTask Join url speed).
Proof.
  apply downloadTask_all; unfold keeps_identity; intros; cbn; auto 10.
  unfold fail_download. destruct (ctxDone j); cbn; auto 10.
Qed.

Lemma cancelJob_keeps_identity : keeps_identity (fun j => (cancelJob j).1.1).
Proof.
  intros j. unfold cancelJob.
  destruct (negb _ && negb _ && negb _); [cbn; auto 10|].
  destruct (cancel j); cbn; destruct (cmd _) as [[| | |]|]; cbn; auto 10.
Qed.

Lemma step_keeps_identity flt a s :
  task_all keeps_identity True (todo s) ->
  ID (job (step flt a s)) = ID (job s) /\
  URL (job (step flt a s)) = URL (job s) /\
  Speed (job (step flt a s)) = Speed (job s) /\
  CreatedAt (job (step flt a s)) = CreatedAt (job s) /\
  Progress (job (step flt a s)) = Progress (job s).
Proof.
  destruct s as [j f evs t]. cbn [todo job]. intros H.
  destruct H as [ | k Hk | body k Hb Hk | dir k Hk | k Hk | k Hk | v d k Hk
                | names k Hk | inputFile sp k HA Hk | line k Hk ];
    unfold step; cbn [todo job fs events]; auto 10.
  - destruct a; cbn [job]; auto 10.
  - destruct (ctxDone j); cbn; auto 10.
  - destruct a; cbn; auto 10.
  - destruct (ctxDone j); cbn [job]; auto 10. destruct a; cbn [job]; auto 10.
  - destruct a; cbn [job]; auto 10.
  - destruct a; cbn [job]; auto 10.
    destruct (adjustAudioSpeed _ _ _ _ _ _); cbn [job]; auto 10.
Qed.

(** X16. Whatever the environment answers and however cancellation
    requests interleave, a job keeps the identifier, URL, multiplier and
    creation time it was stored with, and its progress field stays at
    "0%": nothing in the task or in the cancel handler writes them. *)
Theorem job_identity_never_changes
    (Join : string -> string -> string) (flt : faults)
    (id url : string) (speed : Q) (now : Z) (f : FS) (xs : list action) :
  let s := run flt xs (mkSys (new_job id url speed now) f []
                             (downloadTask Join url speed)) in
  ID (job s) = id /\ URL (job s) = url /\ Speed (job s) = speed /\
  CreatedAt (job s) = now /\ Progress (job s) = "0%".
Proof.
  intros s. subst s.
  set (s0 := mkSys (new_job id url speed now) f [] (downloadTask Join url speed)).
  assert (Hinv : forall xs s,
    task_all keeps_identity True (todo s) ->
    task_all keeps_identity True (todo (run flt xs s)) /\
    ID (job (run flt xs s)) = ID (job s) /\
    URL (job (run flt xs s)) = URL (job s) /\
    Speed (job (run flt xs s)) = Speed (job s) /\
    CreatedAt (job (run flt xs s)) = CreatedAt (job s) /\
    Progress (job (run flt xs s)) = Progress (job s)).
  { clear. intros xs. induction xs as [|x xs IH]; intros s Ht; [cbn; auto 10|].
    rewrite run_cons.
    destruct (IH (act flt s x) (act_task_all _ _ flt s x Ht))
      as (Ht' & E1 & E2 & E3 & E4 & E5).
    split; [exact Ht'|]. rewrite E1, E2, E3, E4, E5. clear IH Ht' E1 E2 E3 E4 E5.
    destruct x as [|a]; cbn [act]; [|apply step_keeps_identity, Ht].
    pose proof (cancelJob_keeps_identity (job s)) as Hc. cbn beta in Hc.
    destruct (cancelJob (job s)) as [[j evs] r]. cbn [job]. exact Hc. }
  destruct (Hinv xs s0 (downloadTask_keeps_identity Join url speed))
    as (_ & E1 & E2 & E3 & E4 & E5).
  rewrite E1, E2, E3, E4, E5. cbn. auto 10.
Qed.

(** ** After the context has been cancelled *)

Definition spawns (evs : list event) : list event := List.filter is_spawn evs.

Lemma spawns_app evs1 evs2 : spawns (evs1 ++ evs2) = spawns evs1 ++ spawns evs2.
Proof. apply List.filter_app. Qed.

Lemma cancelJob_spawns job : spawns (cancelJob job).1.2 = [] /\
                             successes (cancelJob job).1.2 = 0%nat.
Proof.
  unfold cancelJob.
  destruct (negb _ && negb _ && negb _); [split; reflexivity|].
  destruct (cancel job); cbn; destruct (cmd _) as [[| | |]|]; cbn; split; reflexivity.
Qed.

(** The context is cancelled; [sp], [n] and [f] are the processes started
    so far, the number of transforms that succeeded and the files. *)
Definition cancelled_inv (sp : list event) (n : nat) (f : FS) (s : sys) : Prop :=
  ctxDone (job s) = true /\ spawns (events s) = sp /\ successes (events s) = n /\
  fs s = f /\ task_all keeps_ctx True (todo s).

Lemma cancelled_inv_act flt sp n f s x :
  cancelled_inv sp n f s -> cancelled_inv sp n f (act flt s x).
Proof.
  intros (Hd & Hsp & Hn & Hf & Ht). destruct x as [|a]; cbn [act].
  - pose proof (cancelJob_spawns (job s)) as [Hev1 Hev2].
    pose proof (cancelJob_ctxDone (job s) Hd) as Hdone.
    destruct (cancelJob (job s)) as [[j evs] r]. cbn [fst snd] in Hev1, Hev2, Hdone.
    unfold cancelled_inv. cbn [job events todo fs].
    rewrite spawns_app, successes_app, Hev1, Hev2, app_nil_r, Nat.add_0_r. auto.
  - assert (Ht' := step_task_all _ _ flt a s Ht).
    unfold cancelled_inv. split; [|split; [|split; [|split; [|exact Ht']]]]; clear Ht';
      destruct s as [j f0 evs t]; cbn [job events todo fs] in *;
      destruct Ht as [ | k Hk | body k Hb Hk | dir k Hk | k Hk | k Hk | v d k Hk
                     | names k Hk | inputFile sp' k _ Hk | line k Hk ];
      unfold step; cbn [todo job fs events]; try assumption;
      try (destruct (Hb j) as (_ & -> & _); assumption);
      try (rewrite Hd; cbn [job events fs]; assumption);
      try (destruct a; cbn [job events fs]; assumption);
      try (rewrite spawns_app, Hsp; apply app_nil_r);
      try (rewrite successes_app, Hn; apply Nat.add_0_r);
      try (destruct a; cbn [job events fs]; try assumption; rewrite Hd;
           unfold adjustAudioSpeed;
           destruct (atempoFilters _ _); cbn [job events fs fs_after spawned err_out];
           try assumption;
           rewrite ?spawns_app, ?successes_app, ?Hsp, ?Hn; cbn;
           rewrite ?app_nil_r, ?Nat.add_0_r; reflexivity).
Qed.

Lemma cancelled_inv_run flt sp n f xs : forall s,
  cancelled_inv sp n f s -> cancelled_inv sp n f (run flt xs s).
Proof.
  induction xs as [|x xs IH]; intros s Hs; cbn; [assumption|].
  apply IH, cancelled_inv_act, Hs.
Qed.

(** X17. Once a cancellation request has been accepted, at whatever point
    of the run, the task starts no further process (yt-dlp or ffmpeg): a
    call of [adjustAudioSpeed] or [downloadSingleVideo] that it makes
    afterwards fails on the cancelled context, so no transform succeeds
    any more and the files stay as they are, whatever is scheduled. *)
Theorem nothing_started_after_cancel
    (Join : string -> string -> string) (flt : faults)
    (id url : string) (speed : Q) (now : Z) (f : FS) (xs ys : list action) :
  let s1 := run flt xs (mkSys (new_job id url speed now) f []
                              (downloadTask Join url speed)) in
  active (Status (job s1)) ->
  let s2 := run flt (Cancel :: ys) s1 in
  ctxDone (job s2) = true /\
  spawns (events s2) = spawns (events s1) /\
  successes (events s2) = successes (events s1) /\
  fs s2 = fs s1.
Proof.
  intros s1 Hact s2.
  assert (Hk : kill_inv s1).
  { apply kill_inv_run, new_job_kill_inv. }
  destruct Hk as (Hc & _ & _ & _ & Ht).
  assert (Hinv : cancelled_inv (spawns (events s1)) (successes (events s1)) (fs s1)
                   (act flt s1 Cancel)).
  { cbn [act].
    destruct (cancelJob_accepts _ Hact) as (job' & evs & Heq & _ & _ & Hctx & _).
    pose proof (cancelJob_spawns (job s1)) as [Hev1 Hev2].
    rewrite Heq in Hev1, Hev2 |- *. cbn [fst snd] in Hev1, Hev2.
    destruct (Hctx Hc) as [Hd _].
    unfold cancelled_inv. cbn [job events todo fs].
    rewrite spawns_app, successes_app, Hev1, Hev2, app_nil_r, Nat.add_0_r. auto. }
  subst s2. rewrite run_cons.
  destruct (cancelled_inv_run flt _ _ _ ys _ Hinv) as (Hd & Hsp & Hn & Hf & _).
  auto.
Qed.

Lemma nothing_started_after_cancel_witness :
  let s1 := run no_faults [Step Tick; Step Tick; Step Tick]
              (mkSys (new_job "id-1" "https://youtu.be/x" 2 0) (mkFS ∅ ∅) []
                     (downloadTask join_name "https://youtu.be/x" 2)) in
  active (Status (job s1)) /\
  let s2 := run no_faults
              [Cancel; Step (Fetched (inl "/temp/x.mp3")); Step Tick;
               Step (FfmpegEnds (FfmpegOk "fast")); Step Tick] s1 in
  ctxDone (job s2) = true /\
  spawns (events s2) = spawns (events s1) /\
  successes (events s2) = successes (events s1) /\
  fs s2 = fs s1.
Proof.
  split.
  - right. left. reflexivity.
  - apply (nothing_started_after_cancel join_name no_faults "id-1"
             "https://youtu.be/x" 2 0 (mkFS ∅ ∅) [Step Tick; Step Tick; Step Tick]).
    right. left. reflexivity.
Defined.

(** ** Statuses that stay *)






Lemma advanced_inv_run flt xs : forall s, advanced_inv s -> advanced_inv (run flt xs s).
Proof.
  induction xs as [|x xs IH]; intros s Hs; cbn; [assumption|].
  apply IH, advanced_inv_act, Hs.
Qed.

Lemma run_task_all P A flt xs : forall s,
  task_all P A (todo s) -> task_all P A (todo (run flt xs s)).
Proof.
  induction xs as [|x xs IH]; intros s Hs; cbn; [assumption|].
  apply IH, act_task_all, Hs.
Qed.

(** X19. [queued] is shown only before the task's first write: a job that
    has left [queued] at some point of a run never shows it again, and the
    third action of any schedule finds the job out of [queued]. *)
Theorem queued_only_at_the_start
    (Join : string -> string -> string) (flt : faults)
    (id url : string) (speed : Q) (now : Z) (f : FS) (xs ys : list action) :
  let s0 := mkSys (new_job id url speed now) f [] (downloadTask Join url speed) in
  (Status (job (run flt xs s0)) <> queued ->
   Status (job (run flt (xs ++ ys) s0)) <> queued) /\
  ((2 <= length xs)%nat -> Status (job (run flt xs s0)) <> queued).
Proof.
  intros s0.
  assert (Hkeep : forall zs ws, Status (job (run flt zs s0)) <> queued ->
                    Status (job (run flt (zs ++ ws) s0)) <> queued).
  { intros zs ws Hq. rewrite run_app.
    apply (advanced_inv_run flt ws (run flt zs s0)). split; [exact Hq|].
    apply run_task_all. apply downloadTask_keeps_advanced. }
  split; [apply Hkeep|].
  intros Hlen. destruct xs as [|x1 [|x2 zs]]; cbn [length] in Hlen; try lia.
  apply (Hkeep [x1; x2] zs).
  destruct x1 as [|a1], x2 as [|a2]; cbn; discriminate.
Qed.

(** ** A request that arrives while yt-dlp runs *)

(** The playlist branch up to the start of yt-dlp, then the request, the
    end of the process and the critical section that follows. *)
Definition cancel_during_download (filesBefore : list string) (r : run_result)
  : list action :=
  [Step Tick; Step Tick; Step Tick; Step Tick; Step (Listing filesBefore); Step Tick;
   Cancel; Step (ProcExit r); Step Tick].

(** X20. A cancellation request that arrives while yt-dlp downloads a
    playlist kills that process, and the job ends [cancelled] with the
    message "Download cancelled" whatever the process would have returned:
    the task has returned, no file is changed and nothing else is
    started. *)
Theorem cancel_during_playlist_download
    (Join : string -> string -> string) (flt : faults)
    (id url : string) (speed : Q) (now : Z) (f : FS)
    (filesBefore : list string) (r : run_result) :
  isPlaylist url = true ->
  let s := run flt (cancel_during_download filesBefore r)
             (mkSys (new_job id url speed now) f [] (downloadTask Join url speed)) in
  Status (job s) = cancelled /\ Message (job s) = "Download cancelled" /\
  todo s = Return /\ fs s = f /\
  events s = [EvSpawn "yt-dlp"; EvCancelCtx; EvKill true].
Proof.
  intros Hp s.
  assert (Hrun : s = mkSys (mkJob id cancelled "Download cancelled" "0%" url speed now
                              true true (Some Exited))
                           f [EvSpawn "yt-dlp"; EvCancelCtx; EvKill true] Return).
  { subst s. unfold cancel_during_download, downloadTask.
    run_step. run_step. rewrite Hp. unfold playlist_task.
    run_step. run_step. run_step. run_step.
    rewrite run_cons. cbn [act].
    match goal with
    | |- context [cancelJob ?j] =>
        assert (Hc : cancelJob j =
                     (mkJob id cancelled "Job cancelled by user" "0%" url speed now
                            true true (Some Killed),
                      [EvCancelCtx; EvKill true], OK "Job cancelled"))
          by reflexivity;
        rewrite Hc; clear Hc
    end.
    job_simpl.
    run_step.
    destruct (decide (Some Killed = Some Killed)) as [_|Hne]; [|congruence].
    run_step. unfold fail_download. job_simpl. reflexivity. }
  rewrite Hrun. cbn [job fs events todo Status Message]. repeat split; reflexivity.
Qed.

Lemma cancel_during_playlist_download_witness :
  isPlaylist "https://www.youtube.com/playlist?list=PL1" = true /\
  let s := run no_faults (cancel_during_download ["old.mp3"] RunOk)
             (mkSys (new_job "id-1" "https://www.youtube.com/playlist?list=PL1" 2 0)
                    (mkFS ∅ ∅) []
                    (downloadTask join_name
                       "https://www.youtube.com/playlist?list=PL1" 2)) in
  Status (job s) = cancelled /\ Message (job s) = "Download cancelled" /\
  todo s = Return /\ fs s = mkFS ∅ ∅ /\
  events s = [EvSpawn "yt-dlp"; EvCancelCtx; EvKill true].
Proof.
  split; [reflexivity|].
  apply (cancel_during_playlist_download join_name no_faults "id-1"
           "https://www.youtube.com/playlist?list=PL1" 2 0 (mkFS ∅ ∅)
           ["old.mp3"] RunOk).
  reflexivity.
Defined.

(** ** The playlist test *)

Lemma HasPrefix_Contains s p : HasPrefix s p = true -> Contains s p = true.
Proof. intros H. destruct s; cbn [Contains]; rewrite H; reflexivity. Qed.

Lemma HasPrefix_weaken (a b : string) : forall s,
  HasPrefix s (a +:+ b) = true -> HasPrefix s a = true.
Proof.
  induction a as [|c a IH]; intros s H; [destruct s; reflexivity|].
  change (HasPrefix s (String c (a +:+ b)) = true) in H.
  destruct s as [|c' s]; cbn [HasPrefix] in H |- *; [discriminate|].
  apply andb_true_iff in H as [Hc Hs]. rewrite Hc, (IH s Hs). reflexivity.
Qed.

Lemma HasPrefix_skip (a b : string) : forall s,
  HasPrefix s (a +:+ b) = true -> Contains s b = true.
Proof.
  induction a as [|c a IH]; intros s H; [apply HasPrefix_Contains, H|].
  change (HasPrefix s (String c (a +:+ b)) = true) in H.
  destruct s as [|c' s]; cbn [HasPrefix] in H; [discriminate|].
  apply andb_true_iff in H as [_ Hs]. cbn [Contains].
  rewrite (IH s Hs). apply orb_true_r.
Qed.

Lemma Contains_weaken (b c : string) : forall s,
  Contains s (b +:+ c) = true -> Contains s b = true.
Proof.
  induction s as [|x s IH]; cbn [Contains]; intros H;
    apply orb_true_iff in H as [H|H].
  - rewrite (HasPrefix_weaken _ _ _ H). reflexivity.
  - discriminate.
  - rewrite (HasPrefix_weaken _ _ _ H). reflexivity.
  - rewrite (IH H). apply orb_true_r.
Qed.

Lemma Contains_skip (a b : string) : forall s,
  Contains s (a +:+ b) = true -> Contains s b = true.
Proof.
  induction s as [|x s IH]; intros H.
  - cbn [Contains] in H. apply orb_true_iff in H as [H|H]; [|discriminate].
    apply (HasPrefix_skip a b), H.
  - cbn [Contains] in H. apply orb_true_iff in H as [H|H].
    + apply (HasPrefix_skip a b), H.
    + cbn [Contains]. rewrite (IH H). apply orb_true_r.
Qed.

Lemma Contains_append (a b c : string) : Contains (a +:+ b +:+ c) b = true.
Proof.
  induction a as [|x a IH].
  - apply HasPrefix_Contains. apply (HasPrefix_append b c).
  - change (Contains (String x (a +:+ b +:+ c)) b = true).
    cbn [Contains]. rewrite IH. apply orb_true_r.
Qed.

(** X21. Of the seven tests of the playlist check only two matter: a URL
    is handled as a playlist exactly when it contains "list=" or
    "/playlist".  A watch URL that carries a list parameter is therefore
    downloaded as a whole playlist, and a URL with neither goes down the
    single-video branch. *)
Theorem isPlaylist_two_tests :
  (forall url, isPlaylist url = Contains url "list=" || Contains url "/playlist") /\
  (forall v l,
     isPlaylist ("https://www.youtube.com/watch?v=" +:+ v +:+ "&list=" +:+ l) = true) /\
  (forall Join url speed,
     Contains url "list=" = false -> Contains url "/playlist" = false ->
     downloadTask Join url speed =
     Select (fun done =>
       if done then Locked (set_status cancelled "Job cancelled before starting") Return
       else Locked (set_status downloading "Starting download...") (single_task speed))).
Proof.
  assert (Htwo : forall url,
            isPlaylist url = Contains url "list=" || Contains url "/playlist").
  { intros url. unfold isPlaylist.
    destruct (Contains url "list=") eqn:E1; [reflexivity|].
    destruct (Contains url "/playlist") eqn:E2; [reflexivity|].
    cbn [orb].
    destruct (Contains url "playlist?list=") eqn:E3.
    { apply (Contains_skip "playlist?" "list=") in E3. congruence. }
    destruct (HasPrefix url "https://www.youtube.com/playlist") eqn:E4.
    { apply (HasPrefix_skip "https://www.youtube.com" "/playlist") in E4. congruence. }
    destruct (HasPrefix url "http://www.youtube.com/playlist") eqn:E5.
    { apply (HasPrefix_skip "http://www.youtube.com" "/playlist") in E5. congruence. }
    destruct (HasPrefix url "https://youtube.com/playlist") eqn:E6.
    { apply (HasPrefix_skip "https://youtube.com" "/playlist") in E6. congruence. }
    destruct (HasPrefix url "http://youtube.com/playlist") eqn:E7.
    { apply (HasPrefix_skip "http://youtube.com" "/playlist") in E7. congruence. }
    reflexivity. }
  split; [exact Htwo|]. split.
  - intros v l. rewrite Htwo.
    assert (Hc : Contains ("https://www.youtube.com/watch?v=" +:+ v +:+ "&list=" +:+ l)
                          "list=" = true).
    { change ("&list=" +:+ l) with ("&" +:+ "list=" +:+ l).
      rewrite <- (append_assoc v "&"),
              <- (append_assoc "https://www.youtube.com/watch?v=" (v +:+ "&")).
      apply Contains_append. }
    rewrite Hc. reflexivity.
  - intros Join url speed E1 E2. unfold downloadTask. rewrite Htwo, E1, E2. reflexivity.
Qed.

(** ** The preview *)

Section PreviewProps.

Variable json_Unmarshal : string -> gmap string json + string.
Variable yt : ytdlp.

Lemma scan_line_ids acc line :
  Forall (fun id => id <> "") acc.1 ->
  Forall (fun id => id <> "") (scan_line json_Unmarshal acc line).1.
Proof using Type.
  destruct acc as [videoIDs playlistTitle]. cbn [fst]. intros H.
  unfold scan_line. destruct (bool_decide _); [exact H|].
  destruct (json_Unmarshal _) as [entry|e]; [|exact H]. cbn [fst].
  destruct (entry !! "id") as [[id| |]|]; try exact H.
  destruct (bool_decide (id = "")) eqn:E; cbn [negb]; [exact H|].
  apply bool_decide_eq_false in E. apply Forall_app. split; [exact H|].
  constructor; [exact E | constructor].
Qed.

Lemma scan_id_ids videoIDs id :
  Forall (fun id => id <> "") videoIDs ->
  Forall (fun id => id <> "") (scan_id videoIDs id).
Proof using Type.
  intros H. unfold scan_id.
  destruct (bool_decide (TrimSpace id = "")) eqn:E; cbn [negb]; [exact H|].
  apply bool_decide_eq_false in E. apply Forall_app. split; [exact H|].
  constructor; [exact E | constructor].
Qed.

Lemma foldl_scan_line_ids lines : forall acc,
  Forall (fun id => id <> "") acc.1 ->
  Forall (fun id => id <> "") (foldl (scan_line json_Unmarshal) acc lines).1.
Proof using Type.
  induction lines as [|line lines IH]; intros acc H; [exact H|].
  cbn [foldl]. apply IH, scan_line_ids, H.
Qed.

Lemma foldl_scan_id_ids lines : forall videoIDs,
  Forall (fun id => id <> "") videoIDs ->
  Forall (fun id => id <> "") (foldl scan_id videoIDs lines).
Proof using Type.
  induction lines as [|line lines IH]; intros acc H; [exact H|].
  cbn [foldl]. apply IH, scan_id_ids, H.
Qed.

Lemma getPlaylistVideoIDs_ok url ids title :
  getPlaylistVideoIDs json_Unmarshal yt url = inl (ids, title) ->
  ids <> [] /\ Forall (fun id => id <> "") ids.
Proof using Type.
  unfold getPlaylistVideoIDs.
  destruct (print_json yt url) as [output|err output]; [|discriminate].
  destruct (bool_decide (TrimSpace output = "")); [discriminate|].
  pose proof (foldl_scan_line_ids (Split (TrimSpace output) newline) ([], "")
                (Forall_nil_2 _)) as Hscan.
  destruct (foldl _ _ _) as [videoIDs playlistTitle]. cbn [fst] in Hscan.
  destruct (bool_decide (length videoIDs = 0%nat)) eqn:Hlen.
  - destruct (get_id yt url) as [output2|err2 output2]; [|discriminate].
    destruct (bool_decide (TrimSpace output2 = "")); [discriminate|].
    pose proof (foldl_scan_id_ids (Split (TrimSpace output2) newline) videoIDs Hscan)
      as Hscan2.
    destruct (bool_decide (length (foldl _ _ _) = 0%nat)) eqn:Hlen2; [discriminate|].
    intros [= <- <-]. apply bool_decide_eq_false in Hlen2.
    split; [|exact Hscan2]. intros Heq. rewrite Heq in Hlen2. apply Hlen2. reflexivity.
  - rewrite Hlen. intros [= <- <-]. apply bool_decide_eq_false in Hlen.
    split; [|exact Hscan]. intros Heq. rewrite Heq in Hlen. apply Hlen. reflexivity.
Qed.

Lemma preview_video_length videos i id :
  (length (preview_video json_Unmarshal yt videos i id) <= S (length videos))%nat.
Proof using Type.
  unfold preview_video. destruct (dump_json yt i _) as [output|]; [|lia].
  destruct (json_Unmarshal output); [|lia]. rewrite length_app. cbn. lia.
Qed.

Lemma preview_loop_length ps : forall videos,
  (length (foldl (fun videos p => preview_video json_Unmarshal yt videos p.1 p.2)
                 videos ps)
   <= length videos + length ps)%nat.
Proof using Type.
  induction ps as [|p ps IH]; intros videos; cbn [foldl length]; [lia|].
  specialize (IH (preview_video json_Unmarshal yt videos p.1 p.2)).
  pose proof (preview_video_length videos p.1 p.2). lia.
Qed.

End PreviewProps.

(** X22. When [getPlaylistVideoIDs] returns without an error, the list it
    returns is not empty and holds no empty identifier, and the first
    listing had succeeded with some output; the second listing is asked
    for only when the first one gave no identifier. *)
Theorem playlist_ids_never_empty
    (json_Unmarshal : string -> gmap string json + string) (yt : ytdlp)
    (url : string) (ids : list string) (title : string) :
  getPlaylistVideoIDs json_Unmarshal yt url = inl (ids, title) ->
  ids <> [] /\ Forall (fun id => id <> "") ids /\
  (exists output, print_json yt url = OutOk output /\ TrimSpace output <> "") /\
  ((foldl (scan_line json_Unmarshal) ([], "")
          (Split (TrimSpace (match print_json yt url with
                             | OutOk output => output
                             | OutErr _ output => output
                             end)) newline)).1 <> [] ->
   forall other,
     getPlaylistVideoIDs json_Unmarshal
       (mkYtdlp (print_json yt) other (dump_json yt)) url = inl (ids, title)).
Proof.
  intros H. destruct (getPlaylistVideoIDs_ok _ _ _ _ _ H) as [H1 H2].
  split; [exact H1|]. split; [exact H2|]. split.
  - unfold getPlaylistVideoIDs in H.
    destruct (print_json yt url) as [output|err output]; [|discriminate].
    exists output. split; [reflexivity|].
    destruct (bool_decide (TrimSpace output = "")) eqn:E; [discriminate|].
    apply bool_decide_eq_false in E. exact E.
  - intros Hfound other. revert H. unfold getPlaylistVideoIDs. cbn [print_json get_id].
    destruct (print_json yt url) as [output|err output]; [|discriminate].
    destruct (bool_decide (TrimSpace output = "")); [discriminate|].
    destruct (foldl _ _ _) as [videoIDs playlistTitle]. cbn [fst] in Hfound.
    destruct (bool_decide (length videoIDs = 0%nat)) eqn:Hlen; [|trivial].
    apply bool_decide_eq_true in Hlen. destruct videoIDs; [|discriminate].
    exfalso. apply Hfound. reflexivity.
Qed.

Definition demo_unmarshal (line : string) : gmap string json + string :=
  if bool_decide (line = "a")
  then inl {[ "id" := JString "v1"; "playlist_title" := JString "Mix" ]}
  else if bool_decide (line = "b") then inl {[ "id" := JString "v2" ]}
  else if bool_decide (line = "A")
  then inl {[ "title" := JString "First"; "thumbnail" := JString "t1";
              "duration" := JNumber (7 # 2) ]}
  else inr "invalid character".

Definition demo_yt : ytdlp :=
  mkYtdlp (fun _ => OutOk ("a" +:+ nl +:+ " b " +:+ nl +:+ "c" +:+ nl))
          (fun _ => OutErr "exit status 1" "")
          (fun i _ => if Nat.eqb i 0 then OutOk "A" else OutErr "exit status 1" "").

Definition demo_playlist : string := "https://www.youtube.com/playlist?list=PL1".

Lemma playlist_ids_never_empty_witness :
  getPlaylistVideoIDs demo_unmarshal demo_yt demo_playlist = inl (["v1"; "v2"], "Mix") /\
  ["v1"; "v2"] <> [] /\ Forall (fun id => id <> "") ["v1"; "v2"] /\
  (exists output,
     print_json demo_yt demo_playlist = OutOk output /\ TrimSpace output <> "") /\
  ((foldl (scan_line demo_unmarshal) ([], "")
          (Split (TrimSpace (match print_json demo_yt demo_playlist with
                             | OutOk output => output
                             | OutErr _ output => output
                             end)) newline)).1 <> [] ->
   forall other,
     getPlaylistVideoIDs demo_unmarshal
       (mkYtdlp (print_json demo_yt) other (dump_json demo_yt)) demo_playlist
     = inl (["v1"; "v2"], "Mix")).
Proof.
  split; [vm_compute; reflexivity|].
  apply (playlist_ids_never_empty demo_unmarshal demo_yt demo_playlist).
  vm_compute. reflexivity.
Defined.

(** X23. What a successful preview shows.  For a playlist URL: the type
    "playlist", a count of at least one, at most three previewed videos
    (and never more than the count), a title that is not empty, the
    thumbnail of the first previewed video (empty when none could be
    looked up), no duration and no uploader.  For any other URL: the type
    "video", no count and no list. *)
Theorem preview_answer
    (json_Unmarshal : string -> gmap string json + string) (yt : ytdlp)
    (body : option string) (info : VideoInfo) :
  previewHandler json_Unmarshal yt body = PreviewOK info ->
  exists url, body = Some url /\ url <> "" /\
    if isPlaylist url then
      info_Type info = "playlist" /\
      (1 <= info_Count info)%nat /\
      (length (info_Videos info) <= 3)%nat /\
      (length (info_Videos info) <= info_Count info)%nat /\
      info_Title info <> "" /\
      info_Thumbnail info = match info_Videos info with
                            | first :: _ => item_Thumbnail first
                            | [] => ""
                            end /\
      info_Duration info = 0%Z /\ info_Uploader info = ""
    else
      info_Type info = "video" /\ info_Count info = 0%nat /\ info_Videos info = [].
Proof.
  unfold previewHandler. destruct body as [url|]; [|discriminate].
  destruct (bool_decide (url = "")) eqn:Hurl; [discriminate|].
  apply bool_decide_eq_false in Hurl.
  destruct (getVideoInfo json_Unmarshal yt url) as [info'|err] eqn:Hinfo; [|discriminate].
  intros [= ->]. exists url. split; [reflexivity|]. split; [exact Hurl|].
  unfold getVideoInfo in Hinfo. destruct (isPlaylist url).
  - destruct (getPlaylistVideoIDs json_Unmarshal yt url) as [[videoIDs playlistTitle]|e]
      eqn:Hids; [|discriminate].
    destruct (getPlaylistVideoIDs_ok _ _ _ _ _ Hids) as [Hne _].
    injection Hinfo as <-. cbn [info_Type info_Count info_Videos info_Title
                                info_Thumbnail info_Duration info_Uploader].
    set (maxVideos := if bool_decide (length videoIDs < 3)%nat
                      then length videoIDs else 3%nat).
    pose proof (preview_loop_length json_Unmarshal yt
                  (zip (seq 0 maxVideos) videoIDs) []) as Hlen.
    rewrite length_zip_with, length_seq in Hlen. cbn [length] in Hlen.
    assert (Hmax : (maxVideos <= 3 /\ maxVideos <= length videoIDs)%nat).
    { subst maxVideos. destruct (bool_decide (length videoIDs < 3)%nat) eqn:E.
      - apply bool_decide_eq_true in E. lia.
      - apply bool_decide_eq_false in E. lia. }
    repeat split; try reflexivity; try lia.
    + destruct videoIDs; [congruence | cbn; lia].
    + destruct (bool_decide (playlistTitle = "")) eqn:E.
      * discriminate.
      * apply bool_decide_eq_false in E. exact E.
  - destruct (dump_json yt 0 url) as [output|]; [|discriminate].
    destruct (bool_decide _); [discriminate|].
    destruct (json_Unmarshal _); [|discriminate].
    injection Hinfo as <-. repeat split; reflexivity.
Qed.

Lemma preview_answer_witness :
  previewHandler demo_unmarshal demo_yt (Some demo_playlist)
  = PreviewOK (mkVideoInfo "playlist" "Mix" 0 "t1" "" 2
                           [mkVideoItem "First" 3 "t1"]) /\
  exists url, Some demo_playlist = Some url /\ url <> "" /\
    if isPlaylist url then
      "playlist" = "playlist" /\ (1 <= 2)%nat /\ (1 <= 3)%nat /\ (1 <= 2)%nat /\
      "Mix" <> "" /\ "t1" = "t1" /\ 0%Z = 0%Z /\ "" = ""
    else "playlist" = "video" /\ 2%nat = 0%nat /\ [mkVideoItem "First" 3 "t1"] = [].
Proof.
  split; [vm_compute; reflexivity|].
  apply (preview_answer demo_unmarshal demo_yt (Some demo_playlist)
           (mkVideoInfo "playlist" "Mix" 0 "t1" "" 2 [mkVideoItem "First" 3 "t1"])).
  vm_compute. reflexivity.
Defined.

(** ** The path of a downloaded video *)

Section DownloadSingleProps.

Variable Join : string -> string -> string.
Variable ModTime : string -> option Z.
Variable tempDir : string.

(** What the search for the most recent file has established after the
    names in [done]. *)
Definition newest_inv (done : list string) (acc : string * Z) : Prop :=
  (0 <= acc.2)%Z /\
  (forall f t, f ∈ done -> ModTime (Join tempDir f) = Some t -> (t <= acc.2)%Z) /\
  ((acc.1 = "" /\ acc.2 = 0%Z) \/
   (exists f, f ∈ done /\ acc.1 = Join tempDir f /\ ModTime acc.1 = Some acc.2 /\
              (0 < acc.2)%Z)).

Lemma newer_inv done acc f :
  newest_inv done acc -> newest_inv (done ++ [f]) (newer Join ModTime tempDir acc f).
Proof using Type.
  destruct acc as [newestFile newestTime]. unfold newest_inv. cbn [fst snd].
  intros (H0 & Hmax & Hsel). unfold newer.
  destruct (ModTime (Join tempDir f)) as [t|] eqn:Ht.
  - destruct (bool_decide (newestTime < t)%Z) eqn:E; cbn [fst snd].
    + apply bool_decide_eq_true in E. split; [lia|]. split.
      * intros f' t' [Hin | ->%list_elem_of_singleton]%elem_of_app Hf'.
        -- specialize (Hmax f' t' Hin Hf'). lia.
        -- rewrite Ht in Hf'. injection Hf' as <-. lia.
      * right. exists f. rewrite elem_of_app, list_elem_of_singleton.
        repeat split; auto. lia.
    + apply bool_decide_eq_false in E. split; [exact H0|]. split.
      * intros f' t' [Hin | ->%list_elem_of_singleton]%elem_of_app Hf'.
        -- exact (Hmax f' t' Hin Hf').
        -- rewrite Ht in Hf'. injection Hf' as <-. lia.
      * destruct Hsel as [Hsel | (f0 & Hin & Hsel)]; [left; exact Hsel|].
        right. exists f0. rewrite elem_of_app. auto.
  - cbn [fst snd]. split; [exact H0|]. split.
    + intros f' t' [Hin | ->%list_elem_of_singleton]%elem_of_app Hf'.
      * exact (Hmax f' t' Hin Hf').
      * congruence.
    + destruct Hsel as [Hsel | (f0 & Hin & Hsel)]; [left; exact Hsel|].
      right. exists f0. rewrite elem_of_app. auto.
Qed.

Lemma newest_loop l : forall done acc,
  newest_inv done acc ->
  newest_inv (done ++ l) (foldl (newer Join ModTime tempDir) acc l).
Proof using Type.
  induction l as [|f l IH]; intros done acc H; cbn [foldl].
  - rewrite app_nil_r. exact H.
  - replace (done ++ f :: l) with ((done ++ [f]) ++ l)
      by (rewrite <- app_assoc; reflexivity).
    apply IH, newer_inv, H.
Qed.

End DownloadSingleProps.

Lemma HasSuffix_nonempty (s : string) : HasSuffix s ".mp3" = true -> s <> "".
Proof. intros H ->. discriminate H. Qed.

(** X24. When [downloadSingleVideo] returns a path, the context was open
    and the path is not empty.  It is either a line that yt-dlp printed,
    ending in ".mp3" and starting with the directory, or else the most
    recently modified of the MP3 files the directory lists.  The only URL
    the function hands to yt-dlp is the watch URL of [videoID]. *)
Theorem downloadSingleVideo_path
    (Join : string -> string -> string) (range : gset string -> list string)
    (ModTime : string -> option Z) (ctx_done : bool)
    (yt_dlp : string -> output_result) (entries : option (list (string * bool)))
    (videoID tempDir path : string) :
  (forall files, range files ≡ₚ elements files) ->
  downloadSingleVideo Join range ModTime ctx_done yt_dlp entries videoID tempDir
    = inl path ->
  path <> "" /\ ctx_done = false /\
  ((HasSuffix path ".mp3" = true /\ HasPrefix path tempDir = true) \/
   (exists f t,
      f ∈ getMP3Files entries /\ path = Join tempDir f /\
      ModTime path = Some t /\
      forall f' t', f' ∈ getMP3Files entries ->
                    ModTime (Join tempDir f') = Some t' -> (t' <= t)%Z)) /\
  (forall other,
     other ("https://www.youtube.com/watch?v=" +:+ videoID)
       = yt_dlp ("https://www.youtube.com/watch?v=" +:+ videoID) ->
     downloadSingleVideo Join range ModTime ctx_done other entries videoID tempDir
       = inl path).
Proof.
  intros Hrange H.
  assert (Hother : forall other,
     other ("https://www.youtube.com/watch?v=" +:+ videoID)
       = yt_dlp ("https://www.youtube.com/watch?v=" +:+ videoID) ->
     downloadSingleVideo Join range ModTime ctx_done other entries videoID tempDir
       = inl path).
  { intros other Heq. rewrite <- H. unfold downloadSingleVideo. rewrite Heq.
    reflexivity. }
  unfold downloadSingleVideo in H.
  destruct ctx_done; [discriminate|].
  destruct (yt_dlp _) as [output|err output]; [|discriminate].
  destruct (List.find _ _) as [line|] eqn:Hfind.
  - injection H as <-. apply List.find_some in Hfind as [_ Hline].
    unfold is_printed_path in Hline. apply andb_true_iff in Hline as [Hs Hp].
    split; [apply HasSuffix_nonempty, Hs|]. split; [reflexivity|]. split; [|exact Hother].
    left. split; assumption.
  - destruct (bool_decide (size (getMP3Files entries) = 0%nat)); [discriminate|].
    pose proof (newest_loop Join ModTime tempDir (range (getMP3Files entries)) []
                  ("", 0%Z)) as Hinv.
    destruct (foldl _ _ _) as [newestFile newestTime].
    destruct (bool_decide (newestFile = "")) eqn:E; [discriminate|].
    apply bool_decide_eq_false in E. injection H as <-.
    split; [exact E|]. split; [reflexivity|]. split; [|exact Hother]. right.
    destruct Hinv as (_ & Hmax & Hsel).
    { unfold newest_inv. cbn [fst snd]. split; [lia|]. split.
      - intros f t Hin. apply elem_of_nil in Hin. contradiction.
      - left. split; reflexivity. }
    cbn [fst snd app] in Hmax, Hsel.
    destruct Hsel as [[Hempty _] | (f & Hin & Hpath & Hstat & _)]; [contradiction|].
    exists f, newestTime. rewrite Hrange, elem_of_elements in Hin.
    split; [exact Hin|]. split; [exact Hpath|]. split; [exact Hstat|].
    intros f' t' Hin'. apply Hmax. rewrite Hrange, elem_of_elements. exact Hin'.
Qed.

Definition demo_ModTime (path : string) : option Z :=
  if bool_decide (path = "/temp/a.mp3") then Some 5%Z
  else if bool_decide (path = "/temp/b.mp3") then Some 9%Z
  else None.

Definition demo_entries : option (list (string * bool)) :=
  Some [("a.mp3", false); ("b.mp3", false); ("notes.txt", false); ("c.mp3", true)].

Lemma downloadSingleVideo_path_witness :
  (forall files : gset string, elements files ≡ₚ elements files) /\
  downloadSingleVideo join_name elements demo_ModTime false
    (fun _ => OutOk "[download] done") demo_entries "" TEMP_DIR = inl "/temp/b.mp3" /\
  "/temp/b.mp3" <> "" /\ false = false /\
  ((HasSuffix "/temp/b.mp3" ".mp3" = true /\ HasPrefix "/temp/b.mp3" TEMP_DIR = true) \/
   (exists f t,
      f ∈ getMP3Files demo_entries /\ "/temp/b.mp3" = join_name TEMP_DIR f /\
      demo_ModTime "/temp/b.mp3" = Some t /\
      forall f' t', f' ∈ getMP3Files demo_entries ->
                    demo_ModTime (join_name TEMP_DIR f') = Some t' -> (t' <= t)%Z)) /\
  (forall other,
     other ("https://www.youtube.com/watch?v=" +:+ "")
       = OutOk "[download] done" ->
     downloadSingleVideo join_name elements demo_ModTime false other demo_entries
       "" TEMP_DIR = inl "/temp/b.mp3").
Proof.
  split; [reflexivity|]. split; [vm_compute; reflexivity|].
  apply (downloadSingleVideo_path join_name elements demo_ModTime false
           (fun _ => OutOk "[download] done") demo_entries "" TEMP_DIR "/temp/b.mp3").
  - reflexivity.
  - vm_compute. reflexivity.
Defined.

(** ** The file listing *)

Section ListFilesProps.

Variable Join : string -> string -> string.
Variable ReadDir : string -> option (list DirEntry).
Variable ffprobe : string -> output_result.
Variable size_mb : Z -> Q.
Variable sort_Slice : list FileInfo -> list FileInfo.

Hypothesis sort_perm : forall l, sort_Slice l ≡ₚ l.
Hypothesis sort_sorted : forall l,
  StronglySorted (fun a b => modified_after b a = false) (sort_Slice l).

(** An entry that the listing shows. *)
Definition shown (entry : DirEntry) : Prop :=
  entry_IsDir entry = false /\ is_mp3_name (entry_Name entry) = true /\
  is_Some (entry_Info entry).

Lemma file_of_entry_Some dir location entry file :
  file_of_entry Join ffprobe size_mb dir location entry = Some file ->
  shown entry /\ file_Name file = entry_Name entry /\ file_Location file = location /\
  Some (file_Modified file) = snd <$> entry_Info entry.
Proof using Type.
  unfold file_of_entry, shown.
  destruct (entry_IsDir entry); [discriminate|].
  destruct (is_mp3_name (entry_Name entry)); cbn [negb]; [|discriminate].
  destruct (entry_Info entry) as [[size modified]|]; [|discriminate].
  intros [= <-]. cbn. eauto 10.
Qed.

Lemma file_of_entry_shown dir location entry :
  shown entry ->
  exists file, file_of_entry Join ffprobe size_mb dir location entry = Some file.
Proof using Type.
  unfold file_of_entry, shown. intros (-> & -> & [[size modified] ->]).
  cbn [negb]. eauto.
Qed.

Lemma omap_length_le {A B} (f : A -> option B) (l : list A) :
  (length (omap f l) <= length l)%nat.
Proof using Type.
  induction l as [|x l IH]; cbn; [lia|]. destruct (f x); cbn; lia.
Qed.

Lemma getFilesInDir_spec dir location :
  let r := getFilesInDir Join ReadDir ffprobe size_mb sort_Slice dir location in
  r.2 = None /\
  Forall (fun file => file_Location file = location) r.1 /\
  StronglySorted (fun a b => (file_Modified b <= file_Modified a)%Z) r.1 /\
  (forall name, name ∈ file_Name <$> r.1 <->
     exists entries entry, ReadDir dir = Some entries /\ entry ∈ entries /\
                           shown entry /\ entry_Name entry = name) /\
  (length r.1 <= from_option length 0%nat (ReadDir dir))%nat.
Proof using sort_perm sort_sorted.
  intros r. subst r. unfold getFilesInDir.
  destruct (ReadDir dir) as [entries|]; cbn [fst snd from_option].
  2: { split; [reflexivity|]. split; [constructor|]. split; [constructor|].
       split; [|cbn; lia].
       intros name. cbn. rewrite elem_of_nil. split; [tauto|].
       intros (? & ? & ? & _). discriminate. }
  split; [reflexivity|]. split; [|split; [|split]].
  - rewrite sort_perm. apply Forall_forall. intros file Hin.
    apply list_elem_of_omap in Hin as (entry & _ & Hfile).
    apply file_of_entry_Some in Hfile. tauto.
  - pose proof (sort_sorted (omap (file_of_entry Join ffprobe size_mb dir location)
                                  entries)) as Hs.
    induction Hs as [|x l Hl IH Hx]; constructor; [exact IH|].
    eapply Forall_impl; [exact Hx|]. intros y Hy.
    unfold modified_after in Hy. apply bool_decide_eq_false in Hy. lia.
  - intros name. rewrite sort_perm, list_elem_of_fmap. split.
    + intros (file & -> & Hin).
      apply list_elem_of_omap in Hin as (entry & Hin & Hfile).
      apply file_of_entry_Some in Hfile as (Hshown & Hname & _).
      exists entries, entry. auto.
    + intros (entries' & entry & [= <-] & Hin & Hshown & <-).
      destruct (file_of_entry_shown dir location entry Hshown) as [file Hfile].
      exists file. split.
      * apply file_of_entry_Some in Hfile. symmetry. tauto.
      * apply list_elem_of_omap. eauto.
  - rewrite sort_perm. apply omap_length_le.
Qed.

End ListFilesProps.

(** X25. [listFilesHandler] never answers with an error: [getFilesInDir]
    returns a nil error even when the directory cannot be read, which then
    looks like an empty directory.  Each list holds exactly the entries
    that are not directories, end in ".mp3" in any letter case and whose
    [Info()] succeeds, tagged with its location and newest first. *)
Theorem list_files_never_fails
    (Join : string -> string -> string) (ReadDir : string -> option (list DirEntry))
    (ffprobe : string -> output_result) (size_mb : Z -> Q)
    (sort_Slice : list FileInfo -> list FileInfo)
    (sort_perm : forall l, sort_Slice l ≡ₚ l)
    (sort_sorted : forall l,
       StronglySorted (fun a b => modified_after b a = false) (sort_Slice l)) :
  exists temp_files output_files,
    listFilesHandler Join ReadDir ffprobe size_mb sort_Slice
      = FilesOK temp_files output_files /\
    (ReadDir TEMP_DIR = None -> temp_files = []) /\
    (ReadDir OUTPUT_DIR = None -> output_files = []) /\
    Forall (fun file => file_Location file = "temp") temp_files /\
    Forall (fun file => file_Location file = "output") output_files /\
    StronglySorted (fun a b => (file_Modified b <= file_Modified a)%Z) temp_files /\
    StronglySorted (fun a b => (file_Modified b <= file_Modified a)%Z) output_files /\
    (forall name, name ∈ file_Name <$> temp_files <->
       exists entries entry, ReadDir TEMP_DIR = Some entries /\ entry ∈ entries /\
                             shown entry /\ entry_Name entry = name) /\
    (forall name, name ∈ file_Name <$> output_files <->
       exists entries entry, ReadDir OUTPUT_DIR = Some entries /\ entry ∈ entries /\
                             shown entry /\ entry_Name entry = name).
Proof.
  pose proof (getFilesInDir_spec Join ReadDir ffprobe size_mb sort_Slice
                sort_perm sort_sorted TEMP_DIR "temp") as Ht.
  pose proof (getFilesInDir_spec Join ReadDir ffprobe size_mb sort_Slice
                sort_perm sort_sorted OUTPUT_DIR "output") as Ho.
  cbn zeta in Ht, Ho. unfold listFilesHandler.
  destruct (getFilesInDir _ _ _ _ _ TEMP_DIR "temp") as [temp_files e1].
  destruct (getFilesInDir _ _ _ _ _ OUTPUT_DIR "output") as [output_files e2].
  cbn [fst snd] in Ht, Ho.
  destruct Ht as (-> & Ht1 & Ht2 & Ht3 & Ht4), Ho as (-> & Ho1 & Ho2 & Ho3 & Ho4).
  exists temp_files, output_files. split; [reflexivity|].
  split. { intros Hn. rewrite Hn in Ht4. cbn in Ht4. destruct temp_files; [reflexivity|].
           cbn in Ht4. lia. }
  split. { intros Hn. rewrite Hn in Ho4. cbn in Ho4. destruct output_files; [reflexivity|].
           cbn in Ho4. lia. }
  auto 10.
Qed.

Definition later_first (a b : FileInfo) : Prop := modified_after b a = false.

#[local] Instance later_first_dec a b : Decision (later_first a b).
Proof. unfold later_first. apply _. Defined.

Lemma merge_sort_files_contract :
  (forall l, merge_sort later_first l ≡ₚ l) /\
  (forall l, StronglySorted (fun a b => modified_after b a = false)
               (merge_sort later_first l)).
Proof.
  split; [apply merge_sort_Permutation|]. intros l.
  assert (Transitive later_first) as Htrans.
  { intros a b c. unfold later_first, modified_after.
    rewrite !bool_decide_eq_false. lia. }
  assert (Total later_first) as Htotal.
  { intros a b. unfold later_first, modified_after.
    rewrite !bool_decide_eq_false. lia. }
  apply (StronglySorted_merge_sort later_first).
Qed.

Definition demo_ReadDir (dir : string) : option (list DirEntry) :=
  if bool_decide (dir = TEMP_DIR)
  then Some [mkDirEntry "a.mp3" false (Some (2097152, 10)%Z);
             mkDirEntry "B.MP3" false (Some (1048576, 20)%Z);
             mkDirEntry "cover.jpg" false (Some (10, 30)%Z);
             mkDirEntry "old.mp3" true (Some (0, 40)%Z)]
  else None.

Example list_files_demo :
  listFilesHandler join_name demo_ReadDir (fun _ => OutOk "mjpeg")
                   (fun size => inject_Z size / 1048576) (merge_sort later_first)
  = FilesOK [mkFileInfo "B.MP3" (1048576 / 1048576) 20 true "temp";
             mkFileInfo "a.mp3" (2097152 / 1048576) 10 true "temp"] [].
Proof. vm_compute. reflexivity. Qed.

Lemma list_files_never_fails_witness :
  exists temp_files output_files,
    listFilesHandler join_name demo_ReadDir (fun _ => OutOk "mjpeg")
                     (fun size => inject_Z size / 1048576) (merge_sort later_first)
      = FilesOK temp_files output_files /\
    (demo_ReadDir TEMP_DIR = None -> temp_files = []) /\
    (demo_ReadDir OUTPUT_DIR = None -> output_files = []) /\
    Forall (fun file => file_Location file = "temp") temp_files /\
    Forall (fun file => file_Location file = "output") output_files /\
    StronglySorted (fun a b => (file_Modified b <= file_Modified a)%Z) temp_files /\
    StronglySorted (fun a b => (file_Modified b <= file_Modified a)%Z) output_files /\
    (forall name, name ∈ file_Name <$> temp_files <->
       exists entries entry, demo_ReadDir TEMP_DIR = Some entries /\ entry ∈ entries /\
                             shown entry /\ entry_Name entry = name) /\
    (forall name, name ∈ file_Name <$> output_files <->
       exists entries entry, demo_ReadDir OUTPUT_DIR = Some entries /\ entry ∈ entries /\
                             shown entry /\ entry_Name entry = name).
Proof.
  apply (list_files_never_fails join_name demo_ReadDir (fun _ => OutOk "mjpeg")
           (fun size => inject_Z size / 1048576) (merge_sort later_first)
           (proj1 merge_sort_files_contract) (proj2 merge_sort_files_contract)).
Defined.
